(** * GridIncremental: a shallow embedding of the simulation core

    The development follows the JavaScript sources file by file:
    [Grid] (src/core/Grid.js), the rank and upgrade catalogs
    (src/data/ranks.js, src/data/upgrades.js), [GameState]
    (src/core/GameState.js), [ContractSystem], [AutoPainterSystem], the
    colour catalog and [ShopSystem].

    Conventions.
    - JavaScript numbers that the core uses as integers (coordinates,
      dimensions, money, counters, levels) are [Z].
    - A colour is [null] or a string: [color := option string].
    - The sparse store [cells] is a JavaScript [Map] from the string
      ["x,y"] to a colour string: [gmap string string].
    - [history] is a JavaScript array; the last element is the newest.
    - Event emission is recorded: an operation of [Grid] returns the
      events it emitted, [GameState] handles them synchronously and
      appends its own events to a trace. *)

From stdpp Require Import gmap strings list pretty.
From Stdlib Require Import Ascii ZArith QArith Qround Qpower Lia Lqa.

#[local] Open Scope Z_scope.

(** ** JavaScript values used by the core *)

(** [null] or a colour identifier. *)
Definition color : Type := option string.

(** [v || null] for [v] the result of [Map.get]: [undefined] and the empty
    string are falsy. *)
Definition or_null (v : option string) : color :=
  match v with
  | Some s => if decide (s = "") then None else Some s
  | None => None
  end.

(** The property names that a plain object ([{}], or an object that
    [JSON.parse] builds) inherits from [Object.prototype]. A lookup
    [object[id]] of such a name finds the inherited member when the object
    has no entry of its own under it; every other name is found only in the
    object's own entries, as in a finite map. *)
Definition Object_prototype_keys : list string :=
  [ "constructor"; "hasOwnProperty"; "isPrototypeOf"; "propertyIsEnumerable";
    "toLocaleString"; "toString"; "valueOf"; "__proto__";
    "__defineGetter__"; "__defineSetter__"; "__lookupGetter__";
    "__lookupSetter__" ].

Definition inherited_key (id : string) : bool :=
  bool_decide (id ∈ Object_prototype_keys).

(** A JSON scalar, as found in the [version] field of a save document. *)
Inductive jsval : Type :=
  | JUndefined
  | JNull
  | JBool (b : bool)
  | JNum (n : Z)
  | JStr (s : string).

#[global] Instance jsval_eq_dec : EqDecision jsval.
Proof. solve_decision. Defined.

(** ** src/core/Grid.js *)

Module Grid.

(** A history entry [{ x, y, oldColor, newColor }]. *)
Record Edit : Type := mkEdit {
  e_x : Z;
  e_y : Z;
  oldColor : color;
  newColor : color
}.

(** The payload [{ x, y, color, oldColor }] of ['cellChanged'] and of the
    elements of ['cellsChanged']; [undo] leaves [oldColor] out. *)
Record Change : Type := mkChange {
  c_x : Z;
  c_y : Z;
  c_color : color;
  c_oldColor : option color
}.

Inductive Event : Type :=
  | gridResized (width height : Z)
  | cellChanged (data : Change)
  | cellsChanged (data : list Change)
  | gridCleared
  | gridLoaded.

Record t : Type := mk {
  width : Z;
  height : Z;
  cells : gmap string string;
  history : list Edit
}.

(** [this.maxHistory = 50], set by the constructor and never assigned
    again. *)
Definition maxHistory : nat := 50.

(** [constructor(width = 4, height = 4)] *)
Definition new (width height : Z) : t :=
  {| width := width; height := height; cells := ∅; history := [] |}.

(** [_key(x, y)]: the template string [`${x},${y}`]. *)
Definition _key (x y : Z) : string := pretty x +:+ "," +:+ pretty y.

Definition set_history (g : t) (h : list Edit) : t :=
  {| width := width g; height := height g; cells := cells g; history := h |}.

(** [expand(newWidth, newHeight)] *)
Definition expand (g : t) (newWidth newHeight : Z) : t * bool * list Event :=
  if (newWidth <? width g) || (newHeight <? height g) then
    (g, false, [])
  else
    ({| width := newWidth; height := newHeight;
        cells := cells g; history := [] |},
     true, [gridResized newWidth newHeight]).

(** [isValid(x, y)] *)
Definition isValid (g : t) (x y : Z) : bool :=
  (0 <=? x) && (x <? width g) && (0 <=? y) && (y <? height g).

(** [getCell(x, y)] *)
Definition getCell (g : t) (x y : Z) : color :=
  if negb (isValid g x y) then None
  else or_null (cells g !! _key x y).

(** [cells.delete(key)] when the colour is [null], [cells.set(key, color)]
    otherwise. *)
Definition store (key : string) (c : color) (m : gmap string string)
  : gmap string string :=
  match c with
  | None => delete key m
  | Some s => <[key := s]> m
  end.

(** [history.push(e)] followed by one [history.shift()] when the length
    exceeds [maxHistory]. *)
Definition push_history (h : list Edit) (e : Edit) : list Edit :=
  let h' := h ++ [e] in
  if decide (maxHistory < length h')%nat then tail h' else h'.

(** [setCell(x, y, color, recordHistory = true)] *)
Definition setCell (g : t) (x y : Z) (c : color) (recordHistory : bool)
  : t * bool * list Event :=
  if negb (isValid g x y) then (g, false, [])
  else
    let key := _key x y in
    let old := or_null (cells g !! key) in
    if decide (old = c) then (g, false, [])
    else
      let h := if recordHistory
               then push_history (history g) (mkEdit x y old c)
               else history g in
      ({| width := width g; height := height g;
          cells := store key c (cells g); history := h |},
       true, [cellChanged (mkChange x y c (Some old))]).

(** One iteration of the loop of [setCells]; [acc] is [actualChanges]. *)
Definition setCells_step (recordHistory : bool)
    (st : t * list Change) (ch : Z * Z * color) : t * list Change :=
  let '(g, acc) := st in
  let '(x, y, c) := ch in
  if negb (isValid g x y) then st
  else
    let key := _key x y in
    let old := or_null (cells g !! key) in
    if decide (old = c) then st
    else
      let h := if recordHistory
               then history g ++ [mkEdit x y old c]
               else history g in
      ({| width := width g; height := height g;
          cells := store key c (cells g); history := h |},
       acc ++ [mkChange x y c (Some old)]).

(** [setCells(changes, recordHistory = true)]: the history is trimmed once,
    after the loop, with [splice(0, length - maxHistory)]. *)
Definition setCells (g : t) (changes : list (Z * Z * color))
    (recordHistory : bool) : t * nat * list Event :=
  let '(g1, acc) := foldl (setCells_step recordHistory) (g, []) changes in
  let h := history g1 in
  let g2 := if decide (maxHistory < length h)%nat
            then set_history g1 (drop (length h - maxHistory)%nat h)
            else g1 in
  (g2, length acc, if decide (0 < length acc)%nat then [cellsChanged acc] else []).

(** [undo()] *)
Definition undo (g : t) : t * bool * list Event :=
  match last (history g) with
  | None => (g, false, [])
  | Some e =>
      let key := _key (e_x e) (e_y e) in
      ({| width := width g; height := height g;
          cells := store key (oldColor e) (cells g);
          history := removelast (history g) |},
       true, [cellChanged (mkChange (e_x e) (e_y e) (oldColor e) None)])
  end.

(** [clear()] *)
Definition clear (g : t) : t * list Event :=
  if decide (size (cells g) = 0%nat) then (g, [])
  else
    ({| width := width g; height := height g; cells := ∅; history := [] |},
     [gridCleared]).

(** [getFilledCount()] *)
Definition getFilledCount (g : t) : nat := size (cells g).

(** The [cells] field of a serialized grid: absent (or not an array), the
    sparse format [[[x, y, color], ...]], or the old flat row-major array of
    colours. *)
Inductive SavedCells : Type :=
  | NoCells
  | SparseCells (l : list (Z * Z * color))
  | FlatCells (l : list color).

(** The document produced by [serialize()]; a field that may be missing is an
    [option]. *)
Record Data : Type := mkData {
  d_width : option Z;
  d_height : option Z;
  d_cells : SavedCells
}.

(** [v || d] for a number [v]: [undefined] and [0] are falsy. *)
Definition num_or (v : option Z) (d : Z) : Z :=
  match v with
  | Some n => if decide (n = 0) then d else n
  | None => d
  end.

(** The loop over the sparse format. *)
Definition load_sparse (l : list (Z * Z * color)) : gmap string string :=
  foldl (λ m '(x, y, c),
           match c with
           | Some s => <[_key x y := s]> m
           | None => m
           end) ∅ l.

(** The loop over the flat format, from index [i]:
    [x = i % width], [y = Math.floor(i / width)]. *)
Fixpoint load_flat (w : Z) (i : Z) (l : list color) (m : gmap string string)
  : gmap string string :=
  match l with
  | [] => m
  | c :: l' =>
      load_flat w (i + 1) l'
        (match c with
         | Some s => <[_key (Z.rem i w) (i `div` w) := s]> m
         | None => m
         end)
  end.

(** [deserialize(data)], for a [data] that is an object. *)
Definition deserialize (g : t) (data : Data) : t * list Event :=
  let w := num_or (d_width data) 4 in
  let h := num_or (d_height data) 4 in
  let m := match d_cells data with
           | NoCells => ∅
           | SparseCells l => load_sparse l
           | FlatCells l => load_flat w 0 l ∅
           end in
  ({| width := w; height := h; cells := m; history := [] |}, [gridLoaded]).

(** [countColor(color)]: the number of stored cells of that colour. *)
Definition countColor (g : t) (c : color) : nat :=
  map_fold (λ _ v count, if decide (Some v = c) then S count else count)
           0%nat (cells g).

(** A decimal digit. *)
Definition digit_of (a : ascii) : option N :=
  if decide (a = "0"%char) then Some 0%N
  else if decide (a = "1"%char) then Some 1%N
  else if decide (a = "2"%char) then Some 2%N
  else if decide (a = "3"%char) then Some 3%N
  else if decide (a = "4"%char) then Some 4%N
  else if decide (a = "5"%char) then Some 5%N
  else if decide (a = "6"%char) then Some 6%N
  else if decide (a = "7"%char) then Some 7%N
  else if decide (a = "8"%char) then Some 8%N
  else if decide (a = "9"%char) then Some 9%N
  else None.

(** The value of a string of decimal digits, continuing from [acc]. *)
Fixpoint parse_digits (s : string) (acc : N) : option N :=
  match s with
  | EmptyString => Some acc
  | String a s' =>
      match digit_of a with
      | Some d => parse_digits s' (10 * acc + d)%N
      | None => None
      end
  end.

(** [Number(s)] on the strings that are an integer in decimal digits, with
    an optional sign, and on the empty string (which is 0). [None] stands
    for every other string: the result is [NaN] or is written in a form
    (blanks, fraction, exponent, hexadecimal) that no key of the store
    has. *)
Definition Number_int (s : string) : option Z :=
  match s with
  | EmptyString => Some 0
  | String a s' =>
      if decide (a = "-"%char) then
        match s' with
        | EmptyString => None
        | _ => (λ n, - Z.of_N n) <$> parse_digits s' 0
        end
      else if decide (a = "+"%char) then
        match s' with
        | EmptyString => None
        | _ => Z.of_N <$> parse_digits s' 0
        end
      else Z.of_N <$> parse_digits s 0
  end.

(** [s.split(',')] *)
Fixpoint split_comma (s : string) : list string :=
  match s with
  | EmptyString => [EmptyString]
  | String a s' =>
      if decide (a = ","%char) then EmptyString :: split_comma s'
      else
        match split_comma s' with
        | part :: parts => String a part :: parts
        | [] => [String a EmptyString]
        end
  end.

(** [const [x, y] = key.split(',').map(Number)], when both are integers. *)
Definition parse_key (key : string) : option (Z * Z) :=
  match split_comma key with
  | sx :: sy :: _ =>
      match Number_int sx, Number_int sy with
      | Some x, Some y => Some (x, y)
      | _, _ => None
      end
  | _ => None
  end.

(** The loop of [serialize] (and of [getFilledCells]) over the entries of
    the store. A [Map] iterates in insertion order, which the finite map
    does not record: the entries come in the order of [map_to_list]. The
    result is [None] when a key is no pair of integers. *)
Definition cell_entries (m : gmap string string) : option (list (Z * Z * color)) :=
  mapM (λ kv : string * string,
          (λ xy : Z * Z, (xy.1, xy.2, Some kv.2)) <$> parse_key kv.1)
       (map_to_list m).

(** [serialize()] *)
Definition serialize (g : t) : option Data :=
  (λ cellArray,
     {| d_width := Some (width g); d_height := Some (height g);
        d_cells := SparseCells cellArray |})
  <$> cell_entries (cells g).

(** [getFilledCells()]: the same loop, with objects [{ x, y, color }] for
    the triples. *)
Definition getFilledCells (g : t) : option (list (Z * Z * color)) :=
  cell_entries (cells g).

(** The test of the dense branch of [getCellsInRegion] at one coordinate:
    [if (color) result.push({ x, y, color })]. *)
Definition dense_cell (m : gmap string string) (x y : Z)
  : list (Z * Z * color) :=
  match or_null (m !! _key x y) with
  | Some c => [(x, y, Some c)]
  | None => []
  end.

(** [getCellsInRegion(startX, startY, endX, endY)] on a region given by
    rationals. The sparse branch walks the store as [serialize] does, and
    like it is [None] when a key is no pair of integers. *)
Definition getCellsInRegion (g : t) (startX startY endX endY : Q)
  : option (list (Z * Z * color)) :=
  let startX := Z.max 0 (Qfloor startX) in
  let startY := Z.max 0 (Qfloor startY) in
  let endX := Z.min (width g) (Qceiling endX) in
  let endY := Z.min (height g) (Qceiling endY) in
  if Qlt_le_dec (inject_Z (Z.of_nat (size (cells g))))
                (inject_Z ((endX - startX) * (endY - startY)) / 2)
  then
    filter (λ e : Z * Z * color,
              startX ≤ e.1.1 ∧ e.1.1 < endX ∧ startY ≤ e.1.2 ∧ e.1.2 < endY)
    <$> cell_entries (cells g)
  else
    Some (y ← seqZ startY (endY - startY);
          x ← seqZ startX (endX - startX);
          dense_cell (cells g) x y).

End Grid.

(** ** src/data/ranks.js *)

Module Ranks.

Record Rank : Type := mkRank {
  level : Z;
  name : string;
  contractsRequired : Z;
  minGridSize : Z;
  requiredColors : list string;
  patternComplexity : string;
  rewardMultiplier : Q
}.

(** [RANKS[0]] *)
Definition RANKS_0 : Rank :=
  mkRank 1 "Novice" 0 4 ["black"; "white"] "simple" 1.

Definition RANKS : list Rank :=
  [ RANKS_0
  ; mkRank 2 "Apprentice" 5 4 ["black"; "white"] "basic" (12 # 10)
  ; mkRank 3 "Journeyman" 10 6 ["black"; "white"] "medium" (15 # 10)
  ; mkRank 4 "Artisan" 18 6 ["black"; "white"; "red"] "medium" (18 # 10)
  ; mkRank 5 "Expert" 28 8 ["black"; "white"; "red"; "blue"] "complex" (22 # 10)
  ; mkRank 6 "Master" 40 8 ["black"; "white"; "red"; "blue"; "green"]
      "complex" (28 # 10)
  ; mkRank 7 "Grandmaster" 55 10
      ["black"; "white"; "red"; "blue"; "green"; "yellow"] "advanced" (35 # 10)
  ; mkRank 8 "Virtuoso" 75 12
      ["black"; "white"; "red"; "blue"; "green"; "yellow"; "purple"]
      "advanced" (45 # 10)
  ; mkRank 9 "Legend" 100 16
      ["black"; "white"; "red"; "blue"; "green"; "yellow"; "purple"; "orange"]
      "expert" 6
  ; mkRank 10 "Mythic" 150 20
      ["black"; "white"; "red"; "blue"; "green"; "yellow"; "purple"; "orange";
       "cyan"; "pink"] "master" 8 ].

(** [getRank(level)]: [RANKS.find(r => r.level === level) || RANKS[0]] *)
Definition getRank (lvl : Z) : Rank :=
  match find (λ r, bool_decide (level r = lvl)) RANKS with
  | Some r => r
  | None => RANKS_0
  end.

(** [getMaxRank()]: the level of the last entry. *)
Definition getMaxRank : Z :=
  match last RANKS with
  | Some r => level r
  | None => 0
  end.

(** The loop of [canAccessRank] over [rank.requiredColors], which returns
    [false] at the first colour that is not unlocked. *)
Fixpoint all_unlocked (cs : list string) (unlockedColors : gset string) : bool :=
  match cs with
  | [] => true
  | c :: cs' =>
      if negb (bool_decide (c ∈ unlockedColors)) then false
      else all_unlocked cs' unlockedColors
  end.

(** [canAccessRank(rank, completedContracts, gridSize, unlockedColors)] *)
Definition canAccessRank (rank : Rank) (completedContracts gridSize : Z)
    (unlockedColors : gset string) : bool :=
  if completedContracts <? contractsRequired rank then false
  else if gridSize <? minGridSize rank then false
  else all_unlocked (requiredColors rank) unlockedColors.

(** [getBaseReward(complexity)] *)
Definition getBaseReward (complexity : string) : Z :=
  if decide (complexity = "simple") then 5
  else if decide (complexity = "basic") then 8
  else if decide (complexity = "medium") then 12
  else if decide (complexity = "complex") then 18
  else if decide (complexity = "advanced") then 25
  else if decide (complexity = "expert") then 35
  else if decide (complexity = "master") then 50
  else 5.

(** The object [getMissingRequirements] returns. *)
Record Missing : Type := mkMissing {
  m_contracts : Z;
  m_gridSize : option Z;
  m_colors : list string
}.

(** [getMissingRequirements(rank, completedContracts, gridSize,
    unlockedColors)] *)
Definition getMissingRequirements (rank : Rank) (completedContracts gridSize : Z)
    (unlockedColors : gset string) : Missing :=
  {| m_contracts := Z.max 0 (contractsRequired rank - completedContracts);
     m_gridSize := if gridSize <? minGridSize rank
                   then Some (minGridSize rank) else None;
     m_colors := filter (λ c, c ∉ unlockedColors) (requiredColors rank) |}.

End Ranks.

(** ** src/data/upgrades.js *)

Module Upgrades.

(** The fields of a catalog entry that the pricing reads. Prices are
    JavaScript doubles; the embedding computes them over the rationals. *)
Record Upgrade : Type := mkUpgrade {
  id : string;
  baseCost : Z;
  costMultiplier : Q;
  maxLevel : Z
}.

Definition UPGRADES : list Upgrade :=
  [ mkUpgrade "hold_to_paint" 25 1 1
  ; mkUpgrade "money_boost" 40 2 20
  ; mkUpgrade "multi_brush" 200 (25 # 10) 5
  ; mkUpgrade "undo_buffer" 75 (15 # 10) 5
  ; mkUpgrade "contract_preview" 150 1 1
  ; mkUpgrade "precision_mode" 100 1 1
  ; mkUpgrade "auto_start_contract" 50 1 1
  ; mkUpgrade "speed_boost" 500 (22 # 10) 10 ].

(** [UPGRADES[upgradeId]] *)
Definition UPGRADES_get (upgradeId : string) : option Upgrade :=
  find (λ u, bool_decide (id u = upgradeId)) UPGRADES.

(** [AUTO_PAINTER_CONFIG], as far as the pricing reads it. *)
Definition AUTO_PAINTER_baseCost : Z := 75.
Definition AUTO_PAINTER_costMultiplier : Q := 15 # 10.
Definition AUTO_PAINTER_maxLevel : Z := 5.

(** [isAutoPainterUpgrade(upgradeId)]: [upgradeId.startsWith('auto_painter_')] *)
Definition isAutoPainterUpgrade (upgradeId : string) : bool :=
  String.prefix "auto_painter_" upgradeId.

(** A price: a number or [Infinity]. *)
Inductive Cost : Type :=
  | Finite (n : Z)
  | Infinity.

(** [Math.floor(baseCost * Math.pow(costMultiplier, currentLevel))], over
    the rationals. The code computes in doubles. On the levels that a game
    can own (up to each upgrade's [maxLevel]) the prices are small integers
    and the two agree; at levels far above them the doubles round, and
    beyond their range [Math.pow] is [Infinity], which this definition does
    not follow: the statements about prices are on owned levels. *)
Definition cost_at (baseCost : Z) (costMultiplier : Q) (currentLevel : Z) : Z :=
  Qfloor (inject_Z baseCost * Qpower costMultiplier currentLevel).

(** [getUpgradeCost(upgradeId, currentLevel)] *)
Definition getUpgradeCost (upgradeId : string) (currentLevel : Z) : Cost :=
  if isAutoPainterUpgrade upgradeId then
    Finite (cost_at AUTO_PAINTER_baseCost AUTO_PAINTER_costMultiplier currentLevel)
  else
    match UPGRADES_get upgradeId with
    | None => Infinity
    | Some upgrade =>
        Finite (cost_at (baseCost upgrade) (costMultiplier upgrade) currentLevel)
    end.

(** A grid expansion tier. *)
Record Expansion : Type := mkExpansion {
  e_level : Z;
  e_size : Z;
  e_cost : Z
}.

Definition GRID_EXPANSIONS : list Expansion :=
  [ mkExpansion 1 4 0; mkExpansion 2 6 50; mkExpansion 3 8 150;
    mkExpansion 4 10 400; mkExpansion 5 12 1000; mkExpansion 6 16 2500;
    mkExpansion 7 20 5000; mkExpansion 8 25 10000; mkExpansion 9 32 20000;
    mkExpansion 10 50 50000; mkExpansion 11 75 100000;
    mkExpansion 12 100 200000; mkExpansion 13 150 500000;
    mkExpansion 14 200 1000000; mkExpansion 15 500 5000000;
    mkExpansion 16 1000 20000000 ].

(** [getNextGridExpansion(currentLevel)] *)
Definition getNextGridExpansion (currentLevel : Z) : option Expansion :=
  find (λ e, bool_decide (e_level e = currentLevel + 1)) GRID_EXPANSIONS.

(** [getAutoPainterColor(upgradeId)]: the id without its first
    ['auto_painter_'], which is its prefix. *)
Definition getAutoPainterColor (upgradeId : string) : option string :=
  if negb (isAutoPainterUpgrade upgradeId) then None
  else Some (String.substring 13 (String.length upgradeId - 13) upgradeId).

(** [canPurchaseUpgrade(upgradeId, ownedUpgrades)]. No entry of the catalog
    has a [requires] field, so the test on it never fails. *)
Definition canPurchaseUpgrade (upgradeId : string) (ownedUpgrades : gset string)
  : bool :=
  match UPGRADES_get upgradeId with
  | None => false
  | Some _ => true
  end.

End Upgrades.


(** ** src/core/GameState.js *)

Module GameState.

(** A contract object, as built by [ContractSystem.generateContract]. *)
Record Contract : Type := mkContract {
  c_id : string;
  rankLevel : Z;
  rankName : string;
  pattern : list (list color);
  reward : Z;
  cellCount : Z;
  createdAt : Z
}.

Record Stats : Type := mkStats {
  totalCellsFilled : Z;
  totalMoneyEarned : Z;
  totalContractsCompleted : Z;
  playTime : Z
}.

(** The events [GameState] emits, with their payloads. *)
Inductive Event : Type :=
  | cellChanged (data : Grid.Change)
  | cellsChanged (data : list Grid.Change)
  | gridCleared
  | gridLoaded
  | gridResized (width height : Z)
  | gridExpanded (width height level : Z)
  | moneyChanged (money delta : Z)
  | colorUnlocked (colorId : string)
  | colorSelected (colorId : string)
  | upgradeChanged (id : string) (level : Z)
  | automationToggled (id : string) (enabled : bool)
  | contractStarted (contract : Contract)
  | contractCleared (contract : option Contract)
  | contractCompleted (contract : Contract)
  | stateLoaded.

(** The fields of the class; [emitted] is the trace of the events emitted so
    far, oldest first. *)
Record t : Type := mk {
  grid : Grid.t;
  gridLevel : Z;
  money : Z;
  unlockedColors : gset string;
  selectedColor : string;
  upgrades : gmap string Z;
  automationEnabled : gmap string bool;
  activeContract : option Contract;
  completedContracts : Z;
  stats : Stats;
  emitted : list Event
}.

(** [constructor()] *)
Definition new : t :=
  {| grid := Grid.new 4 4;
     gridLevel := 1;
     money := 0;
     unlockedColors := {[ "black"; "white" ]};
     selectedColor := "black";
     upgrades := ∅;
     automationEnabled := ∅;
     activeContract := None;
     completedContracts := 0;
     stats := mkStats 0 0 0 0;
     emitted := [] |}.

Definition set_grid (s : t) (g : Grid.t) : t :=
  mk g (gridLevel s) (money s) (unlockedColors s) (selectedColor s)
     (upgrades s) (automationEnabled s) (activeContract s)
     (completedContracts s) (stats s) (emitted s).

Definition set_gridLevel (s : t) (n : Z) : t :=
  mk (grid s) n (money s) (unlockedColors s) (selectedColor s)
     (upgrades s) (automationEnabled s) (activeContract s)
     (completedContracts s) (stats s) (emitted s).

Definition set_money (s : t) (n : Z) : t :=
  mk (grid s) (gridLevel s) n (unlockedColors s) (selectedColor s)
     (upgrades s) (automationEnabled s) (activeContract s)
     (completedContracts s) (stats s) (emitted s).

Definition set_activeContract (s : t) (c : option Contract) : t :=
  mk (grid s) (gridLevel s) (money s) (unlockedColors s) (selectedColor s)
     (upgrades s) (automationEnabled s) c
     (completedContracts s) (stats s) (emitted s).

Definition set_completedContracts (s : t) (n : Z) : t :=
  mk (grid s) (gridLevel s) (money s) (unlockedColors s) (selectedColor s)
     (upgrades s) (automationEnabled s) (activeContract s)
     n (stats s) (emitted s).

Definition set_stats (s : t) (st : Stats) : t :=
  mk (grid s) (gridLevel s) (money s) (unlockedColors s) (selectedColor s)
     (upgrades s) (automationEnabled s) (activeContract s)
     (completedContracts s) st (emitted s).

(** [this.emit(name, payload)] *)
Definition emit (s : t) (e : Event) : t :=
  mk (grid s) (gridLevel s) (money s) (unlockedColors s) (selectedColor s)
     (upgrades s) (automationEnabled s) (activeContract s)
     (completedContracts s) (stats s) (emitted s ++ [e]).

(** [addMoney(amount)] *)
Definition addMoney (s : t) (amount : Z) : t * bool :=
  if amount <=? 0 then (s, false)
  else
    let s1 := set_money s (money s + amount) in
    let st := stats s1 in
    let s2 := set_stats s1
                (mkStats (totalCellsFilled st) (totalMoneyEarned st + amount)
                         (totalContractsCompleted st) (playTime st)) in
    (emit s2 (moneyChanged (money s2) amount), true).

(** [spendMoney(amount)] *)
Definition spendMoney (s : t) (amount : Z) : t * bool :=
  if (amount <=? 0) || (money s <? amount) then (s, false)
  else
    let s1 := set_money s (money s - amount) in
    (emit s1 (moneyChanged (money s1) (- amount)), true).

(** [hasColor(colorId)] *)
Definition hasColor (s : t) (colorId : string) : bool :=
  bool_decide (colorId ∈ unlockedColors s).

(** [getUpgradeLevel(upgradeId)]: [this.upgrades[upgradeId] || 0]. The
    object [upgrades] is a finite map for the ids that [Object.prototype]
    does not define, the ids of the catalog and of the auto-painters among
    them. Under an [inherited_key] without an entry of its own the code
    finds an inherited member, which is no level, and this lookup does not
    follow it. *)
Definition getUpgradeLevel (s : t) (upgradeId : string) : Z :=
  Grid.num_or (upgrades s !! upgradeId) 0.

(** [this.grid.clear()], with the listener that forwards ['gridCleared']. *)
Definition grid_clear (s : t) : t :=
  let '(g, evs) := Grid.clear (grid s) in
  foldl (λ s' _, emit s' gridCleared) (set_grid s g) evs.

(** [setActiveContract(contract)] *)
Definition setActiveContract (s : t) (contract : Contract) : t :=
  let s1 := set_activeContract s (Some contract) in
  let s2 := grid_clear s1 in
  emit s2 (contractStarted contract).

(** [clearContract()] *)
Definition clearContract (s : t) : t :=
  let contract := activeContract s in
  let s1 := set_activeContract s None in
  let s2 := grid_clear s1 in
  emit s2 (contractCleared contract).

(** [completeActiveContract()] *)
Definition completeActiveContract (s : t) : t * bool :=
  match activeContract s with
  | None => (s, false)
  | Some contract =>
      let s1 := fst (addMoney s (reward contract)) in
      let s2 := set_activeContract s1 None in
      let s3 := set_completedContracts s2 (completedContracts s2 + 1) in
      let st := stats s3 in
      let s4 := set_stats s3
                  (mkStats (totalCellsFilled st) (totalMoneyEarned st)
                           (totalContractsCompleted st + 1) (playTime st)) in
      let s5 := grid_clear s4 in
      (emit s5 (contractCompleted contract), true)
  end.

(** [pattern[y]?.[x]]; [None] is [undefined]. *)
Definition pattern_at (p : list (list color)) (x y : Z) : option color :=
  if (y <? 0) || (x <? 0) then None
  else
    match p !! Z.to_nat y with
    | Some row => row !! Z.to_nat x
    | None => None
    end.

(** [v ?? null] *)
Definition nullish (v : option color) : color :=
  match v with
  | Some c => c
  | None => None
  end.

(** The inner loop of [checkContractCompletion] over the columns [xs] of row
    [y]; the pair is [(allMatch, anyWrong)]. *)
Fixpoint check_row (g : Grid.t) (p : list (list color)) (y : Z) (xs : list Z)
    (flags : bool * bool) : bool * bool :=
  match xs with
  | [] => flags
  | x :: xs' =>
      let expected := nullish (pattern_at p x y) in
      let actual := Grid.getCell g x y in
      let flags' :=
        if decide (expected ≠ actual) then
          (false,
           if bool_decide (expected = None) && bool_decide (actual ≠ None)
           then true else snd flags)
        else flags in
      check_row g p y xs' flags'
  end.

(** The outer loop over the rows [ys], with its [break]. *)
Fixpoint check_rows (g : Grid.t) (p : list (list color)) (ys : list Z)
    (flags : bool * bool) : bool * bool :=
  match ys with
  | [] => flags
  | y :: ys' =>
      let flags' := check_row g p y (seqZ 0 (Grid.width g)) flags in
      if negb (fst flags') && snd flags' then flags'
      else check_rows g p ys' flags'
  end.

(** [checkContractCompletion()] *)
Definition checkContractCompletion (s : t) : t :=
  match activeContract s with
  | None => s
  | Some contract =>
      let flags := check_rows (grid s) (pattern contract)
                     (seqZ 0 (Grid.height (grid s))) (true, false) in
      if fst flags then fst (completeActiveContract s) else s
  end.

(** The listeners the constructor registers on the grid. *)
Definition on_grid_event (s : t) (e : Grid.Event) : t :=
  match e with
  | Grid.cellChanged data =>
      let st := stats s in
      let s1 := set_stats s
                  (mkStats (totalCellsFilled st + 1) (totalMoneyEarned st)
                           (totalContractsCompleted st) (playTime st)) in
      checkContractCompletion (emit s1 (cellChanged data))
  | Grid.cellsChanged data =>
      let st := stats s in
      let s1 := set_stats s
                  (mkStats (totalCellsFilled st + Z.of_nat (length data))
                           (totalMoneyEarned st)
                           (totalContractsCompleted st) (playTime st)) in
      checkContractCompletion (emit s1 (cellsChanged data))
  | Grid.gridCleared => emit s gridCleared
  | Grid.gridLoaded => emit s gridLoaded
  | Grid.gridResized w h => emit s (gridResized w h)
  end.

(** A call [this.grid.op(...)]: the grid is updated, then the listeners run
    on the events of the call, before control returns to the caller. *)
Definition on_grid {R : Type} (s : t) (r : Grid.t * R * list Grid.Event) : t * R :=
  let '(g, res, evs) := r in
  (foldl on_grid_event (set_grid s g) evs, res).

(** [gameState.grid.setCell(x, y, color)] *)
Definition grid_setCell (s : t) (x y : Z) (c : color) (recordHistory : bool)
  : t * bool :=
  on_grid s (Grid.setCell (grid s) x y c recordHistory).

(** [gameState.grid.undo()] *)
Definition grid_undo (s : t) : t * bool :=
  on_grid s (Grid.undo (grid s)).

(** [gameState.grid.setCells(changes)] *)
Definition grid_setCells (s : t) (changes : list (Z * Z * color))
    (recordHistory : bool) : t * nat :=
  on_grid s (Grid.setCells (grid s) changes recordHistory).

(** [expandGrid(newWidth, newHeight)] *)
Definition expandGrid (s : t) (newWidth newHeight : Z) : t * bool :=
  let '(s1, success) := on_grid s (Grid.expand (grid s) newWidth newHeight) in
  if success then
    let s2 := set_gridLevel s1 (gridLevel s1 + 1) in
    (emit s2 (gridExpanded newWidth newHeight (gridLevel s2)), true)
  else (s1, false).

(** A save document; a field that may be missing is an [option]. *)
Record Data : Type := mkData {
  d_version : jsval;
  d_grid : option Grid.Data;
  d_gridLevel : option Z;
  d_money : option Z;
  d_unlockedColors : option (list string);
  d_selectedColor : option string;
  d_upgrades : option (gmap string Z);
  d_automationEnabled : option (gmap string bool);
  d_activeContract : option Contract;
  d_completedContracts : option Z;
  d_stats : option Stats
}.

(** How a call ends: with a returned boolean, or with the [TypeError] that
    [Grid.deserialize] raises on an [undefined] argument. *)
Inductive Outcome : Type :=
  | Returned (b : bool)
  | Threw.

(** [deserialize(data)]; [None] is a missing ([null], [undefined]) [data]. *)
Definition deserialize (s : t) (data : option Data) : t * Outcome :=
  match data with
  | None => (s, Returned false)
  | Some data =>
      if bool_decide (d_version data ≠ JNum 2)
         && bool_decide (d_version data ≠ JNum 3)
         && bool_decide (d_version data ≠ JNum 4)
      then (s, Returned false)
      else
        let savedWidth :=
          Grid.num_or (d_grid data ≫= Grid.d_width) 4 in
        let savedHeight :=
          Grid.num_or (d_grid data ≫= Grid.d_height) 4 in
        let s1 :=
          if bool_decide (savedWidth ≠ Grid.width (grid s))
             || bool_decide (savedHeight ≠ Grid.height (grid s))
          then fst (on_grid s (Grid.expand (grid s) savedWidth savedHeight))
          else s in
        match d_grid data with
        | None => (s1, Threw)
        | Some gd =>
            let '(g, evs) := Grid.deserialize (grid s1) gd in
            let s2 := foldl on_grid_event (set_grid s1 g) evs in
            let s3 :=
              {| grid := grid s2;
                 gridLevel := Grid.num_or (d_gridLevel data) 1;
                 money := Grid.num_or (d_money data) 0;
                 unlockedColors :=
                   list_to_set
                     (default ["black"; "white"] (d_unlockedColors data));
                 selectedColor :=
                   default "black" (or_null (d_selectedColor data));
                 upgrades := default ∅ (d_upgrades data);
                 automationEnabled := default ∅ (d_automationEnabled data);
                 activeContract := d_activeContract data;
                 completedContracts :=
                   Grid.num_or (d_completedContracts data) 0;
                 stats := default (mkStats 0 0 0 0) (d_stats data);
                 emitted := emitted s2 |} in
            (emit s3 stateLoaded, Returned true)
        end
  end.

Definition set_unlockedColors (s : t) (u : gset string) : t :=
  mk (grid s) (gridLevel s) (money s) u (selectedColor s)
     (upgrades s) (automationEnabled s) (activeContract s)
     (completedContracts s) (stats s) (emitted s).

Definition set_selectedColor (s : t) (c : string) : t :=
  mk (grid s) (gridLevel s) (money s) (unlockedColors s) c
     (upgrades s) (automationEnabled s) (activeContract s)
     (completedContracts s) (stats s) (emitted s).

Definition set_upgrades (s : t) (u : gmap string Z) : t :=
  mk (grid s) (gridLevel s) (money s) (unlockedColors s) (selectedColor s)
     u (automationEnabled s) (activeContract s)
     (completedContracts s) (stats s) (emitted s).

Definition set_automationEnabled (s : t) (a : gmap string bool) : t :=
  mk (grid s) (gridLevel s) (money s) (unlockedColors s) (selectedColor s)
     (upgrades s) a (activeContract s)
     (completedContracts s) (stats s) (emitted s).

(** [unlockColor(colorId)] *)
Definition unlockColor (s : t) (colorId : string) : t * bool :=
  if bool_decide (colorId ∈ unlockedColors s) then (s, false)
  else
    let s1 := set_unlockedColors s (unlockedColors s ∪ {[ colorId ]}) in
    (emit s1 (colorUnlocked colorId), true).

(** [selectColor(colorId)] *)
Definition selectColor (s : t) (colorId : string) : t * bool :=
  if negb (bool_decide (colorId ∈ unlockedColors s)) then (s, false)
  else (emit (set_selectedColor s colorId) (colorSelected colorId), true).

(** [getOwnedAutoPainters()]: the keys of [upgrades] that start with
    ['auto_painter_'], in the order of [map_to_list] (the object's own order
    is the order of insertion, which the finite map does not record). *)
Definition getOwnedAutoPainters (s : t) : list string :=
  filter (λ id, Upgrades.isAutoPainterUpgrade id = true)
         (map_to_list (upgrades s)).*1.

(** [hasUpgrade(upgradeId)] *)
Definition hasUpgrade (s : t) (upgradeId : string) : bool :=
  0 <? getUpgradeLevel s upgradeId.

(** [purchaseUpgrade(upgradeId)] *)
Definition purchaseUpgrade (s : t) (upgradeId : string) : t * bool :=
  let currentLevel := getUpgradeLevel s upgradeId in
  let s1 := set_upgrades s (<[upgradeId := currentLevel + 1]> (upgrades s)) in
  let s2 := if decide (currentLevel = 0)
            then set_automationEnabled s1
                   (<[upgradeId := true]> (automationEnabled s1))
            else s1 in
  (emit s2 (upgradeChanged upgradeId (currentLevel + 1)), true).

(** [this.automationEnabled[upgradeId] !== false] *)
Definition not_disabled (s : t) (upgradeId : string) : bool :=
  match automationEnabled s !! upgradeId with
  | Some false => false
  | _ => true
  end.

(** [isAutomationEnabled(upgradeId)] *)
Definition isAutomationEnabled (s : t) (upgradeId : string) : bool :=
  if decide (upgradeId = "auto_painters") then not_disabled s "auto_painters"
  else if negb (hasUpgrade s upgradeId) then false
  else not_disabled s upgradeId.

(** [setAutomationEnabled(upgradeId, enabled)] *)
Definition setAutomationEnabled (s : t) (upgradeId : string) (enabled : bool)
  : t * bool :=
  if decide (upgradeId = "auto_painters") then
    let s1 := set_automationEnabled s
                (<["auto_painters" := enabled]> (automationEnabled s)) in
    (emit s1 (automationToggled upgradeId enabled), true)
  else if negb (hasUpgrade s upgradeId) then (s, false)
  else
    let s1 := set_automationEnabled s
                (<[upgradeId := enabled]> (automationEnabled s)) in
    (emit s1 (automationToggled upgradeId enabled), true).

(** [serialize()]; [None] when the grid has a key that is no pair of
    integers (see [Grid.cell_entries]). *)
Definition serialize (s : t) : option Data :=
  (λ gd,
     {| d_version := JNum 4;
        d_grid := Some gd;
        d_gridLevel := Some (gridLevel s);
        d_money := Some (money s);
        d_unlockedColors := Some (elements (unlockedColors s));
        d_selectedColor := Some (selectedColor s);
        d_upgrades := Some (upgrades s);
        d_automationEnabled := Some (automationEnabled s);
        d_activeContract := activeContract s;
        d_completedContracts := Some (completedContracts s);
        d_stats := Some (stats s) |})
  <$> Grid.serialize (grid s).

End GameState.

(** ** src/systems/ContractSystem.js *)

Module ContractSystem.

(** The fields of the class next to its [gameState], which the functions
    below take as an argument. *)
Record t : Type := mk {
  contractIdCounter : Z;
  selectedRankLevel : option Z
}.

(** [constructor(gameState)] *)
Definition new : t := {| contractIdCounter := 0; selectedRankLevel := None |}.

(** [Math.min(this.gameState.grid.width, this.gameState.grid.height)] *)
Definition gridSize (s : GameState.t) : Z :=
  Z.min (Grid.width (GameState.grid s)) (Grid.height (GameState.grid s)).

(** [canAccessRank(rank, completedContracts, gridSize, unlockedColors)] on the
    fields of the game state. *)
Definition accessible (s : GameState.t) (rank : Ranks.Rank) : bool :=
  Ranks.canAccessRank rank (GameState.completedContracts s) (gridSize s)
    (GameState.unlockedColors s).

(** The loop of [getHighestAccessibleRank] over the levels, with its
    [break]. *)
Fixpoint highest_loop (s : GameState.t) (levels : list Z) (highest : Z) : Z :=
  match levels with
  | [] => highest
  | level :: levels' =>
      if accessible s (Ranks.getRank level) then highest_loop s levels' level
      else highest
  end.

(** [getHighestAccessibleRank()] *)
Definition getHighestAccessibleRank (s : GameState.t) : Z :=
  highest_loop s (seqZ 1 Ranks.getMaxRank) 1.

(** [countPatternCells(pattern)] *)
Definition countPatternCells (p : list (list color)) : Z :=
  foldl (λ count row,
           foldl (λ count (cell : color),
                    if decide (cell ≠ None) then count + 1 else count)
                 count row)
        0 p.

(** [getMoneyBoostMultiplier()]: [1 + level * 0.15] *)
Definition getMoneyBoostMultiplier (s : GameState.t) : Q :=
  (1 + inject_Z (Grid.num_or (GameState.upgrades s !! "money_boost") 0)
       * (15 # 100))%Q.

(** [getAvailableRanks()] *)
Definition getAvailableRanks (s : GameState.t) : list Ranks.Rank :=
  foldl (λ available level,
           let rank := Ranks.getRank level in
           if accessible s rank then available ++ [rank] else available)
        [] (seqZ 1 Ranks.getMaxRank).

(** [getNextRankRequirements()]. The test [if (!nextRank) return null] never
    fires: [getRank] always returns a rank object. *)
Definition getNextRankRequirements (s : GameState.t)
  : option (Ranks.Rank * Ranks.Missing) :=
  let currentHighest := getHighestAccessibleRank s in
  let nextRank := Ranks.getRank (currentHighest + 1) in
  Some (nextRank,
        Ranks.getMissingRequirements nextRank (GameState.completedContracts s)
          (gridSize s) (GameState.unlockedColors s)).

(** The object [getProgress] returns. *)
Record Progress : Type := mkProgress {
  correct : Z;
  wrong : Z;
  total : Z;
  percent : Z
}.

(** The inner loop of [getProgress] over the columns [xs] of row [y]; the
    pair is [(correct, wrong)]. *)
Fixpoint progress_row (g : Grid.t) (p : list (list color)) (y : Z)
    (xs : list Z) (acc : Z * Z) : Z * Z :=
  match xs with
  | [] => acc
  | x :: xs' =>
      let expected := GameState.pattern_at p x y in
      let actual := Grid.getCell g x y in
      let acc' :=
        if decide (expected ≠ Some None) then
          if decide (expected = Some actual) then (acc.1 + 1, acc.2) else acc
        else if decide (actual ≠ None) then (acc.1, acc.2 + 1)
        else acc in
      progress_row g p y xs' acc'
  end.

(** The outer loop over the rows [ys]. *)
Fixpoint progress_rows (g : Grid.t) (p : list (list color)) (ys : list Z)
    (acc : Z * Z) : Z * Z :=
  match ys with
  | [] => acc
  | y :: ys' =>
      progress_rows g p ys' (progress_row g p y (seqZ 0 (Grid.width g)) acc)
  end.

(** [Math.round(q)] over the rationals: the nearest integer, halves up. *)
Definition round (q : Q) : Z := Qfloor (q + (1 # 2))%Q.

(** [getProgress()]; [None] is [null]. *)
Definition getProgress (s : GameState.t) : option Progress :=
  match GameState.activeContract s with
  | None => None
  | Some contract =>
      let g := GameState.grid s in
      let acc := progress_rows g (GameState.pattern contract)
                   (seqZ 0 (Grid.height g)) (0, 0) in
      let cellCount := GameState.cellCount contract in
      Some {| correct := acc.1;
              wrong := acc.2;
              total := cellCount;
              percent :=
                if 0 <? cellCount
                then round (inject_Z acc.1 / inject_Z cellCount * 100)%Q
                else 0 |}
  end.

Section Generation.

(** [generatePattern(rank, gridSize)] draws from [Math.random()]; the pattern
    it returns for a call is a parameter of the embedding, and so is the
    clock [Date.now()]. *)
Variable generatePattern :
  GameState.t → Ranks.Rank → Z → list (list color).
Variable now : Z.

(** [generateContract(rankLevel = null)]. The test [if (!rank) return null]
    never fires: [getRank] always returns a rank object. *)
Definition generateContract (cs : t) (s : GameState.t) (rankLevel : option Z)
  : t * option GameState.Contract :=
  let rankLevel := match rankLevel with
                   | None => getHighestAccessibleRank s
                   | Some l => l
                   end in
  let rank := Ranks.getRank rankLevel in
  if negb (accessible s rank) then (cs, None)
  else
    let pattern := generatePattern s rank (gridSize s) in
    let cellCount := countPatternCells pattern in
    let baseReward := Ranks.getBaseReward (Ranks.patternComplexity rank) in
    let moneyBoost := getMoneyBoostMultiplier s in
    let reward :=
      Qfloor (inject_Z baseReward * Ranks.rewardMultiplier rank * moneyBoost
              * (inject_Z cellCount / 4))%Q in
    let n := contractIdCounter cs + 1 in
    ({| contractIdCounter := n; selectedRankLevel := selectedRankLevel cs |},
     Some {| GameState.c_id := "contract_" +:+ pretty n;
             GameState.rankLevel := Ranks.level rank;
             GameState.rankName := Ranks.name rank;
             GameState.pattern := pattern;
             GameState.reward := Z.max reward 1;
             GameState.cellCount := cellCount;
             GameState.createdAt := now |}).

(** The result [{ success, reason }] or [{ success, contract }]. *)
Inductive Result : Type :=
  | Failure (reason : string)
  | Success (contract : option GameState.Contract).

(** [acceptContract(rankLevel = null)] *)
Definition acceptContract (cs : t) (s : GameState.t) (rankLevel : option Z)
  : t * GameState.t * Result :=
  match GameState.activeContract s with
  | Some _ => (cs, s, Failure "Already have an active contract")
  | None =>
      let targetRank :=
        match rankLevel with
        | Some l => l
        | None =>
            match selectedRankLevel cs with
            | Some l => l
            | None => getHighestAccessibleRank s
            end
        end in
      match generateContract cs s (Some targetRank) with
      | (cs', None) => (cs', s, Failure "Cannot access this rank")
      | (cs', Some contract) =>
          (cs', GameState.setActiveContract s contract, Success (Some contract))
      end
  end.

(** [abandonContract()] *)
Definition abandonContract (s : GameState.t) : GameState.t * Result :=
  match GameState.activeContract s with
  | None => (s, Failure "No active contract")
  | Some _ => (GameState.clearContract s, Success None)
  end.

(** [canAcceptContract()] *)
Definition canAcceptContract (s : GameState.t) : bool :=
  match GameState.activeContract s with
  | Some _ => false
  | None => true
  end.

End Generation.

End ContractSystem.

(** ** src/systems/AutoPainterSystem.js *)

Module AutoPainterSystem.

(** The inner loop of [paintNextCell] over the columns [xs] of row [y]: the
    first [x] whose pattern entry is [colorId] while the grid holds something
    else. *)
Fixpoint scan_row (g : Grid.t) (p : list (list color)) (colorId : color)
    (y : Z) (xs : list Z) : option Z :=
  match xs with
  | [] => None
  | x :: xs' =>
      let expected := GameState.pattern_at p x y in
      let actual := Grid.getCell g x y in
      if bool_decide (expected = Some colorId) && bool_decide (actual ≠ colorId)
      then Some x
      else scan_row g p colorId y xs'
  end.

(** The outer loop over the rows [ys]. *)
Fixpoint scan_rows (g : Grid.t) (p : list (list color)) (colorId : color)
    (ys : list Z) : option (Z * Z) :=
  match ys with
  | [] => None
  | y :: ys' =>
      match scan_row g p colorId y (seqZ 0 (Grid.width g)) with
      | Some x => Some (x, y)
      | None => scan_rows g p colorId ys'
      end
  end.

(** [paintNextCell(colorId)] *)
Definition paintNextCell (s : GameState.t) (colorId : color)
  : GameState.t * bool :=
  match GameState.activeContract s with
  | None => (s, false)
  | Some contract =>
      let g := GameState.grid s in
      match scan_rows g (GameState.pattern contract) colorId
              (seqZ 0 (Grid.height g)) with
      | Some (x, y) => (fst (GameState.grid_setCell s x y colorId true), true)
      | None => (s, false)
      end
  end.

(** [Math.max] on the rationals. *)
Definition Qmax (a b : Q) : Q := if Qle_bool a b then b else a.

(** [getInterval(painterId)], computed over the rationals:
    [baseInterval = 5000], [intervalReductionPerLevel = 0.15]. *)
Definition getInterval (s : GameState.t) (painterId : string) : Q :=
  let level := GameState.getUpgradeLevel s painterId in
  let speedBoostLevel := GameState.getUpgradeLevel s "speed_boost" in
  let interval := 5000%Q in
  let levelReduction := (1 - inject_Z level * (15 # 100))%Q in
  let interval := (interval * Qmax (2 # 10) levelReduction)%Q in
  let speedReduction := (1 - inject_Z speedBoostLevel * (25 # 100))%Q in
  let interval := (interval * Qmax (1 # 10) speedReduction)%Q in
  Qmax 200 interval.

(** The body of the loop of [tick] for one painter; the state is the game
    with [lastPaintTime]. [!colorId] holds for [null] and for the empty
    string. *)
Definition tick_step (now : Z) (st : GameState.t * gmap string Z)
    (painterId : string) : GameState.t * gmap string Z :=
  match or_null (Upgrades.getAutoPainterColor painterId) with
  | None => st
  | Some colorId =>
      let interval := getInterval st.1 painterId in
      let lastPaint := Grid.num_or (st.2 !! colorId) 0 in
      if Qle_bool interval (inject_Z (now - lastPaint)) then
        let r := paintNextCell st.1 (Some colorId) in
        if r.2 then (r.1, <[colorId := now]> st.2) else (r.1, st.2)
      else st
  end.

(** [tick()] at the time [now = Date.now()]. *)
Definition tick (now : Z) (st : GameState.t * gmap string Z)
  : GameState.t * gmap string Z :=
  match GameState.activeContract st.1 with
  | None => st
  | Some _ =>
      if negb (GameState.isAutomationEnabled st.1 "auto_painters") then st
      else
        let ownedPainters := GameState.getOwnedAutoPainters st.1 in
        foldl (tick_step now) st ownedPainters
  end.

End AutoPainterSystem.

(** ** The colour catalog *)

Module Colors.

(** The ids and the costs of [COLORS]. *)
Definition COLORS : list (string * Z) :=
  [ ("black", 0); ("white", 0); ("red", 50); ("blue", 50); ("green", 50);
    ("yellow", 75); ("orange", 100); ("purple", 100); ("pink", 125);
    ("cyan", 125); ("gold", 250); ("silver", 200); ("brown", 150);
    ("navy", 175); ("rainbow", 1000); ("neon", 500) ].

(** [COLORS[colorId]?.cost]; [None] is [undefined]. *)
Definition cost (colorId : string) : option Z :=
  snd <$> find (λ c, bool_decide (c.1 = colorId)) COLORS.

End Colors.

(** ** The shop *)

Module ShopSystem.

(** What a purchase returns: [{ success: false, reason }] or
    [{ success: true, ... }] with the fields of the purchase. *)
Inductive Result : Type :=
  | Failure (reason : string)
  | BoughtExpansion (level size cost : Z)
  | BoughtColor (colorId : string) (price : Z)
  | BoughtUpgrade (upgradeId : string) (price : Upgrades.Cost).

(** [getNextExpansion()] *)
Definition getNextExpansion (s : GameState.t) : option Upgrades.Expansion :=
  Upgrades.getNextGridExpansion (GameState.gridLevel s).

(** [canBuyGridExpansion()] *)
Definition canBuyGridExpansion (s : GameState.t) : bool :=
  match getNextExpansion s with
  | None => false
  | Some next => Upgrades.e_cost next <=? GameState.money s
  end.

(** [buyGridExpansion()] *)
Definition buyGridExpansion (s : GameState.t) : GameState.t * Result :=
  match getNextExpansion s with
  | None => (s, Failure "Max grid size reached")
  | Some next =>
      if negb (canBuyGridExpansion s) then (s, Failure "Cannot afford")
      else
        let s1 := (GameState.spendMoney s (Upgrades.e_cost next)).1 in
        let s2 := (GameState.expandGrid s1 (Upgrades.e_size next)
                     (Upgrades.e_size next)).1 in
        (s2, BoughtExpansion (Upgrades.e_level next) (Upgrades.e_size next)
               (Upgrades.e_cost next))
  end.

(** [getColorPrice(colorId)]: [COLORS[colorId]?.cost || 0] *)
Definition getColorPrice (colorId : string) : Z :=
  Grid.num_or (Colors.cost colorId) 0.

(** [canBuyColor(colorId)] *)
Definition canBuyColor (s : GameState.t) (colorId : string) : bool :=
  if GameState.hasColor s colorId then false
  else getColorPrice colorId <=? GameState.money s.

(** [buyColor(colorId)] *)
Definition buyColor (s : GameState.t) (colorId : string)
  : GameState.t * Result :=
  if negb (canBuyColor s colorId)
  then (s, Failure "Cannot afford or already owned")
  else
    let price := getColorPrice colorId in
    let s1 := (GameState.spendMoney s price).1 in
    let s2 := (GameState.unlockColor s1 colorId).1 in
    (s2, BoughtColor colorId price).

(** [getUpgradePrice(upgradeId)] *)
Definition getUpgradePrice (s : GameState.t) (upgradeId : string)
  : Upgrades.Cost :=
  Upgrades.getUpgradeCost upgradeId (GameState.getUpgradeLevel s upgradeId).

(** [this.gameState.money >= price] *)
Definition affords (s : GameState.t) (price : Upgrades.Cost) : bool :=
  match price with
  | Upgrades.Finite n => n <=? GameState.money s
  | Upgrades.Infinity => false
  end.

(** The ids of [this.gameState.upgrades] that [hasUpgrade] accepts. *)
Definition ownedUpgrades (s : GameState.t) : gset string :=
  dom (filter (λ kv : string * Z, 0 < Grid.num_or (Some kv.2) 0)
              (GameState.upgrades s)).

(** [canBuyUpgrade(upgradeId)] *)
Definition canBuyUpgrade (s : GameState.t) (upgradeId : string) : bool :=
  if Upgrades.isAutoPainterUpgrade upgradeId then
    let colorId :=
      String.substring 13 (String.length upgradeId - 13) upgradeId in
    if negb (GameState.hasColor s colorId) then false
    else
      let currentLevel := GameState.getUpgradeLevel s upgradeId in
      if Upgrades.AUTO_PAINTER_maxLevel <=? currentLevel then false
      else affords s (getUpgradePrice s upgradeId)
  else
    match Upgrades.UPGRADES_get upgradeId with
    | None => false
    | Some upgrade =>
        let currentLevel := GameState.getUpgradeLevel s upgradeId in
        if Upgrades.maxLevel upgrade <=? currentLevel then false
        else if negb (Upgrades.canPurchaseUpgrade upgradeId (ownedUpgrades s))
        then false
        else affords s (getUpgradePrice s upgradeId)
    end.

(** [this.gameState.spendMoney(price)] for a price that may be
    [Infinity]. *)
Definition spend (s : GameState.t) (price : Upgrades.Cost) : GameState.t :=
  match price with
  | Upgrades.Finite n => (GameState.spendMoney s n).1
  | Upgrades.Infinity => s
  end.

(** [buyUpgrade(upgradeId)] *)
Definition buyUpgrade (s : GameState.t) (upgradeId : string)
  : GameState.t * Result :=
  if negb (canBuyUpgrade s upgradeId)
  then (s, Failure "Cannot afford, max level reached, or requirements not met")
  else
    let price := getUpgradePrice s upgradeId in
    let s1 := spend s price in
    let s2 := (GameState.purchaseUpgrade s1 upgradeId).1 in
    (s2, BoughtUpgrade upgradeId price).

End ShopSystem.

(** ** Vocabulary of the statements *)

(** The grid after an operation, its returned value, and whether it emitted
    anything. *)
Definition grid_of {R : Type} (r : Grid.t * R * list Grid.Event) : Grid.t := r.1.1.
Definition result_of {R : Type} (r : Grid.t * R * list Grid.Event) : R := r.1.2.
Definition events_of {R : Type} (r : Grid.t * R * list Grid.Event)
  : list Grid.Event := r.2.

(** [n] calls of [undo()] in a row. *)
Definition undo_times (n : nat) (g : Grid.t) : Grid.t :=
  Nat.iter n (λ g', grid_of (Grid.undo g')) g.

(** The operations of a grid that edit it in place. *)
Inductive GridOp : Type :=
  | OpExpand (newWidth newHeight : Z)
  | OpSetCell (x y : Z) (c : color) (recordHistory : bool)
  | OpSetCells (changes : list (Z * Z * color)) (recordHistory : bool)
  | OpUndo
  | OpClear.

Definition run_op (g : Grid.t) (op : GridOp) : Grid.t :=
  match op with
  | OpExpand w h => grid_of (Grid.expand g w h)
  | OpSetCell x y c r => grid_of (Grid.setCell g x y c r)
  | OpSetCells l r => grid_of (Grid.setCells g l r)
  | OpUndo => grid_of (Grid.undo g)
  | OpClear => (Grid.clear g).1
  end.

(** Every key of the sparse store is the key of a coordinate inside the
    grid. *)
Definition stored_in_bounds (g : Grid.t) : Prop :=
  ∀ k c, Grid.cells g !! k = Some c →
         ∃ x y, k = Grid._key x y ∧ 0 ≤ x < Grid.width g ∧ 0 ≤ y < Grid.height g.

(** Every history entry is about a coordinate inside the grid. *)
Definition history_in_bounds (g : Grid.t) : Prop :=
  Forall (λ e, 0 ≤ Grid.e_x e < Grid.width g ∧ 0 ≤ Grid.e_y e < Grid.height g)
         (Grid.history g).

(** No comma occurs in a string. *)
Fixpoint comma_free (s : string) : bool :=
  match s with
  | EmptyString => true
  | String a s' => negb (bool_decide (a = ","%char)) && comma_free s'
  end.

(** The grid shows the pattern: at every coordinate of the grid, the cell is
    empty where the pattern is empty (or has no entry) and holds the
    pattern's colour elsewhere. *)
Definition grid_matches (g : Grid.t) (p : list (list color)) : Prop :=
  ∀ x y, 0 ≤ x < Grid.width g → 0 ≤ y < Grid.height g →
         Grid.getCell g x y = GameState.nullish (GameState.pattern_at p x y).

(** The cell at [(x, y)] is one the auto-painter of [colorId] has to paint:
    the pattern asks for [colorId] there and the grid holds something
    else. *)
Definition needs_paint (g : Grid.t) (p : list (list color)) (colorId : color)
    (x y : Z) : Prop :=
  GameState.pattern_at p x y = Some colorId ∧ Grid.getCell g x y ≠ colorId.

(** [(x', y')] comes before [(x, y)] in row-major order. *)
Definition row_major_before (x' y' x y : Z) : Prop :=
  y' < y ∨ (y' = y ∧ x' < x).

(** The state in which the listener of ['cellChanged'] starts: the grid
    after the edit, before the statistics, the forwarded event and the
    completion check. *)
Definition after_edit (s : GameState.t) (g : Grid.t) : GameState.t :=
  GameState.set_grid s g.

(** The base cost and the multiplier that price an upgrade id: those of
    [AUTO_PAINTER_CONFIG] for an auto-painter, those of the catalog entry
    otherwise; [None] for an id that is no upgrade. *)
Definition pricing (upgradeId : string) : option (Z * Q) :=
  if Upgrades.isAutoPainterUpgrade upgradeId then
    Some (Upgrades.AUTO_PAINTER_baseCost, Upgrades.AUTO_PAINTER_costMultiplier)
  else
    (λ u, (Upgrades.baseCost u, Upgrades.costMultiplier u))
      <$> Upgrades.UPGRADES_get upgradeId.

(** A call on a grid: an editing operation, or [deserialize(data)]. *)
Inductive GridCall : Type :=
  | CallEdit (op : GridOp)
  | CallDeserialize (data : Grid.Data).

Definition run_call (g : Grid.t) (call : GridCall) : Grid.t :=
  match call with
  | CallEdit op => run_op g op
  | CallDeserialize data => (Grid.deserialize g data).1
  end.

(** Every key of the sparse store is the key of an integer coordinate. *)
Definition keys_of_coordinates (m : gmap string string) : Prop :=
  ∀ k c, m !! k = Some c → ∃ x y, k = Grid._key x y.

(** [setCell] on each change of a batch in turn: the grid at the end and the
    number of calls that returned [true]. *)
Definition setCell_each (recordHistory : bool) (g : Grid.t)
    (changes : list (Z * Z * color)) : Grid.t * nat :=
  foldl (λ (st : Grid.t * nat) (ch : Z * Z * color),
           let r := Grid.setCell st.1 ch.1.1 ch.1.2 ch.2 recordHistory in
           (grid_of r, if result_of r then S st.2 else st.2))
        (g, 0%nat) changes.

(** The state of the loop of [setCells] against the state after the same
    calls of [setCell]: the same cells, the history not yet trimmed. *)
Definition batch_matches (st : Grid.t * list Grid.Change) (st' : Grid.t * nat)
  : Prop :=
  Grid.width st.1 = Grid.width st'.1 ∧ Grid.height st.1 = Grid.height st'.1 ∧
  Grid.cells st.1 = Grid.cells st'.1 ∧
  Grid.history st'.1
  = drop (length (Grid.history st.1) - Grid.maxHistory) (Grid.history st.1) ∧
  length st.2 = st'.2.

(** The calls that change a game in play: the methods of [GameState] that
    change it, other than [deserialize] (a load is a step of a [Session],
    below), the calls on its grid ([setCell], [setCells], [undo], [clear]),
    the purchases of the shop and the paint attempt of an auto-painter (a
    [tick] is a sequence of them). Accepting a contract is
    [setActiveContract] on the generated contract, abandoning one is
    [clearContract]. *)
Inductive GameCall : Type :=
  | CallAddMoney (amount : Z)
  | CallSpendMoney (amount : Z)
  | CallUnlockColor (colorId : string)
  | CallSelectColor (colorId : string)
  | CallPurchaseUpgrade (upgradeId : string)
  | CallSetAutomationEnabled (upgradeId : string) (enabled : bool)
  | CallSetCell (x y : Z) (c : color) (recordHistory : bool)
  | CallUndo
  | CallExpandGrid (newWidth newHeight : Z)
  | CallSetActiveContract (contract : GameState.Contract)
  | CallClearContract
  | CallCompleteActiveContract
  | CallBuyGridExpansion
  | CallBuyColor (colorId : string)
  | CallBuyUpgrade (upgradeId : string)
  | CallPaintNextCell (colorId : color)
  | CallSetCells (changes : list (Z * Z * color)) (recordHistory : bool)
  | CallClear
  | CallCheckContractCompletion.

Definition run_game (s : GameState.t) (call : GameCall) : GameState.t :=
  match call with
  | CallAddMoney a => (GameState.addMoney s a).1
  | CallSpendMoney a => (GameState.spendMoney s a).1
  | CallUnlockColor c => (GameState.unlockColor s c).1
  | CallSelectColor c => (GameState.selectColor s c).1
  | CallPurchaseUpgrade id => (GameState.purchaseUpgrade s id).1
  | CallSetAutomationEnabled id b => (GameState.setAutomationEnabled s id b).1
  | CallSetCell x y c r => (GameState.grid_setCell s x y c r).1
  | CallUndo => (GameState.grid_undo s).1
  | CallExpandGrid w h => (GameState.expandGrid s w h).1
  | CallSetActiveContract c => GameState.setActiveContract s c
  | CallClearContract => GameState.clearContract s
  | CallCompleteActiveContract => (GameState.completeActiveContract s).1
  | CallBuyGridExpansion => (ShopSystem.buyGridExpansion s).1
  | CallBuyColor c => (ShopSystem.buyColor s c).1
  | CallBuyUpgrade id => (ShopSystem.buyUpgrade s id).1
  | CallPaintNextCell c => (AutoPainterSystem.paintNextCell s c).1
  | CallSetCells l r => (GameState.grid_setCells s l r).1
  | CallClear => GameState.grid_clear s
  | CallCheckContractCompletion => GameState.checkContractCompletion s
  end.

(** A game from its start: the fresh state, a call on the game so far, or
    the load of a save into the game so far. The save is the document that
    a game, itself played from its start, wrote with [serialize]:
    [SaveManager.save] stores that document and [SaveManager.load] hands it
    to [deserialize]. A document from elsewhere is no step of a session:
    [deserialize] installs what it is given. *)
Inductive Session : Type :=
  | Fresh
  | Then (before : Session) (call : GameCall)
  | Load (before saved : Session).

(** The state a session ends in. A session can always be saved
    ([play_serialize]), so the second case of a load does not arise. *)
Fixpoint play (p : Session) : GameState.t :=
  match p with
  | Fresh => GameState.new
  | Then before call => run_game (play before) call
  | Load before saved =>
      match GameState.serialize (play saved) with
      | Some d => (GameState.deserialize (play before) (Some d)).1
      | None => play before
      end
  end.

(** The fields of the progression that no grid edit, event or contract
    change touches by itself. *)
Record Progression : Type := mkProgression {
  p_gridLevel : Z;
  p_money : Z;
  p_unlockedColors : gset string;
  p_selectedColor : string;
  p_upgrades : gmap string Z;
  p_completedContracts : Z;
  p_totalMoneyEarned : Z;
  p_totalContractsCompleted : Z
}.

Definition progression (s : GameState.t) : Progression :=
  {| p_gridLevel := GameState.gridLevel s;
     p_money := GameState.money s;
     p_unlockedColors := GameState.unlockedColors s;
     p_selectedColor := GameState.selectedColor s;
     p_upgrades := GameState.upgrades s;
     p_completedContracts := GameState.completedContracts s;
     p_totalMoneyEarned := GameState.totalMoneyEarned (GameState.stats s);
     p_totalContractsCompleted :=
       GameState.totalContractsCompleted (GameState.stats s) |}.

(** What every game in play satisfies. *)
Definition game_invariant (p : Progression) : Prop :=
  0 ≤ p_money p ≤ p_totalMoneyEarned p ∧
  "black" ∈ p_unlockedColors p ∧ "white" ∈ p_unlockedColors p ∧
  p_selectedColor p ∈ p_unlockedColors p ∧
  p_completedContracts p = p_totalContractsCompleted p ∧
  0 ≤ p_completedContracts p ∧
  1 ≤ p_gridLevel p ∧
  (∀ id lvl, p_upgrades p !! id = Some lvl → 1 ≤ lvl).

(** The grid [g'] comes from the grid [g] by editing operations. *)
Definition grid_steps (g g' : Grid.t) : Prop :=
  ∃ ops, g' = foldl run_op g ops.

(** The requirements of [r1] are among those of [r2]. *)
Definition rank_le (r1 r2 : Ranks.Rank) : bool :=
  (Ranks.contractsRequired r1 <=? Ranks.contractsRequired r2)
  && (Ranks.minGridSize r1 <=? Ranks.minGridSize r2)
  && forallb (λ c, bool_decide (c ∈ Ranks.requiredColors r2))
             (Ranks.requiredColors r1).

(** The grid is the square of the expansion tier the game is at. *)
Definition grid_in_step (s : GameState.t) : Prop :=
  ∃ e, e ∈ Upgrades.GRID_EXPANSIONS ∧
       Upgrades.e_level e = GameState.gridLevel s ∧
       Grid.width (GameState.grid s) = Upgrades.e_size e ∧
       Grid.height (GameState.grid s) = Upgrades.e_size e.

(** The level at which the shop stops selling an upgrade id: that of
    [AUTO_PAINTER_CONFIG] for an auto-painter, that of the catalog entry
    otherwise; [None] for an id that is no upgrade. *)
Definition level_cap (upgradeId : string) : option Z :=
  if Upgrades.isAutoPainterUpgrade upgradeId
  then Some Upgrades.AUTO_PAINTER_maxLevel
  else Upgrades.maxLevel <$> Upgrades.UPGRADES_get upgradeId.

(** The non-empty cells of a row, counted on top of [count]: the inner loop
    of [countPatternCells]. *)
Definition count_row (count : Z) (row : list color) : Z :=
  foldl (λ count (cell : color), if decide (cell ≠ None) then count + 1 else count)
        count row.

(** The pattern lies inside the grid: it has no more rows than the grid, and
    no row is longer than the grid is wide. *)
Definition pattern_fits (g : Grid.t) (p : list (list color)) : Prop :=
  Z.of_nat (length p) ≤ Grid.height g ∧
  Forall (λ row : list color, Z.of_nat (length row) ≤ Grid.width g) p.

(** ** Facts about the JavaScript values *)

Lemma or_null_Some (v : option string) (s : string) :
  or_null v = Some s → v = Some s ∧ s ≠ "".
Proof.
  destruct v as [s'|]; simpl; [|done].
  case_decide; [done|]. intros [= ->]. done.
Qed.

Lemma or_null_idem (v : option string) : or_null (or_null v) = or_null v.
Proof.
  destruct v as [s|]; simpl; [|done].
  case_decide; simpl; [done|]. by rewrite decide_False.
Qed.

(** ** The keys of the sparse store *)

Lemma comma_free_app (s1 s2 : string) :
  comma_free (s1 +:+ s2) = comma_free s1 && comma_free s2.
Proof.
  induction s1 as [|a s1 IH]; simpl; [done|].
  rewrite IH. by rewrite andb_assoc.
Qed.

Lemma comma_free_pretty_N_go (x : N) (s : string) :
  comma_free s = true → comma_free (pretty_N_go x s) = true.
Proof.
  revert s. induction (N.lt_wf_0 x) as [x _ IH]; intros s Hs.
  destruct (decide (x = 0)%N) as [->|Hx].
  - by rewrite pretty_N_go_0.
  - rewrite pretty_N_go_step by lia.
    apply IH; [apply N.div_lt; lia|].
    simpl. rewrite Hs, andb_true_r.
    unfold pretty_N_char. by repeat case_match.
Qed.

Lemma comma_free_pretty_N (x : N) : comma_free (pretty x) = true.
Proof.
  unfold pretty, pretty_N. case_decide; [done|].
  by apply comma_free_pretty_N_go.
Qed.

Lemma comma_free_pretty_Z (z : Z) : comma_free (pretty z) = true.
Proof.
  destruct z as [|p|p]; unfold pretty, pretty_Z; [done|..].
  - apply comma_free_pretty_N.
  - rewrite comma_free_app. simpl. apply comma_free_pretty_N.
Qed.

Lemma comma_split_inj (a b c d : string) :
  comma_free a = true → comma_free c = true →
  a +:+ "," +:+ b = c +:+ "," +:+ d → a = c ∧ b = d.
Proof.
  revert c. induction a as [|x a IH]; intros [|y c] Ha Hc Heq; simpl in *.
  - by injection Heq.
  - injection Heq as <- _. by rewrite bool_decide_eq_true_2 in Hc.
  - injection Heq as -> _. by rewrite bool_decide_eq_true_2 in Ha.
  - injection Heq as -> Heq.
    apply andb_prop in Ha as [_ Ha]. apply andb_prop in Hc as [_ Hc].
    destruct (IH c Ha Hc Heq) as [-> ->]. done.
Qed.

(** The string key determines the coordinate. *)
Lemma key_inj (x y x' y' : Z) :
  Grid._key x y = Grid._key x' y' → x = x' ∧ y = y'.
Proof.
  unfold Grid._key. intros Heq.
  apply comma_split_inj in Heq as [Hx Hy]; try apply comma_free_pretty_Z.
  split; by apply (inj pretty).
Qed.

(** ** Grid: cells, history, undo *)

Section GridFacts.

Implicit Types (g : Grid.t) (x y : Z) (c : color) (m : gmap string string).

Lemma isValid_true g x y :
  Grid.isValid g x y = true ↔ 0 ≤ x < Grid.width g ∧ 0 ≤ y < Grid.height g.
Proof. unfold Grid.isValid. rewrite !andb_true_iff. lia. Qed.

Lemma store_lookup_eq k c m : or_null (Grid.store k c m !! k) = or_null c.
Proof.
  destruct c as [s|]; simpl.
  - by rewrite lookup_insert_eq.
  - by rewrite lookup_delete_eq.
Qed.

Lemma store_lookup_ne k k' c m : k ≠ k' → Grid.store k c m !! k' = m !! k'.
Proof.
  intros Hne. destruct c as [s|]; simpl.
  - by rewrite lookup_insert_ne.
  - by rewrite lookup_delete_ne.
Qed.

(** [getCell] reads the dimensions and one key of the store. *)
Lemma getCell_ext g g' x y :
  Grid.width g = Grid.width g' → Grid.height g = Grid.height g' →
  (Grid.isValid g' x y = true →
   or_null (Grid.cells g !! Grid._key x y)
   = or_null (Grid.cells g' !! Grid._key x y)) →
  Grid.getCell g x y = Grid.getCell g' x y.
Proof.
  intros Hw Hh Hc. unfold Grid.getCell.
  assert (Grid.isValid g x y = Grid.isValid g' x y) as ->.
  { unfold Grid.isValid. by rewrite Hw, Hh. }
  destruct (Grid.isValid g' x y); simpl; auto.
Qed.

(** The entry just pushed is the newest one, also after the eviction. *)
Lemma last_push_history (h : list Grid.Edit) (e : Grid.Edit) :
  last (Grid.push_history h e) = Some e.
Proof.
  unfold Grid.push_history. case_decide as Hlen.
  - destruct h as [|e0 h]; simpl in *.
    + unfold Grid.maxHistory in Hlen. lia.
    + apply last_snoc.
  - apply last_snoc.
Qed.

Lemma expand_never_shrinks_aux g (newWidth newHeight : Z) :
  Grid.width g ≤ Grid.width (grid_of (Grid.expand g newWidth newHeight)) ∧
  Grid.height g ≤ Grid.height (grid_of (Grid.expand g newWidth newHeight)).
Proof.
  unfold Grid.expand, grid_of.
  destruct (newWidth <? Grid.width g) eqn:Hw;
    destruct (newHeight <? Grid.height g) eqn:Hh; simpl; lia.
Qed.

(** What [setCell] does on a valid coordinate whose colour changes. *)
Lemma setCell_changed g x y c :
  Grid.isValid g x y = true → c ≠ Grid.getCell g x y →
  Grid.setCell g x y c true =
    (Grid.mk (Grid.width g) (Grid.height g)
       (Grid.store (Grid._key x y) c (Grid.cells g))
       (Grid.push_history (Grid.history g)
          (Grid.mkEdit x y (Grid.getCell g x y) c)),
     true,
     [Grid.cellChanged (Grid.mkChange x y c (Some (Grid.getCell g x y)))]).
Proof.
  intros Hv Hc. unfold Grid.setCell, Grid.getCell in *. rewrite Hv in *.
  simpl in *. by rewrite decide_False by congruence.
Qed.

Lemma undo_last g (e : Grid.Edit) :
  last (Grid.history g) = Some e →
  Grid.undo g =
    (Grid.mk (Grid.width g) (Grid.height g)
       (Grid.store (Grid._key (Grid.e_x e) (Grid.e_y e)) (Grid.oldColor e)
          (Grid.cells g))
       (removelast (Grid.history g)),
     true,
     [Grid.cellChanged
        (Grid.mkChange (Grid.e_x e) (Grid.e_y e) (Grid.oldColor e) None)]).
Proof. intros He. unfold Grid.undo. by rewrite He. Qed.

Lemma undo_empty g : Grid.history g = [] → Grid.undo g = (g, false, []).
Proof. intros He. unfold Grid.undo. by rewrite He. Qed.

Lemma undo_history g :
  Grid.history (grid_of (Grid.undo g)) = removelast (Grid.history g).
Proof.
  unfold Grid.undo. destruct (last (Grid.history g)) as [e|] eqn:He; [done|].
  apply last_None in He. by rewrite He.
Qed.

Lemma undo_times_history (n : nat) g :
  length (Grid.history (undo_times n g)) = (length (Grid.history g) - n)%nat.
Proof.
  induction n as [|n IH]; simpl; [lia|].
  fold (undo_times n g). rewrite undo_history.
  destruct (Grid.history (undo_times n g)) as [|e h] eqn:Hh using rev_ind.
  - simpl in *. lia.
  - rewrite removelast_last. rewrite length_app in IH. simpl in IH. lia.
Qed.

End GridFacts.

(** C2. On a valid coordinate and for a colour other than the stored one,
    [setCell(x, y, c)] reports a change and the [undo()] that follows returns
    [true] and gives every cell, the edited one included, the colour it had
    before the [setCell]; [undo()] on an empty history returns [false],
    changes nothing and emits nothing, which is the case after as many
    [undo()] calls as the history has entries. *)
Theorem undo_inverts_setCell (g : Grid.t) (x y : Z) (c : color) :
  (Grid.isValid g x y = true → c ≠ Grid.getCell g x y →
   let r1 := Grid.setCell g x y c true in
   let r2 := Grid.undo (grid_of r1) in
   result_of r1 = true ∧ result_of r2 = true ∧
   Grid.getCell (grid_of r2) x y = Grid.getCell g x y ∧
   (∀ x' y', Grid.getCell (grid_of r2) x' y' = Grid.getCell g x' y') ∧
   Grid.width (grid_of r2) = Grid.width g ∧
   Grid.height (grid_of r2) = Grid.height g) ∧
  (Grid.history g = [] → Grid.undo g = (g, false, [])) ∧
  (let g' := undo_times (length (Grid.history g)) g in
   Grid.history g' = [] ∧ Grid.undo g' = (g', false, [])).
Proof.
  split; [|split].
  - intros Hv Hc r1 r2. subst r1 r2.
    rewrite (setCell_changed g x y c Hv Hc). unfold grid_of, result_of. simpl.
    erewrite undo_last; [|simpl; apply last_push_history]. simpl.
    assert (∀ x' y', Grid.getCell
              (Grid.mk (Grid.width g) (Grid.height g)
                 (Grid.store (Grid._key x y) (Grid.getCell g x y)
                    (Grid.store (Grid._key x y) c (Grid.cells g)))
                 (removelast
                    (Grid.push_history (Grid.history g)
                       (Grid.mkEdit x y (Grid.getCell g x y) c)))) x' y'
            = Grid.getCell g x' y') as Hall.
    { intros x' y'. apply getCell_ext; [done..|]. simpl. intros _.
      destruct (decide (Grid._key x y = Grid._key x' y')) as [Hk|Hk].
      - rewrite <-Hk. rewrite store_lookup_eq.
        unfold Grid.getCell. rewrite Hv. simpl. apply or_null_idem.
      - by rewrite !store_lookup_ne. }
    repeat split; auto.
  - apply undo_empty.
  - simpl.
    assert (Grid.history (undo_times (length (Grid.history g)) g) = []) as He.
    { apply length_zero_iff_nil. rewrite undo_times_history. lia. }
    split; [done|]. by apply undo_empty.
Qed.

Lemma undo_inverts_setCell_witness :
  let g := grid_of (Grid.setCell (Grid.new 4 4) 1 2 (Some "red") true) in
  let r2 := Grid.undo (grid_of (Grid.setCell g 1 2 (Some "blue") true)) in
  (result_of r2 = true ∧ Grid.getCell (grid_of r2) 1 2 = Some "red") ∧
  Grid.undo (Grid.new 4 4) = (Grid.new 4 4, false, []).
Proof.
  intros g r2. split.
  - destruct (undo_inverts_setCell g 1 2 (Some "blue")) as (H & _ & _).
    destruct H as (_ & H2 & H3 & _);
      [vm_compute; reflexivity | vm_compute; discriminate |].
    split; [exact H2 | etrans; [exact H3 | vm_compute; reflexivity]].
  - destruct (undo_inverts_setCell (Grid.new 4 4) 0 0 None) as (_ & H & _).
    apply H. reflexivity.
Defined.

(** C3. [expand(newWidth, newHeight)] returns [false], emits nothing and
    leaves the grid as it is when [newWidth < width] or
    [newHeight < height]; so neither dimension decreases through [expand];
    in every other case it returns [true], and a call that returns [true]
    has set both dimensions to the requested ones and emptied the
    history. *)
Theorem expand_never_shrinks (g : Grid.t) (newWidth newHeight : Z) :
  let r := Grid.expand g newWidth newHeight in
  (newWidth < Grid.width g ∨ newHeight < Grid.height g →
   r = (g, false, [])) ∧
  (Grid.width g ≤ Grid.width (grid_of r) ∧
   Grid.height g ≤ Grid.height (grid_of r)) ∧
  (¬ (newWidth < Grid.width g ∨ newHeight < Grid.height g) →
   result_of r = true) ∧
  (result_of r = true →
   Grid.width (grid_of r) = newWidth ∧ Grid.height (grid_of r) = newHeight ∧
   Grid.history (grid_of r) = [] ∧ Grid.cells (grid_of r) = Grid.cells g).
Proof.
  unfold Grid.expand, grid_of, result_of.
  destruct (newWidth <? Grid.width g) eqn:Hw;
    destruct (newHeight <? Grid.height g) eqn:Hh; simpl;
    repeat split; intros; try done; try lia.
Qed.

Lemma expand_never_shrinks_witness :
  let g := grid_of (Grid.setCell (Grid.new 4 4) 1 2 (Some "red") true) in
  Grid.expand g 3 6 = (g, false, []) ∧
  (result_of (Grid.expand g 6 6) = true ∧
   Grid.width (grid_of (Grid.expand g 6 6)) = 6 ∧
   Grid.history (grid_of (Grid.expand g 6 6)) = []).
Proof.
  intros g. split.
  - destruct (expand_never_shrinks g 3 6) as (H & _).
    apply H. left. vm_compute. reflexivity.
  - destruct (expand_never_shrinks g 6 6) as (_ & _ & H1 & H2).
    assert (result_of (Grid.expand g 6 6) = true) as Hr.
    { apply H1. vm_compute. intros [H|H]; discriminate H. }
    destruct (H2 Hr) as (Hw & _ & Hh & _). auto.
Defined.

(** C5, as the code has it. After [clear()] the grid has no stored cells.
    When it had at least one before the call, the history is emptied as
    well, a following [undo()] returns [false], and ['gridCleared'] is
    emitted once. When it had none, [clear()] emits nothing and changes
    nothing: the history stays as it was. *)
Theorem clear_spec (g : Grid.t) :
  let r := Grid.clear g in
  Grid.cells r.1 = ∅ ∧
  Grid.width r.1 = Grid.width g ∧ Grid.height r.1 = Grid.height g ∧
  (Grid.cells g ≠ ∅ →
   Grid.history r.1 = [] ∧ Grid.undo r.1 = (r.1, false, []) ∧
   r.2 = [Grid.gridCleared]) ∧
  (Grid.cells g = ∅ → r = (g, [])).
Proof.
  unfold Grid.clear. case_decide as Hsz; simpl.
  - apply map_size_empty_iff in Hsz. repeat split; auto; by intros.
  - rewrite map_size_empty_iff in Hsz. repeat split; auto; by intros.
Qed.

Lemma clear_spec_witness :
  let g := grid_of (Grid.setCell (Grid.new 4 4) 1 2 (Some "red") true) in
  (Grid.history (Grid.clear g).1 = [] ∧
   (Grid.clear g).2 = [Grid.gridCleared]) ∧
  Grid.clear (Grid.new 4 4) = (Grid.new 4 4, []).
Proof.
  intros g. split.
  - destruct (clear_spec g) as (_ & _ & _ & H & _).
    destruct H as (H1 & _ & H2); [vm_compute; discriminate | auto].
  - destruct (clear_spec (Grid.new 4 4)) as (_ & _ & _ & _ & H).
    apply H. reflexivity.
Defined.

(** C5 as stated fails: painting a cell and erasing it again leaves an empty
    store with two history entries; [clear()] then returns at once, the
    history survives, and the [undo()] that follows returns [true]. *)
Lemma clear_keeps_history_counterexample :
  let g1 := grid_of (Grid.setCell (Grid.new 4 4) 0 0 (Some "black") true) in
  let g2 := grid_of (Grid.setCell g1 0 0 None true) in
  let g3 := (Grid.clear g2).1 in
  Grid.cells g2 = ∅ ∧
  ¬ (Grid.history g3 = [] ∧ result_of (Grid.undo g3) = false).
Proof.
  vm_compute. split; [reflexivity|]. intros [H _]. discriminate H.
Qed.

(** ** Grid: the bounds invariant *)

Section GridInvariant.

Implicit Types (g : Grid.t) (x y : Z) (c : color) (m : gmap string string).

Lemma store_lookup_Some k k' c m v :
  Grid.store k c m !! k' = Some v → k' = k ∨ m !! k' = Some v.
Proof.
  destruct (decide (k = k')) as [->|Hne]; [by left|].
  rewrite store_lookup_ne by done. by right.
Qed.

(** Writing at a coordinate inside the grid keeps the store in bounds. *)
Lemma stored_in_bounds_store g x y c (h : list Grid.Edit) :
  Grid.isValid g x y = true → stored_in_bounds g →
  stored_in_bounds
    (Grid.mk (Grid.width g) (Grid.height g)
       (Grid.store (Grid._key x y) c (Grid.cells g)) h).
Proof.
  intros Hv Hg k v Hk. simpl in *.
  apply store_lookup_Some in Hk as [->|Hk].
  - exists x, y. split; [done|]. by apply isValid_true.
  - exact (Hg k v Hk).
Qed.

Lemma history_in_bounds_push g x y c c' m :
  Grid.isValid g x y = true → history_in_bounds g →
  history_in_bounds
    (Grid.mk (Grid.width g) (Grid.height g) m
       (Grid.push_history (Grid.history g) (Grid.mkEdit x y c c'))).
Proof.
  unfold history_in_bounds. simpl. intros Hv%isValid_true Hg.
  assert (Forall (λ e, 0 ≤ Grid.e_x e < Grid.width g
                       ∧ 0 ≤ Grid.e_y e < Grid.height g)
            (Grid.history g ++ [Grid.mkEdit x y c c'])) as Hall.
  { apply Forall_app. split; [done|]. by apply Forall_singleton. }
  unfold Grid.push_history. case_decide; [|done].
  destruct (Grid.history g ++ [Grid.mkEdit x y c c']) as [|e l]; [done|].
  simpl. by apply Forall_cons_1 in Hall as [_ Hall].
Qed.

Lemma setCell_dims g x y c (r : bool) :
  Grid.width (grid_of (Grid.setCell g x y c r)) = Grid.width g ∧
  Grid.height (grid_of (Grid.setCell g x y c r)) = Grid.height g.
Proof.
  unfold Grid.setCell, grid_of.
  destruct (Grid.isValid g x y); simpl; [|done]. by case_decide.
Qed.

Lemma setCell_wf g x y c (r : bool) :
  stored_in_bounds g → history_in_bounds g →
  stored_in_bounds (grid_of (Grid.setCell g x y c r)) ∧
  history_in_bounds (grid_of (Grid.setCell g x y c r)).
Proof.
  intros Hs Hh. unfold Grid.setCell, grid_of.
  destruct (Grid.isValid g x y) eqn:Hv; simpl; [|done].
  case_decide; simpl; [done|]. split.
  - by apply stored_in_bounds_store.
  - destruct r; [by apply history_in_bounds_push|done].
Qed.

Lemma setCells_step_wf (r : bool) (st : Grid.t * list Grid.Change)
    (ch : Z * Z * color) :
  stored_in_bounds st.1 → history_in_bounds st.1 →
  let st' := Grid.setCells_step r st ch in
  stored_in_bounds st'.1 ∧ history_in_bounds st'.1 ∧
  Grid.width st'.1 = Grid.width st.1 ∧ Grid.height st'.1 = Grid.height st.1.
Proof.
  destruct st as [g acc], ch as [[x y] c]. simpl. intros Hs Hh.
  destruct (Grid.isValid g x y) eqn:Hv; simpl; [|done].
  case_decide; simpl; [done|]. repeat split.
  - by apply stored_in_bounds_store.
  - unfold history_in_bounds in *. simpl. destruct r; [|done].
    apply Forall_app. split; [done|]. apply Forall_singleton. simpl.
    by apply isValid_true.
Qed.

Lemma setCells_loop_wf (r : bool) (changes : list (Z * Z * color))
    (st : Grid.t * list Grid.Change) :
  stored_in_bounds st.1 → history_in_bounds st.1 →
  let st' := foldl (Grid.setCells_step r) st changes in
  stored_in_bounds st'.1 ∧ history_in_bounds st'.1 ∧
  Grid.width st'.1 = Grid.width st.1 ∧ Grid.height st'.1 = Grid.height st.1.
Proof.
  revert st. induction changes as [|ch changes IH]; intros st Hs Hh; simpl.
  - done.
  - destruct (setCells_step_wf r st ch Hs Hh) as (Hs' & Hh' & Hw & Hht).
    destruct (IH _ Hs' Hh') as (? & ? & Hw' & Hht').
    repeat split; [done|done|congruence|congruence].
Qed.

Lemma setCells_wf g (changes : list (Z * Z * color)) (r : bool) :
  stored_in_bounds g → history_in_bounds g →
  let g' := grid_of (Grid.setCells g changes r) in
  stored_in_bounds g' ∧ history_in_bounds g' ∧
  Grid.width g' = Grid.width g ∧ Grid.height g' = Grid.height g.
Proof.
  intros Hs Hh. unfold Grid.setCells, grid_of.
  pose proof (setCells_loop_wf r changes (g, []) Hs Hh) as Hloop.
  destruct (foldl (Grid.setCells_step r) (g, []) changes) as [g1 acc].
  simpl in *. destruct Hloop as (Hs1 & Hh1 & Hw & Hht).
  case_decide; simpl; [|done].
  repeat split; [done| |done|done].
  unfold history_in_bounds in *. simpl. by apply Forall_drop.
Qed.

Lemma undo_wf g :
  stored_in_bounds g → history_in_bounds g →
  let g' := grid_of (Grid.undo g) in
  stored_in_bounds g' ∧ history_in_bounds g' ∧
  Grid.width g' = Grid.width g ∧ Grid.height g' = Grid.height g.
Proof.
  intros Hs Hh. unfold Grid.undo, grid_of.
  destruct (last (Grid.history g)) as [e|] eqn:He; simpl; [|done].
  apply last_Some in He as [h He].
  unfold history_in_bounds in *. rewrite He in Hh |- *. simpl.
  apply Forall_app in Hh as [Hh He']. rewrite Forall_singleton in He'.
  split; [|split; [|done]].
  - apply stored_in_bounds_store; [by apply isValid_true|done].
  - by rewrite removelast_last.
Qed.

Lemma expand_wf g (newWidth newHeight : Z) :
  stored_in_bounds g → history_in_bounds g →
  let g' := grid_of (Grid.expand g newWidth newHeight) in
  stored_in_bounds g' ∧ history_in_bounds g'.
Proof.
  intros Hs Hh. unfold Grid.expand, grid_of.
  destruct (newWidth <? Grid.width g) eqn:Hw;
    destruct (newHeight <? Grid.height g) eqn:Hht; simpl; try done.
  split; [|by apply Forall_nil].
  intros k v Hk. simpl in *. destruct (Hs k v Hk) as (x & y & -> & ? & ?).
  exists x, y. split; [done|]. lia.
Qed.

Lemma clear_wf g :
  stored_in_bounds g → history_in_bounds g →
  stored_in_bounds (Grid.clear g).1 ∧ history_in_bounds (Grid.clear g).1.
Proof.
  intros Hs Hh. unfold Grid.clear. case_decide; simpl; [done|].
  split; [|by apply Forall_nil]. intros k v Hk. simpl in Hk.
  by rewrite lookup_empty in Hk.
Qed.

(** Each editing operation keeps both invariants and shrinks nothing. *)
Lemma run_op_wf g (op : GridOp) :
  stored_in_bounds g → history_in_bounds g →
  stored_in_bounds (run_op g op) ∧ history_in_bounds (run_op g op) ∧
  Grid.width g ≤ Grid.width (run_op g op) ∧
  Grid.height g ≤ Grid.height (run_op g op).
Proof.
  intros Hs Hh. destruct op as [w h|x y c r|l r| |]; simpl.
  - destruct (expand_wf g w h Hs Hh) as [? ?].
    destruct (expand_never_shrinks_aux g w h) as [? ?]. done.
  - destruct (setCell_wf g x y c r Hs Hh) as [? ?].
    destruct (setCell_dims g x y c r) as [-> ->]. repeat split; [done..|lia|lia].
  - destruct (setCells_wf g l r Hs Hh) as (? & ? & -> & ->).
    repeat split; [done..|lia|lia].
  - destruct (undo_wf g Hs Hh) as (? & ? & -> & ->).
    repeat split; [done..|lia|lia].
  - destruct (clear_wf g Hs Hh) as [? ?]. repeat split; [done..| |].
    + unfold Grid.clear. case_decide; simpl; lia.
    + unfold Grid.clear. case_decide; simpl; lia.
Qed.

End GridInvariant.

Lemma run_ops_wf (ops : list GridOp) (g : Grid.t) :
  stored_in_bounds g → history_in_bounds g →
  stored_in_bounds (foldl run_op g ops) ∧
  history_in_bounds (foldl run_op g ops) ∧
  Grid.width g ≤ Grid.width (foldl run_op g ops) ∧
  Grid.height g ≤ Grid.height (foldl run_op g ops).
Proof.
  revert g. induction ops as [|op ops IH]; intros g Hs Hh; simpl.
  - repeat split; [done..|lia|lia].
  - destruct (run_op_wf g op Hs Hh) as (Hs' & Hh' & ? & ?).
    destruct (IH _ Hs' Hh') as (? & ? & ? & ?).
    repeat split; [done..|lia|lia].
Qed.

(** C4, as the code has it. In every grid state that the constructor and
    any sequence of [expand], [setCell], [setCells], [undo] and [clear]
    lead to, every stored key is the key of a coordinate with
    [0 ≤ x < width] and [0 ≤ y < height], and none of these operations
    decreases the width or the height. [Grid.deserialize] is outside this
    family: it installs the saved dimensions (4 for a missing or zero one),
    whatever the current ones are, and [GameState.deserialize] ends with
    it. *)
Theorem grid_bounds_invariant (w h : Z) (ops : list GridOp) :
  let g := foldl run_op (Grid.new w h) ops in
  stored_in_bounds g ∧
  (∀ x y c, Grid.cells g !! Grid._key x y = Some c →
            0 ≤ x < Grid.width g ∧ 0 ≤ y < Grid.height g) ∧
  (w ≤ Grid.width g ∧ h ≤ Grid.height g) ∧
  (∀ op, Grid.width g ≤ Grid.width (run_op g op) ∧
         Grid.height g ≤ Grid.height (run_op g op)) ∧
  (∀ d, Grid.width (Grid.deserialize g d).1 = Grid.num_or (Grid.d_width d) 4 ∧
        Grid.height (Grid.deserialize g d).1 = Grid.num_or (Grid.d_height d) 4).
Proof.
  intros g.
  assert (stored_in_bounds (Grid.new w h)) as Hs0.
  { intros k c Hk. simpl in Hk. by rewrite lookup_empty in Hk. }
  assert (history_in_bounds (Grid.new w h)) as Hh0 by constructor.
  destruct (run_ops_wf ops _ Hs0 Hh0) as (Hs & Hh & Hw & Hht).
  fold g in Hs, Hh, Hw, Hht. simpl in Hw, Hht.
  split; [done|]. split; [|split; [done|split]].
  - intros x y c Hc. destruct (Hs _ _ Hc) as (x' & y' & Hk & ? & ?).
    apply key_inj in Hk as [-> ->]. done.
  - intros op. by destruct (run_op_wf g op Hs Hh) as (_ & _ & ? & ?).
  - done.
Qed.

Lemma grid_bounds_invariant_witness :
  let g := foldl run_op (Grid.new 4 4)
             [OpSetCell 1 2 (Some "red") true; OpExpand 6 6;
              OpSetCell 5 5 (Some "black") true; OpUndo] in
  (0 ≤ 1 < Grid.width g ∧ 0 ≤ 2 < Grid.height g) ∧ 4 ≤ Grid.width g.
Proof.
  intros g.
  destruct (grid_bounds_invariant 4 4
              [OpSetCell 1 2 (Some "red") true; OpExpand 6 6;
               OpSetCell 5 5 (Some "black") true; OpUndo])
    as (_ & H & (Hw & _) & _).
  split; [|exact Hw].
  apply (H 1 2 "red"). vm_compute. reflexivity.
Defined.

(** C4 as stated fails on loading: a game on a 6x6 grid that loads the
    document saved by a game on a 4x4 grid (one black cell at (3,3)) ends on
    a 4x4 grid. *)
Lemma deserialize_shrinks_counterexample :
  let s := (GameState.expandGrid GameState.new 6 6).1 in
  let saved :=
    GameState.mkData (JNum 4)
      (Some (Grid.mkData (Some 4) (Some 4)
               (Grid.SparseCells [(3, 3, Some "black")])))
      (Some 1) (Some 0) (Some ["black"; "white"]) (Some "black")
      (Some ∅) (Some ∅) None (Some 0)
      (Some (GameState.mkStats 1 0 0 0)) in
  let r := GameState.deserialize s (Some saved) in
  r.2 = GameState.Returned true ∧
  Grid.width (GameState.grid s) = 6 ∧ Grid.height (GameState.grid s) = 6 ∧
  Grid.width (GameState.grid r.1) = 4 ∧ Grid.height (GameState.grid r.1) = 4 ∧
  ¬ (Grid.width (GameState.grid s) ≤ Grid.width (GameState.grid r.1)) ∧
  ¬ (Grid.height (GameState.grid s) ≤ Grid.height (GameState.grid r.1)).
Proof.
  vm_compute. repeat split; intros H; apply H; reflexivity.
Qed.

(** ** GameState: loading a save *)

(** C6. [deserialize(data)] returns [false] and leaves the whole state —
    grid, gridLevel, money, colours, upgrades, automation flags, contract,
    counters, stats, and the trace of emitted events — as it was when [data]
    is missing or its [version] is not the number 2, 3 or 4. With one of
    these three versions the call goes on to load: it does not return
    [false], and with a [grid] field in the document it returns [true] after
    emitting ['stateLoaded']. *)
Theorem deserialize_rejects_versions (s : GameState.t)
    (data : option GameState.Data) :
  (match data with
   | None => True
   | Some d => GameState.d_version d ≠ JNum 2 ∧ GameState.d_version d ≠ JNum 3
               ∧ GameState.d_version d ≠ JNum 4
   end →
   GameState.deserialize s data = (s, GameState.Returned false)) ∧
  (∀ d, data = Some d →
        GameState.d_version d = JNum 2 ∨ GameState.d_version d = JNum 3
        ∨ GameState.d_version d = JNum 4 →
        (GameState.deserialize s data).2 ≠ GameState.Returned false ∧
        (is_Some (GameState.d_grid d) →
         (GameState.deserialize s data).2 = GameState.Returned true ∧
         last (GameState.emitted (GameState.deserialize s data).1)
         = Some GameState.stateLoaded)).
Proof.
  split.
  - destruct data as [d|]; [|done]. intros (H2 & H3 & H4).
    unfold GameState.deserialize.
    by rewrite !bool_decide_eq_true_2 by done.
  - intros d -> Hv. unfold GameState.deserialize.
    assert (bool_decide (GameState.d_version d ≠ JNum 2)
            && bool_decide (GameState.d_version d ≠ JNum 3)
            && bool_decide (GameState.d_version d ≠ JNum 4) = false) as ->.
    { destruct Hv as [-> | [-> | ->]]; reflexivity. }
    destruct (GameState.d_grid d) as [gd|]; simpl.
    + split; [done|]. intros _. split; [done|]. apply last_snoc.
    + split; [done|]. by intros [? ?].
Qed.

Lemma deserialize_rejects_versions_witness :
  let s := (GameState.addMoney GameState.new 7).1 in
  let doc v :=
    GameState.mkData v (Some (Grid.mkData (Some 6) (Some 6) Grid.NoCells))
      None (Some 100) None None None None None None None in
  GameState.deserialize s (Some (doc (JNum 1))) = (s, GameState.Returned false) ∧
  GameState.deserialize s (Some (doc (JStr "4"))) = (s, GameState.Returned false) ∧
  GameState.deserialize s None = (s, GameState.Returned false) ∧
  (GameState.deserialize s (Some (doc (JNum 3)))).2 = GameState.Returned true.
Proof.
  intros s doc. split; [|split; [|split]].
  - destruct (deserialize_rejects_versions s (Some (doc (JNum 1)))) as [H _].
    apply H. vm_compute. repeat split; discriminate.
  - destruct (deserialize_rejects_versions s (Some (doc (JStr "4")))) as [H _].
    apply H. vm_compute. repeat split; discriminate.
  - destruct (deserialize_rejects_versions s None) as [H _].
    apply H. exact I.
  - destruct (deserialize_rejects_versions s (Some (doc (JNum 3)))) as [_ H].
    destruct (H (doc (JNum 3)) eq_refl) as [_ H'].
    + right. left. reflexivity.
    + destruct H' as [H' _]; [eexists; reflexivity | exact H'].
Defined.

(** ** Ranks: accessibility *)

Lemma all_unlocked_true (cs : list string) (u : gset string) :
  Ranks.all_unlocked cs u = true ↔ ∀ c, c ∈ cs → c ∈ u.
Proof.
  induction cs as [|c cs IH]; simpl.
  - split; [|done]. intros _ c Hc. by apply elem_of_nil in Hc.
  - destruct (bool_decide_reflect (c ∈ u)) as [Hin|Hout]; simpl.
    + rewrite IH. split.
      * intros H c' [->|Hc']%elem_of_cons; auto.
      * intros H c' Hc'. apply H. by right.
    + split; [done|]. intros H. destruct Hout. apply H. by left.
Qed.

(** [canAccessRank] is the conjunction of its three requirements. *)
Lemma canAccessRank_true (rank : Ranks.Rank) (completed size : Z)
    (u : gset string) :
  Ranks.canAccessRank rank completed size u = true ↔
  Ranks.contractsRequired rank ≤ completed ∧ Ranks.minGridSize rank ≤ size
  ∧ ∀ c, c ∈ Ranks.requiredColors rank → c ∈ u.
Proof.
  unfold Ranks.canAccessRank.
  destruct (Z.ltb_spec completed (Ranks.contractsRequired rank));
    [split; [done|lia]|].
  destruct (Z.ltb_spec size (Ranks.minGridSize rank)); [split; [done|lia]|].
  rewrite all_unlocked_true. split; [intros Hall; repeat split; [lia|lia|done]|].
  by intros (_ & _ & Hall).
Qed.

(** C7. A rank that is accessible under one progression snapshot is
    accessible under every snapshot with at least as many completed
    contracts, at least as large a grid size (the smaller grid dimension)
    and a superset of the unlocked colours. *)
Theorem canAccessRank_monotone (rank : Ranks.Rank)
    (completed1 completed2 size1 size2 : Z) (unlocked1 unlocked2 : gset string) :
  completed1 ≤ completed2 → size1 ≤ size2 → unlocked1 ⊆ unlocked2 →
  Ranks.canAccessRank rank completed1 size1 unlocked1 = true →
  Ranks.canAccessRank rank completed2 size2 unlocked2 = true.
Proof.
  intros Hc Hs Hu. rewrite !canAccessRank_true.
  intros (? & ? & Hcol). split; [lia|]. split; [lia|].
  intros c Hin. apply Hu. by apply Hcol.
Qed.

Lemma canAccessRank_monotone_witness :
  Ranks.canAccessRank (Ranks.getRank 4) 30 8 {[ "black"; "white"; "red"; "blue" ]}
  = true.
Proof.
  apply (canAccessRank_monotone (Ranks.getRank 4) 18 30 6 8
           {[ "black"; "white"; "red" ]} {[ "black"; "white"; "red"; "blue" ]}).
  - lia.
  - lia.
  - apply (bool_decide_unpack _). vm_compute. exact I.
  - vm_compute. reflexivity.
Defined.

(** ** GameState: the completion check *)

Section Completion.

Implicit Types (s : GameState.t) (g : Grid.t) (p : list (list color)).

Lemma check_row_fst g p (y : Z) (xs : list Z) (flags : bool * bool) :
  (GameState.check_row g p y xs flags).1 = true ↔
  flags.1 = true ∧
  ∀ x, x ∈ xs →
       Grid.getCell g x y = GameState.nullish (GameState.pattern_at p x y).
Proof.
  revert flags. induction xs as [|x xs IH]; intros flags; simpl.
  - split; [|by intros [? _]]. intros ?. split; [done|].
    intros x Hx. by apply elem_of_nil in Hx.
  - rewrite IH. case_decide as Hne; simpl.
    + split; [by intros [? _]|]. intros [_ Hall]. destruct Hne.
      symmetry. apply Hall. by left.
    + split.
      * intros [? Hall]. split; [done|].
        intros x' [->|Hx']%elem_of_cons; auto.
      * intros [? Hall]. split; [done|]. intros x' Hx'. apply Hall. by right.
Qed.

Lemma check_rows_fst g p (ys : list Z) (flags : bool * bool) :
  (GameState.check_rows g p ys flags).1 = true ↔
  flags.1 = true ∧
  ∀ y, y ∈ ys → ∀ x, x ∈ seqZ 0 (Grid.width g) →
       Grid.getCell g x y = GameState.nullish (GameState.pattern_at p x y).
Proof.
  revert flags. induction ys as [|y ys IH]; intros flags; simpl.
  - split; [|by intros [? _]]. intros ?. split; [done|].
    intros y Hy. by apply elem_of_nil in Hy.
  - pose proof (check_row_fst g p y (seqZ 0 (Grid.width g)) flags) as Hrow.
    destruct (GameState.check_row g p y (seqZ 0 (Grid.width g)) flags)
      as [allMatch anyWrong] eqn:Hcr.
    simpl in *.
    destruct allMatch; simpl.
    + rewrite IH. simpl. destruct Hrow as [Hrow _].
      destruct (Hrow eq_refl) as [Hfl Hy]. split.
      * intros [_ Hall]. split; [done|].
        intros y' [->|Hy']%elem_of_cons; auto.
      * intros [_ Hall]. split; [done|]. intros y' Hy'. apply Hall. by right.
    + assert (¬ (flags.1 = true ∧
                 ∀ x, x ∈ seqZ 0 (Grid.width g) →
                      Grid.getCell g x y
                      = GameState.nullish (GameState.pattern_at p x y)))
        as Hno by (rewrite <-Hrow; done).
      assert (∀ fl : bool * bool,
                fl.1 = false → (GameState.check_rows g p ys fl).1 = false)
        as Hstay.
      { intros fl Hfl. destruct (GameState.check_rows g p ys fl).1 eqn:E; [|done].
        apply IH in E as [E _]. congruence. }
      destruct anyWrong; simpl.
      * split; [done|]. intros [Hfl Hall]. destruct Hno. split; [done|].
        apply Hall. by left.
      * rewrite Hstay by done. split; [done|].
        intros [Hfl Hall]. destruct Hno. split; [done|]. apply Hall. by left.
Qed.

(** The two loops compute [grid_matches]. *)
Lemma check_rows_matches g p :
  (GameState.check_rows g p (seqZ 0 (Grid.height g)) (true, false)).1 = true
  ↔ grid_matches g p.
Proof.
  rewrite check_rows_fst. unfold grid_matches. simpl. split.
  - intros [_ Hall] x y Hx Hy. apply Hall; apply elem_of_seqZ; lia.
  - intros Hall. split; [done|]. intros y Hy%elem_of_seqZ x Hx%elem_of_seqZ.
    apply Hall; lia.
Qed.

Lemma grid_clear_cells s : Grid.cells (GameState.grid (GameState.grid_clear s)) = ∅.
Proof.
  unfold GameState.grid_clear, Grid.clear. case_decide as Hsz; simpl.
  - by apply map_size_empty_iff.
  - done.
Qed.

Lemma grid_clear_fields s :
  let s' := GameState.grid_clear s in
  GameState.money s' = GameState.money s ∧
  GameState.activeContract s' = GameState.activeContract s ∧
  GameState.completedContracts s' = GameState.completedContracts s ∧
  GameState.stats s' = GameState.stats s.
Proof.
  unfold GameState.grid_clear, Grid.clear. by case_decide.
Qed.

(** What [completeActiveContract] leaves behind. *)
Lemma completeActiveContract_spec s (c : GameState.Contract) :
  GameState.activeContract s = Some c → 0 < GameState.reward c →
  let r := GameState.completeActiveContract s in
  r.2 = true ∧
  GameState.money r.1 = GameState.money s + GameState.reward c ∧
  GameState.completedContracts r.1 = GameState.completedContracts s + 1 ∧
  GameState.activeContract r.1 = None ∧
  Grid.cells (GameState.grid r.1) = ∅ ∧
  GameState.totalContractsCompleted (GameState.stats r.1)
  = GameState.totalContractsCompleted (GameState.stats s) + 1 ∧
  last (GameState.emitted r.1) = Some (GameState.contractCompleted c).
Proof.
  intros Hc Hr. unfold GameState.completeActiveContract. rewrite Hc.
  unfold GameState.addMoney.
  destruct (Z.leb_spec (GameState.reward c) 0) as [?|_]; [lia|].
  cbv zeta.
  match goal with
  | |- context [GameState.grid_clear ?s0] =>
      pose proof (grid_clear_cells s0) as Hcells;
      pose proof (grid_clear_fields s0) as (Hm & Ha & Hn & Hst);
      destruct (GameState.grid_clear s0) as [g' gl' m' u' sel' up' au' a' n' st' em']
  end.
  simpl in *. subst. repeat split; [done|]. apply last_snoc.
Qed.

End Completion.

(** C1. In a state with an active contract (whose reward, as for every
    generated contract, is at least 1), the completion check completes the
    contract exactly when the grid shows the pattern at every coordinate of
    the grid. On completion the reward is added to the money,
    [completedContracts] grows by one, the active contract becomes [null],
    the grid has no stored cell left, and ['contractCompleted'] is emitted.
    With a mismatch anywhere — one filled cell where the pattern is empty is
    enough — the check changes nothing and the contract stays active. This
    check is the last step of the listener that runs after a cell
    mutation. *)
Theorem completion_iff_exact_match (s : GameState.t) (c : GameState.Contract) :
  GameState.activeContract s = Some c → 0 < GameState.reward c →
  let s' := GameState.checkContractCompletion s in
  (grid_matches (GameState.grid s) (GameState.pattern c) →
   GameState.money s' = GameState.money s + GameState.reward c ∧
   GameState.completedContracts s' = GameState.completedContracts s + 1 ∧
   GameState.activeContract s' = None ∧
   Grid.cells (GameState.grid s') = ∅ ∧
   last (GameState.emitted s') = Some (GameState.contractCompleted c)) ∧
  (¬ grid_matches (GameState.grid s) (GameState.pattern c) → s' = s) ∧
  (∀ x y, 0 ≤ x < Grid.width (GameState.grid s) →
          0 ≤ y < Grid.height (GameState.grid s) →
          GameState.nullish (GameState.pattern_at (GameState.pattern c) x y)
          = None →
          Grid.getCell (GameState.grid s) x y ≠ None → s' = s) ∧
  (GameState.activeContract s' = None ↔
   grid_matches (GameState.grid s) (GameState.pattern c)) ∧
  (∀ s0 data, GameState.on_grid_event s0 (Grid.cellChanged data)
              = GameState.checkContractCompletion
                  (GameState.emit
                     (GameState.set_stats s0
                        (GameState.mkStats
                           (GameState.totalCellsFilled (GameState.stats s0) + 1)
                           (GameState.totalMoneyEarned (GameState.stats s0))
                           (GameState.totalContractsCompleted (GameState.stats s0))
                           (GameState.playTime (GameState.stats s0))))
                     (GameState.cellChanged data))).
Proof.
  intros Hc Hr s'.
  assert (grid_matches (GameState.grid s) (GameState.pattern c) →
          s' = (GameState.completeActiveContract s).1) as Hyes.
  { intros Hm%check_rows_matches. subst s'.
    unfold GameState.checkContractCompletion. by rewrite Hc, Hm. }
  assert (¬ grid_matches (GameState.grid s) (GameState.pattern c) → s' = s)
    as Hno.
  { intros Hm. subst s'. unfold GameState.checkContractCompletion. rewrite Hc.
    destruct (GameState.check_rows _ _ _ _).1 eqn:E; [|done].
    by apply check_rows_matches in E. }
  destruct (completeActiveContract_spec s c Hc Hr)
    as (_ & Hmoney & Hn & Ha & Hcells & _ & Hev).
  split; [|split; [|split; [|split]]].
  - intros Hm. rewrite (Hyes Hm). done.
  - done.
  - intros x y Hx Hy Hp Hg. apply Hno. intros Hm.
    apply Hg. rewrite (Hm x y Hx Hy). done.
  - split.
    + intros Hnone.
      destruct (GameState.check_rows (GameState.grid s) (GameState.pattern c)
                  (seqZ 0 (Grid.height (GameState.grid s))) (true, false)).1
        eqn:E; [by apply check_rows_matches|].
      assert (¬ grid_matches (GameState.grid s) (GameState.pattern c)) as Hm.
      { intros Hm%check_rows_matches. congruence. }
      rewrite (Hno Hm), Hc in Hnone. done.
    + intros Hm. rewrite (Hyes Hm). done.
  - done.
Qed.

Lemma completion_iff_exact_match_witness :
  let c := GameState.mkContract "contract_1" 1 "Novice"
             [ [Some "black"; None; None; None]; [None; None; None; None];
               [None; None; None; None]; [None; None; None; None] ] 5 1 0 in
  let g1 := grid_of (Grid.setCell (Grid.new 4 4) 0 0 (Some "black") true) in
  let g2 := grid_of (Grid.setCell g1 1 1 (Some "white") true) in
  let s1 := after_edit (GameState.setActiveContract GameState.new c) g1 in
  let s2 := after_edit (GameState.setActiveContract GameState.new c) g2 in
  (GameState.money (GameState.checkContractCompletion s1) = 5 ∧
   GameState.activeContract (GameState.checkContractCompletion s1) = None) ∧
  GameState.checkContractCompletion s2 = s2.
Proof.
  intros c g1 g2 s1 s2. split.
  - destruct (completion_iff_exact_match s1 c) as (H & _);
      [reflexivity | reflexivity |].
    destruct H as (Hm & _ & Ha & _).
    + apply check_rows_matches. vm_compute. reflexivity.
    + split; [exact Hm | exact Ha].
  - destruct (completion_iff_exact_match s2 c) as (_ & _ & H & _);
      [reflexivity | reflexivity |].
    apply (H 1 1); [vm_compute; split; [discriminate | reflexivity]..
                   | reflexivity | vm_compute; discriminate].
Defined.

(** ** AutoPainterSystem: the next cell *)

Section AutoPainter.

Implicit Types (s : GameState.t) (g : Grid.t) (p : list (list color))
  (colorId : color).

Lemma needs_paint_test g p colorId (x y : Z) :
  bool_decide (GameState.pattern_at p x y = Some colorId)
  && bool_decide (Grid.getCell g x y ≠ colorId) = true
  ↔ needs_paint g p colorId x y.
Proof.
  unfold needs_paint.
  rewrite andb_true_iff, !bool_decide_eq_true. done.
Qed.

(** The inner loop on the columns [a, a + n). *)
Lemma scan_row_seqZ g p colorId (y : Z) (n : nat) (a : Z) :
  match AutoPainterSystem.scan_row g p colorId y (seqZ a (Z.of_nat n)) with
  | Some x => a ≤ x < a + Z.of_nat n ∧ needs_paint g p colorId x y
              ∧ ∀ x', a ≤ x' < x → ¬ needs_paint g p colorId x' y
  | None => ∀ x', a ≤ x' < a + Z.of_nat n → ¬ needs_paint g p colorId x' y
  end.
Proof.
  revert a. induction n as [|n IH]; intros a.
  - rewrite seqZ_nil by lia. simpl. intros x' ?. lia.
  - rewrite seqZ_cons by lia. simpl.
    replace (Z.pred (Z.of_nat (S n))) with (Z.of_nat n) by lia.
    destruct (bool_decide (GameState.pattern_at p a y = Some colorId)
              && bool_decide (Grid.getCell g a y ≠ colorId)) eqn:Ht.
    + apply needs_paint_test in Ht. split; [lia|]. split; [done|].
      intros x' ?. lia.
    + assert (¬ needs_paint g p colorId a y) as Ha.
      { intros Hn%needs_paint_test. congruence. }
      specialize (IH (Z.succ a)).
      destruct (AutoPainterSystem.scan_row g p colorId y (seqZ (Z.succ a) (Z.of_nat n)))
        as [x|].
      * destruct IH as (? & ? & Hbefore). split; [lia|]. split; [done|].
        intros x' ?. destruct (decide (x' = a)) as [->|?]; [done|].
        apply Hbefore. lia.
      * intros x' ?. destruct (decide (x' = a)) as [->|?]; [done|].
        apply IH. lia.
Qed.

(** The outer loop on the rows [b, b + n). *)
Lemma scan_rows_seqZ g p colorId (n : nat) (b : Z) :
  0 ≤ Grid.width g →
  match AutoPainterSystem.scan_rows g p colorId (seqZ b (Z.of_nat n)) with
  | Some (x, y) =>
      0 ≤ x < Grid.width g ∧ b ≤ y < b + Z.of_nat n ∧ needs_paint g p colorId x y
      ∧ ∀ x' y', 0 ≤ x' < Grid.width g → b ≤ y' →
                 row_major_before x' y' x y → ¬ needs_paint g p colorId x' y'
  | None => ∀ x' y', 0 ≤ x' < Grid.width g → b ≤ y' < b + Z.of_nat n →
                     ¬ needs_paint g p colorId x' y'
  end.
Proof.
  intros Hw. revert b. induction n as [|n IH]; intros b.
  - rewrite seqZ_nil by lia. simpl. intros x' y' ? ?. lia.
  - rewrite seqZ_cons by lia. simpl.
    replace (Z.pred (Z.of_nat (S n))) with (Z.of_nat n) by lia.
    pose proof (scan_row_seqZ g p colorId b (Z.to_nat (Grid.width g)) 0) as Hrow.
    rewrite Z2Nat.id in Hrow by done.
    destruct (AutoPainterSystem.scan_row g p colorId b (seqZ 0 (Grid.width g)))
      as [x|].
    + destruct Hrow as (? & ? & Hbefore). split; [lia|]. split; [lia|].
      split; [done|]. intros x' y' ? ? [?|[-> ?]]; [lia|].
      apply Hbefore. lia.
    + specialize (IH (Z.succ b)).
      destruct (AutoPainterSystem.scan_rows g p colorId (seqZ (Z.succ b) (Z.of_nat n)))
        as [[x y]|].
      * destruct IH as (? & ? & ? & Hbefore). split; [done|]. split; [lia|].
        split; [done|]. intros x' y' ? ? Hrm.
        destruct (decide (y' = b)) as [->|?]; [apply Hrow; lia|].
        apply Hbefore; [done|lia|done].
      * intros x' y' ? ?.
        destruct (decide (y' = b)) as [->|?]; [apply Hrow; lia|].
        apply IH; [done|lia].
Qed.

(** A grid with a negative width has no column to scan. *)
Lemma scan_rows_no_columns g p colorId (ys : list Z) :
  Grid.width g ≤ 0 → AutoPainterSystem.scan_rows g p colorId ys = None.
Proof.
  intros Hw. induction ys as [|y ys IH]; simpl; [done|].
  rewrite seqZ_nil by done. simpl. done.
Qed.

(** The scan of the whole grid: the first cell to paint in row-major order,
    if there is one. *)
Lemma scan_rows_grid g p colorId :
  match AutoPainterSystem.scan_rows g p colorId (seqZ 0 (Grid.height g)) with
  | Some (x, y) =>
      0 ≤ x < Grid.width g ∧ 0 ≤ y < Grid.height g
      ∧ needs_paint g p colorId x y
      ∧ ∀ x' y', 0 ≤ x' < Grid.width g → 0 ≤ y' < Grid.height g →
                 row_major_before x' y' x y → ¬ needs_paint g p colorId x' y'
  | None => ∀ x' y', 0 ≤ x' < Grid.width g → 0 ≤ y' < Grid.height g →
                     ¬ needs_paint g p colorId x' y'
  end.
Proof.
  destruct (decide (0 ≤ Grid.width g)) as [Hw|Hw].
  - destruct (decide (0 ≤ Grid.height g)) as [Hh|Hh].
    + pose proof (scan_rows_seqZ g p colorId (Z.to_nat (Grid.height g)) 0 Hw)
        as Hscan.
      rewrite Z2Nat.id in Hscan by done.
      destruct (AutoPainterSystem.scan_rows g p colorId
                  (seqZ 0 (Grid.height g))) as [[x y]|].
      * destruct Hscan as (? & ? & ? & Hbefore).
        split; [lia|]. split; [lia|]. split; [done|].
        intros x' y' ? ? ?. apply Hbefore; [done|lia|done].
      * intros x' y' ? ?. apply Hscan; [done|lia].
    + rewrite seqZ_nil by lia. simpl. intros x' y' ? ?. lia.
  - rewrite scan_rows_no_columns by lia. intros x' y' ? ?. lia.
Qed.

(** Two cells that are both first in row-major order coincide. *)
Lemma first_needed_unique g p colorId (x y x0 y0 : Z) :
  0 ≤ x < Grid.width g → 0 ≤ y < Grid.height g →
  0 ≤ x0 < Grid.width g → 0 ≤ y0 < Grid.height g →
  needs_paint g p colorId x y → needs_paint g p colorId x0 y0 →
  (∀ x' y', 0 ≤ x' < Grid.width g → 0 ≤ y' < Grid.height g →
            row_major_before x' y' x y → ¬ needs_paint g p colorId x' y') →
  (∀ x' y', 0 ≤ x' < Grid.width g → 0 ≤ y' < Grid.height g →
            row_major_before x' y' x0 y0 → ¬ needs_paint g p colorId x' y') →
  x0 = x ∧ y0 = y.
Proof.
  intros Hx Hy Hx0 Hy0 Hn Hn0 Hfirst Hfirst0.
  destruct (decide (row_major_before x0 y0 x y)) as [Hb|Hb].
  { destruct (Hfirst x0 y0 Hx0 Hy0 Hb Hn0). }
  destruct (decide (row_major_before x y x0 y0)) as [Hb0|Hb0].
  { destruct (Hfirst0 x y Hx Hy Hb0 Hn). }
  unfold row_major_before in *. lia.
Qed.

End AutoPainter.

(** ** Upgrades: the price schedule *)

Section Pricing.

#[local] Open Scope Q_scope.

(** One more level multiplies the unrounded price by the multiplier. *)
Lemma Qpower_succ (m : Q) (L : Z) :
  (0 <= L)%Z → m ^ (L + 1) == m ^ L * m.
Proof.
  intros HL. rewrite Qpower_plus' by lia. by rewrite Qpower_1_r.
Qed.

(** When the first increment of the unrounded price is at least 1, the
    rounded price grows at every level. *)
Lemma cost_at_step (b : Z) (m : Q) (L : Z) :
  (0 <= L)%Z → 1 <= m → 1 <= inject_Z b * (m - 1) →
  (Upgrades.cost_at b m L < Upgrades.cost_at b m (L + 1))%Z.
Proof.
  intros HL Hm Hb. unfold Upgrades.cost_at.
  assert (1 <= m ^ L) as HP by (by apply Qpower_1_le).
  set (q := inject_Z b * m ^ L) in *.
  assert (q + 1 <= inject_Z b * m ^ (L + 1)) as Hq.
  { rewrite Qpower_succ by done. subst q.
    set (P := m ^ L) in *. set (B := inject_Z b) in *. nra. }
  assert (inject_Z (Qfloor q + 1) <= inject_Z b * m ^ (L + 1)) as Hfl.
  { apply Qle_trans with (q + 1); [|exact Hq]. rewrite inject_Z_plus.
    apply Qplus_le_l, Qfloor_le. }
  apply Qfloor_resp_le in Hfl. rewrite Qfloor_Z in Hfl. lia.
Qed.

(** The condition on the first increment cannot be dropped: a schedule with
    base cost 1 and multiplier 1.1, which the catalog does not have, would
    price the levels 0 and 1 alike. *)
Example cost_at_small_base_stalls :
  Upgrades.cost_at 1 (11 # 10) 0 = Upgrades.cost_at 1 (11 # 10) 1.
Proof. reflexivity. Qed.

Lemma cost_at_increasing (b : Z) (m : Q) (L L' : Z) :
  1 <= m → 1 <= inject_Z b * (m - 1) → (0 <= L < L')%Z →
  (Upgrades.cost_at b m L < Upgrades.cost_at b m L')%Z.
Proof.
  intros Hm Hb [HL Hlt].
  replace L' with (L + 1 + Z.of_nat (Z.to_nat (L' - L - 1)))%Z by lia.
  generalize (Z.to_nat (L' - L - 1)) as n. intros n.
  induction n as [|n IH].
  - rewrite Z.add_0_r. by apply cost_at_step.
  - etrans; [exact IH|].
    replace (L + 1 + Z.of_nat (S n))%Z
      with ((L + 1 + Z.of_nat n) + 1)%Z by lia.
    apply cost_at_step; [lia|done|done].
Qed.

Lemma cost_at_constant (b : Z) (m : Q) (L : Z) :
  m == 1 → Upgrades.cost_at b m L = b.
Proof.
  intros Hm. unfold Upgrades.cost_at.
  rewrite <-(Qfloor_Z b) at 2. apply Qfloor_comp.
  rewrite Hm, Qpower_1. ring.
Qed.

(** Every price schedule of the game starts with an increment of at least 1,
    unless its multiplier is 1. *)
Lemma pricing_catalog (upgradeId : string) (b : Z) (m : Q) :
  pricing upgradeId = Some (b, m) →
  Upgrades.getUpgradeCost upgradeId = (λ L, Upgrades.Finite (Upgrades.cost_at b m L))
  ∧ (m == 1 ∨ (1 < m ∧ 1 <= inject_Z b * (m - 1))).
Proof.
  unfold pricing, Upgrades.getUpgradeCost.
  destruct (Upgrades.isAutoPainterUpgrade upgradeId).
  - intros [= <- <-]. split; [done|]. right. split; reflexivity || discriminate.
  - destruct (Upgrades.UPGRADES_get upgradeId) as [u|] eqn:Hu; [|done].
    simpl. intros [= <- <-]. split; [done|].
    apply find_some in Hu as [Hin _]. simpl in Hin.
    repeat (destruct Hin as [<-|Hin];
            [simpl; first [left; reflexivity
                          | right; split; reflexivity || discriminate]|]).
    destruct Hin.
Qed.

End Pricing.

(** The price of an upgrade at a level that is not negative is at least its
    base cost, which is positive. *)
Lemma pricing_positive (upgradeId : string) (b : Z) (m : Q) (L : Z) :
  pricing upgradeId = Some (b, m) → 0 ≤ L → 0 < Upgrades.cost_at b m L.
Proof.
  intros Hp HL.
  assert (0 < b ∧ (1 <= m)%Q) as [Hb Hm].
  { unfold pricing in Hp.
    destruct (Upgrades.isAutoPainterUpgrade upgradeId).
    - injection Hp as <- <-. split; [done|discriminate].
    - destruct (Upgrades.UPGRADES_get upgradeId) as [u|] eqn:Hu; [|done].
      simpl in Hp. injection Hp as <- <-.
      apply find_some in Hu as [Hin _]. simpl in Hin.
      repeat (destruct Hin as [<-|Hin]; [split; [done|discriminate]|]).
      destruct Hin. }
  unfold Upgrades.cost_at.
  assert (inject_Z b <= inject_Z b * m ^ L)%Q as Hle.
  { pose proof (Qpower_1_le m L Hm HL) as HP.
    assert (0 <= inject_Z b)%Q as Hb0.
    { change 0%Q with (inject_Z 0). rewrite <-Zle_Qle. lia. }
    set (B := inject_Z b) in *. set (P := (m ^ L)%Q) in *. nra. }
  apply Qfloor_resp_le in Hle. rewrite Qfloor_Z in Hle. lia.
Qed.

(** At the highest level a game can own, the price of every schedule is
    still far below 2^53. *)
Lemma price_at_cap (upgradeId : string) (b : Z) (m : Q) (cap : Z) :
  pricing upgradeId = Some (b, m) → level_cap upgradeId = Some cap →
  0 ≤ cap ∧ Upgrades.cost_at b m cap < 2 ^ 53.
Proof.
  unfold pricing, level_cap.
  destruct (Upgrades.isAutoPainterUpgrade upgradeId).
  - intros [= <- <-] [= <-]. split; [done|]. by vm_compute.
  - destruct (Upgrades.UPGRADES_get upgradeId) as [u|] eqn:Hu; [|done].
    simpl. intros [= <- <-] [= <-].
    apply find_some in Hu as [Hin _]. simpl in Hin.
    repeat (destruct Hin as [<-|Hin]; [split; [done|by vm_compute]|]).
    destruct Hin.
Qed.

(** C8. For every upgrade — a catalog entry or the auto-painter of a
    colour — the price at an owned level [L], from 0 to the upgrade's
    [maxLevel], is [floor(baseCost × costMultiplier^L)]; over these levels
    the price is strictly increasing in the level with a multiplier above 1,
    and the same at every level with a multiplier equal to 1. The price is
    computed here over the rationals, where the code computes in doubles:
    on the owned levels it is a positive integer below 2^53. A level above
    [maxLevel], which no game owns, is left out: there the doubles round,
    and past their range [Math.pow] is [Infinity] at every level. *)
Theorem upgrade_cost_growth (upgradeId : string) (b : Z) (m : Q) (cap : Z) :
  pricing upgradeId = Some (b, m) → level_cap upgradeId = Some cap →
  (∀ L, 0 ≤ L ≤ cap →
        Upgrades.getUpgradeCost upgradeId L
        = Upgrades.Finite (Qfloor (inject_Z b * m ^ L))
        ∧ 0 < Qfloor (inject_Z b * m ^ L) < 2 ^ 53) ∧
  ((1 < m)%Q →
   ∀ L L', 0 ≤ L < L' → L' ≤ cap →
           ∃ n n', Upgrades.getUpgradeCost upgradeId L = Upgrades.Finite n
                   ∧ Upgrades.getUpgradeCost upgradeId L' = Upgrades.Finite n'
                   ∧ n < n') ∧
  ((m == 1)%Q →
   ∀ L L', 0 ≤ L ≤ cap → 0 ≤ L' ≤ cap →
           Upgrades.getUpgradeCost upgradeId L
           = Upgrades.getUpgradeCost upgradeId L').
Proof.
  intros Hp Hcap. destruct (pricing_catalog upgradeId b m Hp) as [Hcost Hm].
  destruct (price_at_cap upgradeId b m cap Hp Hcap) as [Hcap0 Htop].
  rewrite Hcost. split; [|split].
  - intros L HL. split; [done|].
    change (Qfloor (inject_Z b * m ^ L)) with (Upgrades.cost_at b m L).
    split; [by apply (pricing_positive upgradeId); [|lia]|].
    destruct (decide (L = cap)) as [->|Hne]; [done|].
    destruct Hm as [Hm|[Hlt Hb]].
    + by rewrite cost_at_constant, <-(cost_at_constant b m cap).
    + etrans; [|exact Htop].
      apply cost_at_increasing; [by apply Qlt_le_weak|done|lia].
  - intros Hlt L L' HL _. eexists _, _. split; [done|]. split; [done|].
    destruct Hm as [Hm|[_ Hb]].
    + rewrite Hm in Hlt. by apply Qlt_irrefl in Hlt.
    + apply cost_at_increasing; [by apply Qlt_le_weak|done|done].
  - intros Hm1 L L' _ _. by rewrite !cost_at_constant.
Qed.

Lemma upgrade_cost_growth_witness :
  Upgrades.getUpgradeCost "speed_boost" 3 = Upgrades.Finite 5324 ∧
  (∃ n n', Upgrades.getUpgradeCost "auto_painter_red" 1 = Upgrades.Finite n
           ∧ Upgrades.getUpgradeCost "auto_painter_red" 2 = Upgrades.Finite n'
           ∧ n < n') ∧
  Upgrades.getUpgradeCost "hold_to_paint" 0
  = Upgrades.getUpgradeCost "hold_to_paint" 1.
Proof.
  split; [|split].
  - destruct (upgrade_cost_growth "speed_boost" 500 (22 # 10) 10 eq_refl eq_refl)
      as (H & _).
    destruct (H 3) as [-> _]; [lia|]. vm_compute. reflexivity.
  - destruct (upgrade_cost_growth "auto_painter_red" 75 (15 # 10) 5
                eq_refl eq_refl) as (_ & H & _).
    apply H; [reflexivity | lia | lia].
  - destruct (upgrade_cost_growth "hold_to_paint" 25 1 1 eq_refl eq_refl)
      as (_ & _ & H).
    apply H; [reflexivity | lia | lia].
Defined.

(** ** ContractSystem: the rank of a generated contract *)

Section GeneratedRank.

Variable generatePattern :
  GameState.t → Ranks.Rank → Z → list (list color).
Variable now : Z.

(** [getRank] finds the levels of the catalog. *)
Lemma getRank_catalog (lvl : Z) :
  1 ≤ lvl ≤ 10 → Ranks.level (Ranks.getRank lvl) = lvl.
Proof.
  intros Hl.
  assert (lvl = 1 ∨ lvl = 2 ∨ lvl = 3 ∨ lvl = 4 ∨ lvl = 5 ∨ lvl = 6 ∨ lvl = 7
          ∨ lvl = 8 ∨ lvl = 9 ∨ lvl = 10) as Hcases by lia.
  repeat (destruct Hcases as [->|Hcases]; [reflexivity|]). by subst.
Qed.

(** [getRank] answers with the first rank for every other level. *)
Lemma getRank_fallback (lvl : Z) :
  ¬ (1 ≤ lvl ≤ 10) → Ranks.getRank lvl = Ranks.RANKS_0.
Proof.
  intros Hl. unfold Ranks.getRank, Ranks.RANKS. simpl.
  repeat (rewrite bool_decide_eq_false_2 by lia). done.
Qed.

(** For a level of the catalog, [generateContract] returns nothing when the
    rank is not accessible, and otherwise a contract of that level. *)
Lemma generateContract_catalog_rank (cs : ContractSystem.t) (s : GameState.t)
    (lvl : Z) :
  1 ≤ lvl ≤ 10 →
  let r := ContractSystem.generateContract generatePattern now cs s (Some lvl) in
  (ContractSystem.accessible s (Ranks.getRank lvl) = false → r = (cs, None)) ∧
  (∀ c, r.2 = Some c → GameState.rankLevel c = lvl).
Proof.
  intros Hl. unfold ContractSystem.generateContract.
  destruct (ContractSystem.accessible s (Ranks.getRank lvl)); simpl.
  - split; [done|]. intros c [= <-]. simpl. by apply getRank_catalog.
  - split; [done|]. by intros c.
Qed.

(** C9, at a level outside the catalog. On a fresh game (4x4 grid, black and
    white unlocked, no completed contract) [generateContract(11)] and
    [generateContract(0)] return a contract, and its [rankLevel] is 1:
    [getRank] has answered with the first rank, so the guard
    [if (!rank) return null] of [generateContract] has not fired. *)
Theorem generateContract_unknown_rank :
  let r11 := ContractSystem.generateContract generatePattern now
               ContractSystem.new GameState.new (Some 11) in
  let r0 := ContractSystem.generateContract generatePattern now
              ContractSystem.new GameState.new (Some 0) in
  (∃ c, r11.2 = Some c ∧ GameState.rankLevel c = 1
        ∧ GameState.rankLevel c ≠ 11) ∧
  (∃ c, r0.2 = Some c ∧ GameState.rankLevel c = 1 ∧ GameState.rankLevel c ≠ 0).
Proof.
  assert (ContractSystem.accessible GameState.new Ranks.RANKS_0 = true) as Hacc
    by (vm_compute; reflexivity).
  unfold ContractSystem.generateContract.
  rewrite !getRank_fallback by lia. rewrite Hacc. simpl.
  split; eexists; (split; [reflexivity|]); simpl; split; [done|lia|done|lia].
Qed.

End GeneratedRank.

(** ** Grid: reading back what was written *)

Section GridCells.

Implicit Types (g : Grid.t) (x y : Z) (c : color) (m : gmap string string).

Lemma setCell_unchanged g x y c (r : bool) :
  result_of (Grid.setCell g x y c r) = false →
  Grid.setCell g x y c r = (g, false, []).
Proof.
  unfold Grid.setCell, result_of.
  destruct (Grid.isValid g x y); simpl; [|done]. by case_decide.
Qed.

Lemma setCell_result g x y c (r : bool) :
  result_of (Grid.setCell g x y c r) = true ↔
  Grid.isValid g x y = true ∧ c ≠ Grid.getCell g x y.
Proof.
  unfold Grid.setCell, Grid.getCell, result_of.
  destruct (Grid.isValid g x y); simpl; [|by split; [|intros [? _]]].
  case_decide as Hc; simpl.
  - split; [done|]. intros [_ Hne]. by destruct Hne.
  - split; [|done]. intros _. split; [done|]. congruence.
Qed.

Lemma setCell_cells g x y c (r : bool) :
  result_of (Grid.setCell g x y c r) = true →
  Grid.cells (grid_of (Grid.setCell g x y c r))
  = Grid.store (Grid._key x y) c (Grid.cells g).
Proof.
  unfold Grid.setCell, result_of, grid_of.
  destruct (Grid.isValid g x y); simpl; [|done]. by case_decide.
Qed.

End GridCells.

(** X1. [setCell] returns [true] exactly when the coordinate is inside the
    grid and the colour differs from the one [getCell] reports; in every
    other case the grid, history included, is left as it was and no event is
    emitted. A successful call emits one ['cellChanged'] that carries the
    coordinate, the new colour and the old one. *)
Theorem setCell_changes_iff (g : Grid.t) (x y : Z) (c : color) (r : bool) :
  (result_of (Grid.setCell g x y c r) = true ↔
   (0 ≤ x < Grid.width g ∧ 0 ≤ y < Grid.height g) ∧ c ≠ Grid.getCell g x y) ∧
  (result_of (Grid.setCell g x y c r) = false →
   Grid.setCell g x y c r = (g, false, [])) ∧
  (result_of (Grid.setCell g x y c r) = true →
   events_of (Grid.setCell g x y c r)
   = [Grid.cellChanged (Grid.mkChange x y c (Some (Grid.getCell g x y)))]).
Proof.
  split; [|split].
  - rewrite setCell_result, isValid_true. done.
  - apply setCell_unchanged.
  - intros [Hv Hc]%setCell_result.
    unfold Grid.setCell, Grid.getCell, events_of in *. rewrite Hv in *.
    simpl in *. by rewrite decide_False by congruence.
Qed.

Lemma setCell_changes_iff_witness :
  let g := grid_of (Grid.setCell (Grid.new 4 4) 1 2 (Some "red") true) in
  Grid.setCell g 4 0 (Some "red") true = (g, false, []) ∧
  Grid.setCell g 1 2 (Some "red") true = (g, false, []) ∧
  result_of (Grid.setCell g 1 2 None true) = true.
Proof.
  intros g. split; [|split].
  - destruct (setCell_changes_iff g 4 0 (Some "red") true) as (_ & H & _).
    apply H. vm_compute. reflexivity.
  - destruct (setCell_changes_iff g 1 2 (Some "red") true) as (_ & H & _).
    apply H. vm_compute. reflexivity.
  - destruct (setCell_changes_iff g 1 2 None true) as (H & _).
    apply H. split; [|vm_compute; discriminate].
    vm_compute. repeat split; first [discriminate | reflexivity].
Defined.

(** X2. After [setCell(x, y, c)] on a coordinate inside the grid, [getCell]
    there returns [c] (or [null] when [c] is the empty string, which reads
    as no colour), whether or not the call changed anything, and at every
    other coordinate it returns what it returned before. Outside the grid
    [getCell] returns [null]. *)
Theorem getCell_after_setCell (g : Grid.t) (x y : Z) (c : color) (r : bool) :
  0 ≤ x < Grid.width g → 0 ≤ y < Grid.height g →
  let g' := grid_of (Grid.setCell g x y c r) in
  Grid.getCell g' x y = match c with
                        | Some s => if decide (s = "") then None else Some s
                        | None => None
                        end ∧
  (∀ x' y', (x', y') ≠ (x, y) → Grid.getCell g' x' y' = Grid.getCell g x' y') ∧
  (∀ x' y', ¬ (0 ≤ x' < Grid.width g ∧ 0 ≤ y' < Grid.height g) →
            Grid.getCell g' x' y' = None).
Proof.
  intros Hx Hy g'.
  assert (Grid.isValid g x y = true) as Hv by (by apply isValid_true).
  destruct (setCell_dims g x y c r) as [Hw Hh]. fold g' in Hw, Hh.
  destruct (result_of (Grid.setCell g x y c r)) eqn:Hr.
  - pose proof (setCell_cells g x y c r Hr) as Hcells. fold g' in Hcells.
    split; [|split].
    + unfold Grid.getCell.
      rewrite (proj2 (isValid_true g' x y)) by (rewrite Hw, Hh; done).
      simpl. rewrite Hcells, store_lookup_eq. done.
    + intros x' y' Hne. apply getCell_ext; [done..|]. intros _.
      rewrite Hcells, store_lookup_ne; [done|].
      intros [-> ->]%key_inj. done.
    + intros x' y' Hout. unfold Grid.getCell.
      destruct (Grid.isValid g' x' y') eqn:Hv'; [|done].
      apply isValid_true in Hv'. rewrite Hw, Hh in Hv'. done.
  - assert (g' = g) as Hg.
    { unfold g'. by rewrite (setCell_unchanged g x y c r Hr). }
    destruct (decide (c = Grid.getCell g x y)) as [Hc|Hc].
    2:{ assert (result_of (Grid.setCell g x y c r) = true) as Ht
          by (by apply setCell_result).
        congruence. }
    rewrite Hg. split; [|split].
    + rewrite <-Hc. destruct c as [s|]; [|done].
      case_decide as Hs; [|done]. subst s.
      unfold Grid.getCell in Hc. rewrite Hv in Hc. simpl in Hc.
      symmetry in Hc. apply or_null_Some in Hc as [_ ?]. done.
    + done.
    + intros x' y' Hout. unfold Grid.getCell.
      destruct (Grid.isValid g x' y') eqn:Hv'; [|done].
      apply isValid_true in Hv'. done.
Qed.

Lemma getCell_after_setCell_witness :
  let g := Grid.new 4 4 in
  Grid.getCell (grid_of (Grid.setCell g 1 2 (Some "red") true)) 1 2
  = Some "red" ∧
  Grid.getCell (grid_of (Grid.setCell g 1 2 (Some "") true)) 1 2 = None.
Proof.
  intros g. split.
  - destruct (getCell_after_setCell g 1 2 (Some "red") true) as (H & _);
      [vm_compute; split; [discriminate | reflexivity]..|].
    exact H.
  - destruct (getCell_after_setCell g 1 2 (Some "") true) as (H & _);
      [vm_compute; split; [discriminate | reflexivity]..|].
    exact H.
Defined.

(** X3. [getFilledCount] follows the edits: painting a coordinate that has
    no entry in the store adds one, erasing a coordinate that shows a colour
    removes one, and giving a coloured coordinate another colour keeps the
    count. *)
Theorem getFilledCount_after_setCell (g : Grid.t) (x y : Z) (c : color)
    (r : bool) :
  0 ≤ x < Grid.width g → 0 ≤ y < Grid.height g →
  let g' := grid_of (Grid.setCell g x y c r) in
  (Grid.cells g !! Grid._key x y = None → is_Some c →
   Grid.getFilledCount g' = S (Grid.getFilledCount g)) ∧
  (is_Some (Grid.getCell g x y) → c = None →
   S (Grid.getFilledCount g') = Grid.getFilledCount g) ∧
  (is_Some (Grid.getCell g x y) → is_Some c →
   Grid.getFilledCount g' = Grid.getFilledCount g).
Proof.
  intros Hx Hy g'.
  assert (Grid.isValid g x y = true) as Hv by (by apply isValid_true).
  assert (Grid.getCell g x y = or_null (Grid.cells g !! Grid._key x y)) as Hget.
  { unfold Grid.getCell. by rewrite Hv. }
  unfold Grid.getFilledCount. split; [|split].
  - intros Hnone [s ->].
    assert (result_of (Grid.setCell g x y (Some s) r) = true) as Hr.
    { apply setCell_result. split; [done|]. rewrite Hget, Hnone. done. }
    unfold g'. rewrite (setCell_cells _ _ _ _ _ Hr). simpl.
    by apply map_size_insert_None.
  - intros [s Hs] ->.
    assert (result_of (Grid.setCell g x y None r) = true) as Hr.
    { apply setCell_result. split; [done|]. rewrite Hs. done. }
    unfold g'. rewrite (setCell_cells _ _ _ _ _ Hr). simpl.
    rewrite Hget in Hs. apply or_null_Some in Hs as [Hs _].
    rewrite map_size_delete_Some by (by eexists).
    assert (size (Grid.cells g) ≠ 0%nat) as Hne.
    { intros H0%map_size_empty_iff. rewrite H0, lookup_empty in Hs. done. }
    lia.
  - intros [s Hs] [s' ->].
    rewrite Hget in Hs. apply or_null_Some in Hs as [Hs _].
    destruct (result_of (Grid.setCell g x y (Some s') r)) eqn:Hr.
    + unfold g'. rewrite (setCell_cells _ _ _ _ _ Hr). simpl.
      by rewrite map_size_insert_Some by (by eexists).
    + unfold g'. by rewrite (setCell_unchanged _ _ _ _ _ Hr).
Qed.

Lemma getFilledCount_after_setCell_witness :
  let g := grid_of (Grid.setCell (Grid.new 4 4) 1 2 (Some "red") true) in
  Grid.getFilledCount (grid_of (Grid.setCell g 0 0 (Some "blue") true))
  = S (Grid.getFilledCount g) ∧
  S (Grid.getFilledCount (grid_of (Grid.setCell g 1 2 None true)))
  = Grid.getFilledCount g.
Proof.
  intros g. split.
  - destruct (getFilledCount_after_setCell g 0 0 (Some "blue") true)
      as (H & _); [vm_compute; split; [discriminate | reflexivity]..|].
    apply H; [vm_compute; reflexivity | eexists; reflexivity].
  - destruct (getFilledCount_after_setCell g 1 2 None true)
      as (_ & H & _); [vm_compute; split; [discriminate | reflexivity]..|].
    apply H; [eexists; vm_compute; reflexivity | reflexivity].
Defined.

(** ** Grid: the history cap *)

Section GridHistory.

Implicit Types (g : Grid.t) (h : list Grid.Edit) (e : Grid.Edit).

Lemma push_history_as_drop h e :
  (length h ≤ Grid.maxHistory)%nat →
  Grid.push_history h e
  = drop (length (h ++ [e]) - Grid.maxHistory) (h ++ [e]).
Proof.
  intros Hlen. unfold Grid.push_history. rewrite length_app. simpl.
  case_decide as Hc.
  - replace (length h + 1 - Grid.maxHistory)%nat with 1%nat by lia.
    by destruct (h ++ [e]).
  - replace (length h + 1 - Grid.maxHistory)%nat with 0%nat by lia. done.
Qed.

Lemma length_push_history h e :
  (length h ≤ Grid.maxHistory)%nat →
  (length (Grid.push_history h e) ≤ Grid.maxHistory)%nat.
Proof.
  intros Hlen. rewrite push_history_as_drop by done.
  rewrite length_drop. lia.
Qed.

Lemma setCell_history_bounded g (x y : Z) (c : color) (r : bool) :
  (length (Grid.history g) ≤ Grid.maxHistory)%nat →
  (length (Grid.history (grid_of (Grid.setCell g x y c r)))
   ≤ Grid.maxHistory)%nat.
Proof.
  intros Hlen. unfold Grid.setCell, grid_of.
  destruct (Grid.isValid g x y); simpl; [|done].
  case_decide; simpl; [done|].
  destruct r; [by apply length_push_history|done].
Qed.

Lemma setCells_history_bounded g (l : list (Z * Z * color)) (r : bool) :
  (length (Grid.history (grid_of (Grid.setCells g l r))) ≤ Grid.maxHistory)%nat.
Proof.
  unfold Grid.setCells, grid_of.
  destruct (foldl (Grid.setCells_step r) (g, []) l) as [g1 acc]. simpl.
  case_decide; simpl; [|lia]. rewrite length_drop. lia.
Qed.

Lemma run_call_history_bounded g (call : GridCall) :
  (length (Grid.history g) ≤ Grid.maxHistory)%nat →
  (length (Grid.history (run_call g call)) ≤ Grid.maxHistory)%nat.
Proof.
  intros Hlen. destruct call as [[w h|x y c r|l r| |]|d]; simpl.
  - unfold Grid.expand, grid_of.
    destruct (_ || _); simpl; [done|lia].
  - by apply setCell_history_bounded.
  - apply setCells_history_bounded.
  - rewrite undo_history.
    destruct (Grid.history g) as [|e h] using rev_ind; [done|].
    rewrite removelast_last. rewrite length_app in Hlen. simpl in Hlen. lia.
  - unfold Grid.clear. case_decide; simpl; [done|lia].
  - lia.
Qed.

End GridHistory.

(** X4. The undo history never holds more than [maxHistory] (50) entries:
    this is so in every grid state that the constructor followed by any
    sequence of [expand], [setCell], [setCells], [undo], [clear] and
    [deserialize] leads to, however many cells are set. *)
Theorem history_never_exceeds_cap (w h : Z) (calls : list GridCall) :
  (length (Grid.history (foldl run_call (Grid.new w h) calls))
   ≤ Grid.maxHistory)%nat.
Proof.
  assert (∀ g, (length (Grid.history g) ≤ Grid.maxHistory)%nat →
               (length (Grid.history (foldl run_call g calls))
                ≤ Grid.maxHistory)%nat) as Hgen.
  { induction calls as [|call calls IH]; intros g Hg; simpl; [done|].
    apply IH. by apply run_call_history_bounded. }
  apply Hgen. simpl. lia.
Qed.

(** ** Grid: a batch is a sequence of single edits *)

Section GridBatch.

Implicit Types (g : Grid.t) (h : list Grid.Edit).

Lemma batch_matches_step (r : bool) (st : Grid.t * list Grid.Change)
    (st' : Grid.t * nat) (ch : Z * Z * color) :
  batch_matches st st' →
  batch_matches (Grid.setCells_step r st ch)
    (let res := Grid.setCell st'.1 ch.1.1 ch.1.2 ch.2 r in
     (grid_of res, if result_of res then S st'.2 else st'.2)).
Proof.
  destruct st as [g1 acc], st' as [g2 n], ch as [[x y] c].
  intros (Hw & Hh & Hc & Hhist & Hn). simpl in *.
  unfold Grid.setCell, grid_of, result_of.
  assert (Grid.isValid g2 x y = Grid.isValid g1 x y) as ->.
  { unfold Grid.isValid. by rewrite Hw, Hh. }
  destruct (Grid.isValid g1 x y); simpl; [|done].
  rewrite <-Hc. case_decide; simpl; [done|].
  repeat split; simpl; try done.
  - destruct r; [|done]. rewrite Hhist.
    set (h := Grid.history g1). set (e := Grid.mkEdit x y _ c).
    rewrite push_history_as_drop by (rewrite length_drop; lia).
    rewrite !length_app, length_drop. simpl.
    destruct (decide (length h ≤ Grid.maxHistory)%nat) as [Hle|Hgt].
    + replace (length h - Grid.maxHistory)%nat with 0%nat by lia. simpl.
      f_equal. lia.
    + rewrite <-drop_app_le by lia. rewrite drop_drop. f_equal. lia.
  - rewrite length_app. simpl. lia.
Qed.

Lemma batch_matches_loop (r : bool) (changes : list (Z * Z * color))
    (st : Grid.t * list Grid.Change) (st' : Grid.t * nat) :
  batch_matches st st' →
  batch_matches (foldl (Grid.setCells_step r) st changes)
    (foldl (λ (st : Grid.t * nat) (ch : Z * Z * color),
              let res := Grid.setCell st.1 ch.1.1 ch.1.2 ch.2 r in
              (grid_of res, if result_of res then S st.2 else st.2))
           st' changes).
Proof.
  revert st st'. induction changes as [|ch changes IH]; intros st st' H; simpl.
  - done.
  - apply IH. by apply batch_matches_step.
Qed.

End GridBatch.

(** X5. On a grid whose history is within the cap, [setCells(changes)]
    leaves the grid — dimensions, cells and history — exactly as calling
    [setCell] on each change in turn does, and returns the number of those
    calls that would return [true]; it emits a single ['cellsChanged'] event
    when that number is positive and nothing when it is 0. *)
Theorem setCells_is_setCell_each (g : Grid.t) (changes : list (Z * Z * color))
    (r : bool) :
  (length (Grid.history g) ≤ Grid.maxHistory)%nat →
  let res := Grid.setCells g changes r in
  (grid_of res, result_of res) = setCell_each r g changes ∧
  (result_of res = 0%nat → events_of res = []) ∧
  (result_of res ≠ 0%nat →
   ∃ data, events_of res = [Grid.cellsChanged data]
           ∧ length data = result_of res).
Proof.
  intros Hlen res. subst res.
  assert (batch_matches (g, []) (g, 0%nat)) as H0.
  { repeat split; simpl.
    replace (length (Grid.history g) - Grid.maxHistory)%nat with 0%nat by lia.
    done. }
  pose proof (batch_matches_loop r changes _ _ H0) as Hloop.
  unfold setCell_each, Grid.setCells, grid_of, result_of, events_of.
  destruct (foldl (Grid.setCells_step r) (g, []) changes) as [g1 acc].
  destruct (foldl _ (g, 0%nat) changes) as [g2 n].
  destruct Hloop as (Hw & Hh & Hc & Hhist & Hn). simpl in *.
  split; [|split].
  - f_equal; [|done]. destruct g1 as [w1 h1 c1 hi1], g2 as [w2 h2 c2 hi2].
    simpl in *. subst. case_decide; simpl; [done|].
    replace (length hi1 - Grid.maxHistory)%nat with 0%nat by lia. done.
  - intros Hz. by rewrite decide_False by lia.
  - intros Hnz. rewrite decide_True by lia. by eexists.
Qed.

Lemma setCells_is_setCell_each_witness :
  let g := grid_of (Grid.setCell (Grid.new 4 4) 1 2 (Some "red") true) in
  let changes := [(0, 0, Some "black"); (1, 2, Some "red"); (9, 9, Some "red");
                  (0, 0, None)] in
  (grid_of (Grid.setCells g changes true),
   result_of (Grid.setCells g changes true))
  = setCell_each true g changes.
Proof.
  intros g changes.
  destruct (setCells_is_setCell_each g changes true) as (H & _).
  - vm_compute. lia.
  - exact H.
Defined.

(** ** Grid: saving and loading *)

Section GridSave.

Implicit Types (g : Grid.t) (m : gmap string string).

Lemma digit_of_pretty_N_char (d : N) :
  (d < 10)%N → Grid.digit_of (pretty_N_char d) = Some d.
Proof.
  intros Hd.
  assert (d = 0 ∨ d = 1 ∨ d = 2 ∨ d = 3 ∨ d = 4 ∨ d = 5 ∨ d = 6 ∨ d = 7
          ∨ d = 8 ∨ d = 9)%N as Hcases by lia.
  repeat (destruct Hcases as [->|Hcases]; [reflexivity|]). by subst.
Qed.

Lemma append_cons (c : ascii) (a b : string) :
  String c a +:+ b = String c (a +:+ b).
Proof. reflexivity. Qed.

Lemma append_snoc (a : string) (c : ascii) (b : string) :
  (a +:+ String c "") +:+ b = a +:+ String c b.
Proof.
  induction a as [|c' a IH]; [done|]. by rewrite !append_cons, IH.
Qed.

Lemma append_empty_l (a : string) : "" +:+ a = a.
Proof. reflexivity. Qed.

Lemma append_empty_r (a : string) : a +:+ "" = a.
Proof. induction a as [|c a IH]; [done|]. by rewrite append_cons, IH. Qed.

Lemma parse_digits_app (a b : string) (acc : N) :
  Grid.parse_digits (a +:+ b) acc
  = Grid.parse_digits a acc ≫= Grid.parse_digits b.
Proof.
  revert acc. induction a as [|c a IH]; intros acc; simpl; [done|].
  destruct (Grid.digit_of c); simpl; [apply IH|done].
Qed.

(** The digits that [pretty_N_go] puts in front of its accumulator read
    back as the number. *)
Lemma pretty_N_go_digits (x : N) (s : string) :
  ∃ d, pretty_N_go x s = d +:+ s ∧ Grid.parse_digits d 0 = Some x
       ∧ (0 < x → d ≠ "")%N.
Proof.
  revert s. induction (N.lt_wf_0 x) as [x _ IH]; intros s.
  destruct (decide (x = 0)%N) as [->|Hx].
  - exists "". rewrite pretty_N_go_0. split; [done|]. split; [done|]. lia.
  - rewrite pretty_N_go_step by lia.
    destruct (IH (x `div` 10)%N (N.div_lt x 10 ltac:(lia) ltac:(lia))
                 (String (pretty_N_char (x `mod` 10)) s))
      as (d' & Heq & Hparse & _).
    exists (d' +:+ String (pretty_N_char (x `mod` 10)) "").
    split; [|split].
    + by rewrite Heq, append_snoc.
    + rewrite parse_digits_app, Hparse. simpl.
      rewrite digit_of_pretty_N_char by (apply N.mod_lt; lia).
      f_equal. pose proof (N.div_mod x 10). lia.
    + intros _. by destruct d'.
Qed.

Lemma parse_digits_pretty_N (x : N) :
  Grid.parse_digits (pretty x) 0 = Some x ∧ pretty x ≠ "".
Proof.
  unfold pretty, pretty_N. case_decide as Hx; [by subst|].
  destruct (pretty_N_go_digits x "") as (d & Heq & Hparse & Hne).
  rewrite Heq, append_empty_r.
  split; [done|]. apply Hne. lia.
Qed.

(** A string of digits starts with a digit, not with a sign. *)
Lemma Number_int_digits (s : string) (n : N) :
  s ≠ "" → Grid.parse_digits s 0 = Some n → Grid.Number_int s = Some (Z.of_N n).
Proof.
  destruct s as [|a s]; [done|]. intros _ Hp. unfold Grid.Number_int.
  assert (is_Some (Grid.digit_of a)) as [d Hd].
  { simpl in Hp. destruct (Grid.digit_of a); [by eexists|done]. }
  rewrite decide_False by (intros ->; vm_compute in Hd; discriminate).
  rewrite decide_False by (intros ->; vm_compute in Hd; discriminate).
  by rewrite Hp.
Qed.

(** [Number] reads back what the template string wrote. *)
Lemma Number_int_pretty (z : Z) : Grid.Number_int (pretty z) = Some z.
Proof.
  destruct z as [|p|p]; unfold pretty, pretty_Z; [done|..].
  - destruct (parse_digits_pretty_N (Npos p)) as [Hp Hne].
    change (pretty p) with (pretty (N.pos p)).
    by rewrite (Number_int_digits _ _ Hne Hp).
  - destruct (parse_digits_pretty_N (Npos p)) as [Hp Hne].
    change (pretty p) with (pretty (N.pos p)).
    rewrite append_cons. unfold Grid.Number_int.
    rewrite decide_True by done. rewrite append_empty_l.
    destruct (pretty (N.pos p)) as [|a s] eqn:E; [done|].
    by rewrite Hp.
Qed.

Lemma split_comma_free (s : string) :
  comma_free s = true → Grid.split_comma s = [s].
Proof.
  induction s as [|a s IH]; simpl; [done|].
  intros [Ha Hs]%andb_prop. apply negb_true_iff, bool_decide_eq_false in Ha.
  rewrite decide_False by done. by rewrite IH.
Qed.

Lemma split_comma_app (a b : string) :
  comma_free a = true →
  Grid.split_comma (a +:+ "," +:+ b) = a :: Grid.split_comma b.
Proof.
  induction a as [|c a IH]; simpl; [done|].
  intros [Ha Hs]%andb_prop. apply negb_true_iff, bool_decide_eq_false in Ha.
  rewrite decide_False by done. by rewrite IH.
Qed.

(** The key of a coordinate parses back to the coordinate. *)
Lemma parse_key_key (x y : Z) : Grid.parse_key (Grid._key x y) = Some (x, y).
Proof.
  unfold Grid.parse_key, Grid._key.
  rewrite split_comma_app by apply comma_free_pretty_Z.
  rewrite split_comma_free by apply comma_free_pretty_Z.
  by rewrite !Number_int_pretty.
Qed.

(** Saving the entries of a store and loading them again, on top of any
    store [acc]. *)
Lemma load_saved_entries (kvs : list (string * string)) (acc : gmap string string) :
  NoDup kvs.*1 →
  (∀ kv, kv ∈ kvs → ∃ x y, kv.1 = Grid._key x y) →
  ∃ l, mapM (λ kv : string * string,
               (λ xy : Z * Z, (xy.1, xy.2, Some kv.2)) <$> Grid.parse_key kv.1)
            kvs = Some l
       ∧ foldl (λ m '(x, y, c),
                  match c with
                  | Some s => <[Grid._key x y := s]> m
                  | None => m
                  end) acc l
         = list_to_map kvs ∪ acc.
Proof.
  revert acc. induction kvs as [|[k v] kvs IH]; intros acc Hnd Hkeys.
  - exists []. split; [done|]. simpl. by rewrite (left_id ∅ (∪)).
  - apply NoDup_cons in Hnd as [Hk Hnd].
    destruct (Hkeys (k, v)) as (x & y & Hxy); [by left|]. simpl in Hxy.
    destruct (IH (<[k := v]> acc) Hnd) as (l & Hl & Hfold).
    { intros kv Hin. apply Hkeys. by right. }
    exists ((x, y, Some v) :: l). split.
    + simpl. rewrite Hxy, parse_key_key. simpl. rewrite Hl. done.
    + simpl. rewrite <-Hxy, Hfold.
      rewrite <-insert_union_r by (by apply not_elem_of_list_to_map_1).
      by rewrite insert_union_l.
Qed.

Lemma cell_entries_load m :
  keys_of_coordinates m →
  ∃ l, Grid.cell_entries m = Some l ∧ Grid.load_sparse l = m.
Proof.
  intros Hkeys.
  destruct (load_saved_entries (map_to_list m) ∅) as (l & Hl & Hfold).
  - apply NoDup_fst_map_to_list.
  - intros [k v] Hin%elem_of_map_to_list. by apply (Hkeys k v).
  - exists l. split; [done|]. unfold Grid.load_sparse. rewrite Hfold.
    by rewrite (right_id ∅ (∪)), list_to_map_to_list.
Qed.

Lemma keys_of_coordinates_store m (x y : Z) (c : color) :
  keys_of_coordinates m →
  keys_of_coordinates (Grid.store (Grid._key x y) c m).
Proof.
  intros Hm k v Hk. apply store_lookup_Some in Hk as [->|Hk].
  - by exists x, y.
  - by apply (Hm k v).
Qed.

Lemma keys_of_coordinates_load_sparse (l : list (Z * Z * color)) m :
  keys_of_coordinates m →
  keys_of_coordinates
    (foldl (λ m '(x, y, c),
              match c with
              | Some s => <[Grid._key x y := s]> m
              | None => m
              end) m l).
Proof.
  revert m. induction l as [|[[x y] c] l IH]; intros m Hm; simpl; [done|].
  apply IH. destruct c as [s|]; [|done].
  by apply (keys_of_coordinates_store m x y (Some s)).
Qed.

Lemma keys_of_coordinates_load_flat (w i : Z) (l : list color) m :
  keys_of_coordinates m → keys_of_coordinates (Grid.load_flat w i l m).
Proof.
  revert i m. induction l as [|c l IH]; intros i m Hm; simpl; [done|].
  apply IH. destruct c as [s|]; [|done].
  by apply (keys_of_coordinates_store m _ _ (Some s)).
Qed.

Lemma keys_of_coordinates_setCells (r : bool) (l : list (Z * Z * color))
    (st : Grid.t * list Grid.Change) :
  keys_of_coordinates (Grid.cells st.1) →
  keys_of_coordinates (Grid.cells (foldl (Grid.setCells_step r) st l).1).
Proof.
  revert st. induction l as [|[[x y] c] l IH]; intros [g acc] Hm; simpl; [done|].
  apply IH. simpl in *.
  destruct (Grid.isValid g x y); simpl; [|done].
  case_decide; simpl; [done|]. by apply keys_of_coordinates_store.
Qed.

(** Every call keeps the keys of the store keys of coordinates. *)
Lemma run_call_keys g (call : GridCall) :
  keys_of_coordinates (Grid.cells g) →
  keys_of_coordinates (Grid.cells (run_call g call)).
Proof.
  intros Hm. destruct call as [[w h|x y c r|l r| |]|d]; simpl.
  - unfold Grid.expand, grid_of. by destruct (_ || _).
  - unfold Grid.setCell, grid_of.
    destruct (Grid.isValid g x y); simpl; [|done].
    case_decide; simpl; [done|]. by apply keys_of_coordinates_store.
  - unfold Grid.setCells, grid_of.
    pose proof (keys_of_coordinates_setCells r l (g, []) Hm) as Hl.
    destruct (foldl (Grid.setCells_step r) (g, []) l) as [g1 acc].
    simpl in *. by case_decide.
  - unfold Grid.undo, grid_of.
    destruct (last (Grid.history g)); simpl; [|done].
    by apply keys_of_coordinates_store.
  - unfold Grid.clear. case_decide; simpl; [done|]. by intros k v.
  - destruct (Grid.d_cells d) as [|l|l]; simpl.
    + by intros k v.
    + apply keys_of_coordinates_load_sparse. by intros k v.
    + apply keys_of_coordinates_load_flat. by intros k v.
Qed.

Lemma run_calls_keys (calls : list GridCall) g :
  keys_of_coordinates (Grid.cells g) →
  keys_of_coordinates (Grid.cells (foldl run_call g calls)).
Proof.
  revert g. induction calls as [|call calls IH]; intros g Hg; simpl; [done|].
  apply IH. by apply run_call_keys.
Qed.

(** The flat format puts the entry of index [j] at [(j mod w, j div w)]. *)
Lemma load_flat_lookup (w x y : Z) (l : list color) (i : Z) m :
  0 < w → 0 ≤ i → 0 ≤ x < w → 0 ≤ y →
  Grid.load_flat w i l m !! Grid._key x y
  = match (if decide (i ≤ y * w + x)
           then l !! Z.to_nat (y * w + x - i) else None) with
    | Some (Some s) => Some s
    | _ => m !! Grid._key x y
    end.
Proof.
  intros Hw Hi Hx Hy. revert i m Hi.
  induction l as [|c l IH]; intros i m Hi; simpl.
  - by case_decide.
  - rewrite IH by lia. clear IH.
    assert (Z.rem i w = i `mod` w) as Hrem by (apply Z.rem_mod_nonneg; lia).
    assert (Grid._key (Z.rem i w) (i `div` w) = Grid._key x y ↔ y * w + x = i)
      as Hkey.
    { rewrite Hrem. split.
      - intros [<- <-]%key_inj. pose proof (Z.div_mod i w). lia.
      - intros <-. f_equal.
        + rewrite Z.add_comm, Z.mod_add by lia. apply Z.mod_small. lia.
        + rewrite Z.add_comm, Z.div_add by lia.
          rewrite Z.div_small by lia. lia. }
    destruct (decide (i + 1 ≤ y * w + x)) as [Hlt|Hge].
    + rewrite decide_True by lia.
      replace (Z.to_nat (y * w + x - i)) with (S (Z.to_nat (y * w + x - (i + 1))))
        by lia. simpl.
      destruct (l !! Z.to_nat (y * w + x - (i + 1))) as [[s|]|]; [done|..];
        (destruct c as [s'|]; [|done]; rewrite lookup_insert_ne; [done|];
         intros ?%Hkey; lia).
    + destruct (decide (i ≤ y * w + x)) as [Hle|Hlt].
      * assert (y * w + x = i) as Heq by lia.
        replace (Z.to_nat (y * w + x - i)) with 0%nat by lia. simpl.
        destruct c as [s|]; [|done].
        rewrite (proj2 Hkey Heq). by rewrite lookup_insert_eq.
      * destruct c as [s|]; [|done]. rewrite lookup_insert_ne; [done|].
        intros ?%Hkey. lia.
Qed.

End GridSave.

(** X6. Saving a grid and loading the document gives the grid back: for
    every grid state that the constructor and any sequence of calls lead to,
    and whose width and height are not 0, [serialize()] followed by
    [deserialize] (into any grid) yields the same dimensions and the same
    stored cells, with an empty history and one ['gridLoaded'] event. *)
Theorem grid_save_load_roundtrip (w h : Z) (calls : list GridCall)
    (g0 : Grid.t) :
  let g := foldl run_call (Grid.new w h) calls in
  Grid.width g ≠ 0 → Grid.height g ≠ 0 →
  ∃ d, Grid.serialize g = Some d ∧
       Grid.deserialize g0 d
       = (Grid.mk (Grid.width g) (Grid.height g) (Grid.cells g) [],
          [Grid.gridLoaded]).
Proof.
  intros g Hw Hh.
  assert (keys_of_coordinates (Grid.cells g)) as Hkeys.
  { apply run_calls_keys. by intros k v. }
  destruct (cell_entries_load _ Hkeys) as (l & Hl & Hload).
  unfold Grid.serialize. rewrite Hl. simpl. eexists. split; [done|].
  unfold Grid.deserialize. simpl.
  rewrite !decide_False by done. by rewrite Hload.
Qed.

Lemma grid_save_load_roundtrip_witness :
  let g := foldl run_call (Grid.new 4 4)
             [CallEdit (OpSetCell 1 2 (Some "red") true);
              CallEdit (OpExpand 6 6);
              CallEdit (OpSetCell 5 0 (Some "black") true)] in
  ∃ d, Grid.serialize g = Some d ∧
       Grid.deserialize (Grid.new 4 4) d
       = (Grid.mk 6 6 (Grid.cells g) [], [Grid.gridLoaded]).
Proof.
  intros g.
  destruct (grid_save_load_roundtrip 4 4
              [CallEdit (OpSetCell 1 2 (Some "red") true);
               CallEdit (OpExpand 6 6);
               CallEdit (OpSetCell 5 0 (Some "black") true)] (Grid.new 4 4))
    as (d & Hs & Hd).
  - vm_compute. discriminate.
  - vm_compute. discriminate.
  - exists d. split; [exact Hs | exact Hd].
Defined.

(** X7. Loading the old flat format: with a saved width [w > 0], the entry
    of index [j] of the flat array lands on the coordinate
    [(j mod w, j div w)]. So after [deserialize], the store at [(x, y)] with
    [0 ≤ x < w] and [0 ≤ y] holds the entry of index [y * w + x] when that
    entry exists and is not [null], and nothing otherwise; the saved height
    plays no part in where an entry lands. *)
Theorem deserialize_flat_format (g0 : Grid.t) (d : Grid.Data)
    (l : list color) (x y : Z) :
  Grid.d_cells d = Grid.FlatCells l →
  0 < Grid.num_or (Grid.d_width d) 4 →
  0 ≤ x < Grid.num_or (Grid.d_width d) 4 → 0 ≤ y →
  let g := (Grid.deserialize g0 d).1 in
  Grid.width g = Grid.num_or (Grid.d_width d) 4 ∧
  Grid.cells g !! Grid._key x y
  = match l !! Z.to_nat (y * Grid.width g + x) with
    | Some (Some s) => Some s
    | _ => None
    end.
Proof.
  intros Hl Hw Hx Hy g. subst g. unfold Grid.deserialize. simpl.
  split; [done|]. rewrite Hl.
  rewrite load_flat_lookup by done.
  rewrite decide_True by lia. rewrite Z.sub_0_r.
  by destruct (l !! _) as [[s|]|].
Qed.

Lemma deserialize_flat_format_witness :
  let d := Grid.mkData (Some 2) (Some 2)
             (Grid.FlatCells [None; Some "red"; Some "blue"; None]) in
  Grid.cells (Grid.deserialize (Grid.new 4 4) d).1 !! Grid._key 0 1
  = Some "blue".
Proof.
  intros d.
  destruct (deserialize_flat_format (Grid.new 4 4) d
              [None; Some "red"; Some "blue"; None] 0 1) as [_ H].
  - reflexivity.
  - vm_compute. reflexivity.
  - vm_compute. split; [discriminate | reflexivity].
  - lia.
  - exact H.
Defined.

(** ** GameState: what a game in play keeps *)

Section GameInvariant.

Implicit Types (s : GameState.t) (g : Grid.t).

Lemma progression_emit s (e : GameState.Event) :
  progression (GameState.emit s e) = progression s.
Proof. done. Qed.

Lemma progression_set_grid s g :
  progression (GameState.set_grid s g) = progression s.
Proof. done. Qed.

Lemma progression_grid_clear s :
  progression (GameState.grid_clear s) = progression s.
Proof. unfold GameState.grid_clear, Grid.clear. by case_decide. Qed.

Lemma invariant_addMoney s (amount : Z) :
  game_invariant (progression s) →
  game_invariant (progression (GameState.addMoney s amount).1).
Proof.
  unfold GameState.addMoney. destruct (Z.leb_spec amount 0); [done|].
  unfold game_invariant, progression. simpl. intros (? & ? & ? & ? & ? & ? & ? & ?).
  repeat split; try done; lia.
Qed.

Lemma invariant_spendMoney s (amount : Z) :
  game_invariant (progression s) →
  game_invariant (progression (GameState.spendMoney s amount).1).
Proof.
  unfold GameState.spendMoney.
  destruct (Z.leb_spec amount 0); simpl; [done|].
  destruct (Z.ltb_spec (GameState.money s) amount); simpl; [done|].
  unfold game_invariant, progression. simpl. intros (? & ? & ? & ? & ? & ? & ? & ?).
  repeat split; try done; lia.
Qed.

Lemma invariant_unlockColor s (colorId : string) :
  game_invariant (progression s) →
  game_invariant (progression (GameState.unlockColor s colorId).1).
Proof.
  unfold GameState.unlockColor. case_bool_decide; [done|].
  unfold game_invariant, progression. simpl. intros (? & ? & ? & ? & ? & ? & ? & ?).
  split; [done|]. split; [by apply elem_of_union_l|].
  split; [by apply elem_of_union_l|]. split; [by apply elem_of_union_l|].
  done.
Qed.

Lemma invariant_selectColor s (colorId : string) :
  game_invariant (progression s) →
  game_invariant (progression (GameState.selectColor s colorId).1).
Proof.
  unfold GameState.selectColor. case_bool_decide; simpl; [|done].
  unfold game_invariant, progression. simpl. intros (? & ? & ? & ? & ? & ? & ? & ?).
  repeat split; try done; lia.
Qed.

Lemma invariant_purchaseUpgrade s (upgradeId : string) :
  game_invariant (progression s) →
  game_invariant (progression (GameState.purchaseUpgrade s upgradeId).1).
Proof.
  assert (progression (GameState.purchaseUpgrade s upgradeId).1
          = progression
              (GameState.set_upgrades s
                 (<[upgradeId := GameState.getUpgradeLevel s upgradeId + 1]>
                    (GameState.upgrades s)))) as ->.
  { unfold GameState.purchaseUpgrade. simpl. by case_decide. }
  unfold game_invariant, progression. simpl.
  intros (? & ? & ? & ? & ? & ? & ? & Hup).
  assert (0 ≤ GameState.getUpgradeLevel s upgradeId) as Hlvl.
  { unfold GameState.getUpgradeLevel, Grid.num_or.
    destruct (GameState.upgrades s !! upgradeId) as [l|] eqn:E; [|done].
    case_decide; [done|]. specialize (Hup _ _ E). lia. }
  do 7 (split; [done|]).
  intros id lvl [[_ <-]|[_ Hl]]%lookup_insert_Some; [lia|].
  by apply (Hup id).
Qed.

Lemma invariant_setAutomationEnabled s (upgradeId : string) (b : bool) :
  game_invariant (progression s) →
  game_invariant (progression (GameState.setAutomationEnabled s upgradeId b).1).
Proof.
  unfold GameState.setAutomationEnabled. case_decide; [done|].
  by destruct (negb _).
Qed.

Lemma invariant_completeActiveContract s :
  game_invariant (progression s) →
  game_invariant (progression (GameState.completeActiveContract s).1).
Proof.
  unfold GameState.completeActiveContract.
  destruct (GameState.activeContract s) as [c|]; [|done].
  intros Hs. apply (invariant_addMoney s (GameState.reward c)) in Hs.
  cbv zeta. cbn [fst]. rewrite progression_emit, progression_grid_clear.
  revert Hs. generalize (GameState.addMoney s (GameState.reward c)).1.
  intros s1. unfold game_invariant, progression. simpl.
  intros (? & ? & ? & ? & ? & ? & ? & ?). repeat split; try done; lia.
Qed.

Lemma invariant_checkContractCompletion s :
  game_invariant (progression s) →
  game_invariant (progression (GameState.checkContractCompletion s)).
Proof.
  unfold GameState.checkContractCompletion.
  destruct (GameState.activeContract s); [|done].
  destruct (GameState.check_rows _ _ _ _).1; [|done].
  apply invariant_completeActiveContract.
Qed.

Lemma invariant_on_grid_event s (e : Grid.Event) :
  game_invariant (progression s) →
  game_invariant (progression (GameState.on_grid_event s e)).
Proof.
  destruct e; simpl; try done;
    intros Hs; by apply invariant_checkContractCompletion.
Qed.

Lemma invariant_on_grid {R : Type} s (r : Grid.t * R * list Grid.Event) :
  game_invariant (progression s) →
  game_invariant (progression (GameState.on_grid s r).1).
Proof.
  destruct r as [[g res] evs]. simpl.
  change (game_invariant (progression s))
    with (game_invariant (progression (GameState.set_grid s g))).
  generalize (GameState.set_grid s g). clear s.
  induction evs as [|e evs IH]; intros s Hs; simpl; [done|].
  apply IH. by apply invariant_on_grid_event.
Qed.

Lemma invariant_expandGrid s (w h : Z) :
  game_invariant (progression s) →
  game_invariant (progression (GameState.expandGrid s w h).1).
Proof.
  intros Hs. unfold GameState.expandGrid.
  pose proof (invariant_on_grid s (Grid.expand (GameState.grid s) w h) Hs) as H1.
  destruct (GameState.on_grid s (Grid.expand (GameState.grid s) w h))
    as [s1 success].
  destruct success; simpl in *; [|done].
  revert H1. unfold game_invariant, progression. simpl.
  intros (? & ? & ? & ? & ? & ? & ? & ?). repeat split; try done; lia.
Qed.

Lemma invariant_buyUpgrade s (upgradeId : string) :
  game_invariant (progression s) →
  game_invariant (progression (ShopSystem.buyUpgrade s upgradeId).1).
Proof.
  intros Hs. unfold ShopSystem.buyUpgrade.
  destruct (negb _); simpl; [done|].
  apply invariant_purchaseUpgrade. unfold ShopSystem.spend.
  destruct (ShopSystem.getUpgradePrice s upgradeId); [|done].
  by apply invariant_spendMoney.
Qed.

(** Every call keeps the invariant. *)
Lemma invariant_run_game s (call : GameCall) :
  game_invariant (progression s) →
  game_invariant (progression (run_game s call)).
Proof.
  intros Hs. destruct call; simpl.
  - by apply invariant_addMoney.
  - by apply invariant_spendMoney.
  - by apply invariant_unlockColor.
  - by apply invariant_selectColor.
  - by apply invariant_purchaseUpgrade.
  - by apply invariant_setAutomationEnabled.
  - by apply invariant_on_grid.
  - by apply invariant_on_grid.
  - by apply invariant_expandGrid.
  - unfold GameState.setActiveContract.
    by rewrite progression_emit, progression_grid_clear.
  - unfold GameState.clearContract.
    by rewrite progression_emit, progression_grid_clear.
  - by apply invariant_completeActiveContract.
  - unfold ShopSystem.buyGridExpansion.
    destruct (ShopSystem.getNextExpansion s); [|done].
    destruct (negb _); simpl; [done|].
    by apply invariant_expandGrid, invariant_spendMoney.
  - unfold ShopSystem.buyColor. destruct (negb _); simpl; [done|].
    by apply invariant_unlockColor, invariant_spendMoney.
  - by apply invariant_buyUpgrade.
  - unfold AutoPainterSystem.paintNextCell.
    destruct (GameState.activeContract s); [|done].
    destruct (AutoPainterSystem.scan_rows _ _ _ _) as [[x y]|]; [|done].
    simpl. by apply invariant_on_grid.
  - by apply invariant_on_grid.
  - by rewrite progression_grid_clear.
  - by apply invariant_checkContractCompletion.
Qed.

Lemma invariant_reachable (calls : list GameCall) :
  game_invariant (progression (foldl run_game GameState.new calls)).
Proof.
  assert (game_invariant (progression GameState.new)) as H0.
  { unfold game_invariant. simpl.
    split; [lia|]. split; [by apply elem_of_union_l, elem_of_singleton|].
    split; [by apply elem_of_union_r, elem_of_singleton|].
    split; [by apply elem_of_union_l, elem_of_singleton|].
    split; [done|]. split; [done|]. split; [done|].
    intros id lvl Hl. by rewrite lookup_empty in Hl. }
  revert H0. generalize GameState.new.
  induction calls as [|call calls IH]; intros s Hs; simpl; [done|].
  apply IH. by apply invariant_run_game.
Qed.

(** Loading the document that a game wrote installs the progression of
    that game, so what held of the game that saved holds of the game that
    loaded, whatever its state was. *)
Lemma invariant_load s saved (d : GameState.Data) :
  game_invariant (progression saved) →
  GameState.serialize saved = Some d →
  game_invariant (progression (GameState.deserialize s (Some d)).1).
Proof.
  intros (Hm & Hb & Hw & Hsel & Hcc & Hc0 & Hgl & Hup).
  unfold GameState.serialize.
  destruct (Grid.serialize (GameState.grid saved)) as [gd|]; [|done].
  intros [= <-]. unfold GameState.deserialize.
  cbn [GameState.d_version GameState.d_grid GameState.d_gridLevel
       GameState.d_money GameState.d_unlockedColors GameState.d_selectedColor
       GameState.d_upgrades GameState.d_automationEnabled
       GameState.d_activeContract GameState.d_completedContracts
       GameState.d_stats].
  rewrite (bool_decide_eq_false_2 (JNum 4 ≠ JNum 4)) by (by intros H; apply H).
  rewrite andb_false_r.
  match goal with
  | |- context [Grid.deserialize ?g0 gd] => destruct (Grid.deserialize g0 gd) as [g evs]
  end.
  simpl in *. unfold game_invariant, progression. simpl.
  rewrite list_to_set_elements_L.
  split; [case_decide; lia|]. split; [done|]. split; [done|].
  split; [by case_decide|]. split; [case_decide; lia|].
  split; [case_decide; lia|]. split; [case_decide; lia|done].
Qed.

(** Every session keeps the invariant. *)
Lemma invariant_play (p : Session) : game_invariant (progression (play p)).
Proof.
  induction p as [|before IH call|before IH saved IHsaved]; cbn [play].
  - apply (invariant_reachable []).
  - by apply invariant_run_game.
  - destruct (GameState.serialize (play saved)) as [d|] eqn:Hd; [|done].
    by apply (invariant_load _ (play saved)).
Qed.

(** [deserialize] installs what the document holds: a document that no game
    wrote, here one with money and without statistics, is accepted and
    leaves more money than was ever earned. *)
Example deserialize_foreign_document :
  let d := GameState.mkData (JNum 4) (Some (Grid.mkData (Some 4) (Some 4) Grid.NoCells))
             None (Some 100) None None None None None None None in
  let r := GameState.deserialize GameState.new (Some d) in
  r.2 = GameState.Returned true ∧ GameState.money r.1 = 100 ∧
  GameState.totalMoneyEarned (GameState.stats r.1) = 0.
Proof. by vm_compute. Qed.

End GameInvariant.

(** X8. In a game in play the money is never negative and never exceeds the
    total earned so far ([stats.totalMoneyEarned]). A game in play is a
    session: the fresh state followed by any sequence of calls of the
    methods of [GameState] other than [deserialize], calls on its grid
    ([setCell], [setCells], [undo], [clear]), shop purchases and paint
    attempts, and of loads of a save that a game in play wrote with
    [serialize]. A document from elsewhere is not covered: [deserialize]
    installs the money and the statistics it is given. *)
Theorem money_never_negative (p : Session) :
  let s := play p in
  0 ≤ GameState.money s ≤ GameState.totalMoneyEarned (GameState.stats s).
Proof.
  intros s. by destruct (invariant_play p) as (H & _).
Qed.

(** X9. In a game in play (a session: calls and loads of saves that a game
    in play wrote) the starter colours black and white stay unlocked, and
    the selected colour is always one of the unlocked colours. A document
    from elsewhere is not covered: [deserialize] installs the colours it is
    given. *)
Theorem selected_color_is_unlocked (p : Session) :
  let s := play p in
  "black" ∈ GameState.unlockedColors s ∧ "white" ∈ GameState.unlockedColors s
  ∧ GameState.selectedColor s ∈ GameState.unlockedColors s.
Proof.
  intros s. by destruct (invariant_play p) as (_ & ? & ? & ? & _).
Qed.


(** ** GameState: money, colours, upgrades *)

(** X11. [spendMoney(amount)] succeeds exactly when the amount is positive
    and not above the balance; it then lowers the money by the amount and
    emits ['moneyChanged'] with the negated amount, and otherwise leaves the
    state as it was. [addMoney(amount)] succeeds exactly when the amount is
    positive, and otherwise leaves the state as it was. On a balance that
    is not negative, spending an amount right after adding it gives the
    balance back, as long as the sum of the two is at most 2^53: up to
    there a JavaScript number holds every integer exactly. *)
Theorem spendMoney_guards (s : GameState.t) (amount : Z) :
  ((GameState.spendMoney s amount).2 = true ↔ 0 < amount ≤ GameState.money s) ∧
  ((GameState.spendMoney s amount).2 = false →
   (GameState.spendMoney s amount).1 = s) ∧
  ((GameState.spendMoney s amount).2 = true →
   GameState.money (GameState.spendMoney s amount).1
   = GameState.money s - amount ∧
   last (GameState.emitted (GameState.spendMoney s amount).1)
   = Some (GameState.moneyChanged (GameState.money s - amount) (- amount))) ∧
  ((GameState.addMoney s amount).2 = true ↔ 0 < amount) ∧
  ((GameState.addMoney s amount).2 = false →
   (GameState.addMoney s amount).1 = s) ∧
  (0 < amount → 0 ≤ GameState.money s →
   GameState.money s + amount ≤ 2 ^ 53 →
   GameState.money
     (GameState.spendMoney (GameState.addMoney s amount).1 amount).1
   = GameState.money s).
Proof.
  unfold GameState.spendMoney, GameState.addMoney.
  destruct (Z.leb_spec amount 0) as [Hle|Hlt]; simpl.
  - repeat split; try done; lia.
  - split; [|split; [|split; [|split; [|split]]]]; try done.
    + destruct (Z.ltb_spec (GameState.money s) amount); simpl;
        split; try done; lia.
    + by destruct (GameState.money s <? amount).
    + destruct (GameState.money s <? amount); [done|]. intros _. simpl.
      split; [done|]. apply last_snoc.
    + intros _ Hm _.
      destruct (Z.ltb_spec (GameState.money s + amount) amount); simpl; lia.
Qed.

Lemma spendMoney_guards_witness :
  let s := (GameState.addMoney GameState.new 100).1 in
  GameState.money (GameState.spendMoney s 30).1 = 70 ∧
  (GameState.spendMoney s 101).1 = s ∧
  GameState.money (GameState.spendMoney (GameState.addMoney s 5).1 5).1 = 100.
Proof.
  intros s. split; [|split].
  - destruct (spendMoney_guards s 30) as (H1 & _ & H2 & _).
    destruct H2 as [H2 _]; [apply H1; vm_compute; split; [reflexivity|discriminate]|].
    exact H2.
  - destruct (spendMoney_guards s 101) as (_ & H & _).
    apply H. reflexivity.
  - destruct (spendMoney_guards s 5) as (_ & _ & _ & _ & _ & H).
    apply H; [lia | vm_compute; discriminate | vm_compute; discriminate].
Defined.

(** X12. [unlockColor] returns [false] exactly when the colour is already
    unlocked and then changes nothing; after the call the colour is
    unlocked, no colour has been removed, and unlocking it again returns
    [false]. [selectColor] returns [false] exactly when the colour is not
    unlocked and then changes nothing; a colour that has just been unlocked
    can be selected. *)
Theorem unlockColor_then_selectColor (s : GameState.t) (colorId : string) :
  let s1 := (GameState.unlockColor s colorId).1 in
  ((GameState.unlockColor s colorId).2 = false ↔
   colorId ∈ GameState.unlockedColors s) ∧
  ((GameState.unlockColor s colorId).2 = false → s1 = s) ∧
  colorId ∈ GameState.unlockedColors s1 ∧
  GameState.unlockedColors s ⊆ GameState.unlockedColors s1 ∧
  GameState.unlockColor s1 colorId = (s1, false) ∧
  ((GameState.selectColor s colorId).2 = false ↔
   colorId ∉ GameState.unlockedColors s) ∧
  ((GameState.selectColor s colorId).2 = false →
   (GameState.selectColor s colorId).1 = s) ∧
  ((GameState.selectColor s1 colorId).2 = true ∧
   GameState.selectedColor (GameState.selectColor s1 colorId).1 = colorId).
Proof.
  intros s1.
  assert (colorId ∈ GameState.unlockedColors s1) as Hin.
  { subst s1. unfold GameState.unlockColor. case_bool_decide; simpl; [done|].
    apply elem_of_union_r. by apply elem_of_singleton. }
  split; [|split; [|split; [done|split; [|split; [|split; [|split]]]]]].
  - unfold GameState.unlockColor. by case_bool_decide.
  - subst s1. unfold GameState.unlockColor. by case_bool_decide.
  - subst s1. unfold GameState.unlockColor. case_bool_decide; simpl; [done|].
    apply union_subseteq_l.
  - unfold GameState.unlockColor at 1. by rewrite bool_decide_eq_true_2.
  - unfold GameState.selectColor. by case_bool_decide.
  - unfold GameState.selectColor. by case_bool_decide.
  - unfold GameState.selectColor. by rewrite bool_decide_eq_true_2.
Qed.

(** X13. For an id that [Object.prototype] does not define (the objects
    [upgrades] and [automationEnabled] are plain objects, and a lookup of
    such an id sees their own entries only): [purchaseUpgrade(id)] raises
    the level of [id] by one and leaves the level of every other such id
    alone. The first purchase (from level 0) makes [isAutomationEnabled(id)]
    true; a later purchase leaves the automation flags as they are, so a
    disabled automation stays disabled. [setAutomationEnabled(id, b)] on an
    upgrade that is not owned fails and changes nothing, except for the
    master switch ['auto_painters'], which needs no ownership; after a
    successful call [isAutomationEnabled(id)] is [b]. *)
Theorem purchaseUpgrade_and_automation (s : GameState.t) (id : string)
    (b : bool) :
  inherited_key id = false →
  let s1 := (GameState.purchaseUpgrade s id).1 in
  GameState.getUpgradeLevel s1 id = GameState.getUpgradeLevel s id + 1 ∧
  (∀ id', inherited_key id' = false → id' ≠ id →
          GameState.getUpgradeLevel s1 id' = GameState.getUpgradeLevel s id') ∧
  (GameState.getUpgradeLevel s id = 0 →
   GameState.isAutomationEnabled s1 id = true) ∧
  (GameState.getUpgradeLevel s id ≠ 0 →
   GameState.automationEnabled s1 = GameState.automationEnabled s) ∧
  (id ≠ "auto_painters" → GameState.hasUpgrade s id = false →
   GameState.setAutomationEnabled s id b = (s, false)
   ∧ GameState.isAutomationEnabled s id = false) ∧
  ((GameState.setAutomationEnabled s id b).2 = true →
   GameState.isAutomationEnabled (GameState.setAutomationEnabled s id b).1 id
   = b) ∧
  (GameState.setAutomationEnabled s "auto_painters" b).2 = true.
Proof.
  intros _ s1.
  assert (GameState.upgrades s1
          = <[id := GameState.getUpgradeLevel s id + 1]> (GameState.upgrades s))
    as Hup.
  { subst s1. unfold GameState.purchaseUpgrade. simpl. by case_decide. }
  split; [|split; [|split; [|split; [|split; [|split]]]]].
  - unfold GameState.getUpgradeLevel at 1. rewrite Hup, lookup_insert_eq.
    unfold Grid.num_or. case_decide; [lia|done].
  - intros id' _ Hne. unfold GameState.getUpgradeLevel.
    by rewrite Hup, lookup_insert_ne.
  - intros H0. unfold GameState.isAutomationEnabled, GameState.hasUpgrade.
    assert (GameState.getUpgradeLevel s1 id = 1) as ->.
    { unfold GameState.getUpgradeLevel at 1. rewrite Hup, lookup_insert_eq.
      rewrite H0. done. }
    assert (GameState.not_disabled s1 id = true) as Hnd.
    { subst s1. unfold GameState.purchaseUpgrade, GameState.not_disabled.
      simpl. rewrite decide_True by done. simpl.
      by rewrite lookup_insert_eq. }
    case_decide as Hm; [by subst|done].
  - intros Hne. subst s1. unfold GameState.purchaseUpgrade. simpl.
    by rewrite decide_False.
  - intros Hne Hno. unfold GameState.setAutomationEnabled,
      GameState.isAutomationEnabled.
    rewrite !decide_False by done. by rewrite Hno.
  - unfold GameState.setAutomationEnabled.
    case_decide as Hm.
    + intros _. subst id. simpl. unfold GameState.isAutomationEnabled.
      rewrite decide_True by done. unfold GameState.not_disabled. simpl.
      rewrite lookup_insert_eq. by destruct b.
    + destruct (GameState.hasUpgrade s id) eqn:Hh; simpl; [|done].
      intros _. unfold GameState.isAutomationEnabled.
      rewrite decide_False by done.
      assert (GameState.hasUpgrade
                (GameState.emit
                   (GameState.set_automationEnabled s
                      (<[id := b]> (GameState.automationEnabled s)))
                   (GameState.automationToggled id b)) id = true) as ->
        by exact Hh.
      simpl. unfold GameState.not_disabled. simpl.
      rewrite lookup_insert_eq. by destruct b.
  - unfold GameState.setAutomationEnabled. by rewrite decide_True.
Qed.

Lemma purchaseUpgrade_and_automation_witness :
  let s1 := (GameState.purchaseUpgrade GameState.new "auto_start_contract").1 in
  let s2 := (GameState.setAutomationEnabled s1 "auto_start_contract" false).1 in
  GameState.isAutomationEnabled s1 "auto_start_contract" = true ∧
  GameState.automationEnabled (GameState.purchaseUpgrade s2 "auto_start_contract").1
  = GameState.automationEnabled s2 ∧
  GameState.setAutomationEnabled GameState.new "speed_boost" true
  = (GameState.new, false).
Proof.
  intros s1 s2. split; [|split].
  - destruct (purchaseUpgrade_and_automation GameState.new
                "auto_start_contract" true) as (_ & _ & H & _);
      [vm_compute; reflexivity|].
    apply H. reflexivity.
  - destruct (purchaseUpgrade_and_automation s2 "auto_start_contract" true)
      as (_ & _ & _ & H & _); [vm_compute; reflexivity|].
    apply H. vm_compute. discriminate.
  - destruct (purchaseUpgrade_and_automation GameState.new "speed_boost" true)
      as (_ & _ & _ & _ & H & _); [vm_compute; reflexivity|].
    destruct H as [H _]; [discriminate | reflexivity | exact H].
Defined.

(** ** GameState: an edit that completes the contract *)

Section EditCompletes.

Implicit Types (s : GameState.t) (g : Grid.t).

Lemma completeActiveContract_cellsFilled s :
  GameState.totalCellsFilled (GameState.stats (GameState.completeActiveContract s).1)
  = GameState.totalCellsFilled (GameState.stats s).
Proof.
  unfold GameState.completeActiveContract.
  destruct (GameState.activeContract s) as [c|]; [|done].
  unfold GameState.addMoney. cbv zeta.
  destruct (GameState.reward c <=? 0); cbn [fst];
    match goal with
    | |- context [GameState.grid_clear ?s0] =>
        pose proof (grid_clear_fields s0) as (_ & _ & _ & Hst);
        destruct (GameState.grid_clear s0)
    end; simpl in *; by subst.
Qed.

(** The state in which the completion check runs after a changing
    [setCell]. *)
Lemma grid_setCell_changed s (x y : Z) (c : color) (r : bool) :
  result_of (Grid.setCell (GameState.grid s) x y c r) = true →
  (GameState.grid_setCell s x y c r).1
  = GameState.checkContractCompletion
      (GameState.emit
         (GameState.set_stats
            (GameState.set_grid s
               (grid_of (Grid.setCell (GameState.grid s) x y c r)))
            (GameState.mkStats
               (GameState.totalCellsFilled (GameState.stats s) + 1)
               (GameState.totalMoneyEarned (GameState.stats s))
               (GameState.totalContractsCompleted (GameState.stats s))
               (GameState.playTime (GameState.stats s))))
         (GameState.cellChanged
            (Grid.mkChange x y c
               (Some (Grid.getCell (GameState.grid s) x y))))).
Proof.
  intros Hr. unfold GameState.grid_setCell.
  pose proof Hr as [Hv Hc]%setCell_result.
  unfold Grid.setCell, Grid.getCell, grid_of in *. rewrite Hv in *. simpl in *.
  rewrite decide_False by congruence. done.
Qed.

End EditCompletes.

(** X14. With an active contract (of positive reward), a [setCell] through
    the game's grid that changes a cell counts one more filled cell in the
    statistics and runs the completion check before it returns. When the
    grid after the edit shows the pattern, the call itself pays the reward,
    counts the contract, drops it and leaves an empty store; when it does
    not, the contract stays active, the edit stays on the grid and the money
    is untouched. *)
Theorem edit_runs_completion (s : GameState.t) (c : GameState.Contract)
    (x y : Z) (col : color) (r : bool) :
  GameState.activeContract s = Some c → 0 < GameState.reward c →
  result_of (Grid.setCell (GameState.grid s) x y col r) = true →
  let g' := grid_of (Grid.setCell (GameState.grid s) x y col r) in
  let s' := (GameState.grid_setCell s x y col r).1 in
  GameState.totalCellsFilled (GameState.stats s')
  = GameState.totalCellsFilled (GameState.stats s) + 1 ∧
  (grid_matches g' (GameState.pattern c) →
   GameState.money s' = GameState.money s + GameState.reward c ∧
   GameState.completedContracts s' = GameState.completedContracts s + 1 ∧
   GameState.activeContract s' = None ∧
   Grid.cells (GameState.grid s') = ∅ ∧
   last (GameState.emitted s') = Some (GameState.contractCompleted c)) ∧
  (¬ grid_matches g' (GameState.pattern c) →
   GameState.activeContract s' = Some c ∧ GameState.grid s' = g' ∧
   GameState.money s' = GameState.money s ∧
   GameState.completedContracts s' = GameState.completedContracts s).
Proof.
  intros Hc Hr Hres g' s'. subst s'.
  rewrite (grid_setCell_changed s x y col r Hres). fold g'.
  set (s0 := GameState.emit _ _).
  assert (GameState.activeContract s0 = Some c) as Hc0 by done.
  unfold GameState.checkContractCompletion. rewrite Hc0.
  change (GameState.grid s0) with g'.
  destruct (GameState.check_rows g' (GameState.pattern c)
              (seqZ 0 (Grid.height g')) (true, false)).1 eqn:E.
  - apply check_rows_matches in E.
    destruct (completeActiveContract_spec s0 c Hc0 Hr)
      as (_ & Hm & Hn & Ha & Hcells & _ & Hev).
    split; [by rewrite completeActiveContract_cellsFilled|].
    split; [done|]. intros Hno. by destruct Hno.
  - split; [done|]. split; [|done].
    intros Hm%check_rows_matches. congruence.
Qed.

Lemma edit_runs_completion_witness :
  let c := GameState.mkContract "contract_1" 1 "Novice"
             [ [Some "black"; None; None; None]; [None; None; None; None];
               [None; None; None; None]; [None; None; None; None] ] 5 1 0 in
  let s := GameState.setActiveContract GameState.new c in
  let s' := (GameState.grid_setCell s 0 0 (Some "black") true).1 in
  GameState.money s' = 5 ∧ GameState.activeContract s' = None
  ∧ Grid.cells (GameState.grid s') = ∅.
Proof.
  intros c s s'.
  destruct (edit_runs_completion s c 0 0 (Some "black") true)
    as (_ & H & _); [reflexivity | reflexivity | vm_compute; reflexivity |].
  destruct H as (Hm & _ & Ha & Hcells & _).
  - apply check_rows_matches. vm_compute. reflexivity.
  - split; [exact Hm | split; [exact Ha | exact Hcells]].
Defined.

(** ** AutoPainterSystem: a paint is an edit *)

Section PaintIsEdit.

Implicit Types (g : Grid.t) (h : list Grid.Edit) (e : Grid.Edit).

(** What a push does to the history: the entry goes to the end, and the
    oldest entry leaves when the history is full. *)
Lemma push_history_short h e :
  (length h < Grid.maxHistory)%nat → Grid.push_history h e = h ++ [e].
Proof.
  intros Hlen. unfold Grid.push_history. rewrite length_app. simpl.
  rewrite decide_False by lia. done.
Qed.

Lemma push_history_full h e :
  (Grid.maxHistory ≤ length h)%nat → Grid.push_history h e = tail h ++ [e].
Proof.
  intros Hlen. unfold Grid.push_history. rewrite length_app. simpl.
  rewrite decide_True by lia.
  destruct h as [|e0 h]; [|done]. unfold Grid.maxHistory in Hlen. simpl in Hlen. lia.
Qed.

(** The grid after a changing [setCell], undone. *)
Lemma edit_then_undo g (x y : Z) (c : color) :
  Grid.isValid g x y = true →
  let g' := Grid.mk (Grid.width g) (Grid.height g)
              (Grid.store (Grid._key x y) c (Grid.cells g))
              (Grid.push_history (Grid.history g)
                 (Grid.mkEdit x y (Grid.getCell g x y) c)) in
  result_of (Grid.undo g') = true ∧
  ∀ x' y', Grid.getCell (grid_of (Grid.undo g')) x' y' = Grid.getCell g x' y'.
Proof.
  intros Hv g'. subst g'.
  erewrite undo_last; [|simpl; apply last_push_history].
  unfold grid_of, result_of. simpl. split; [done|].
  intros x' y'. apply getCell_ext; [done..|]. simpl. intros _.
  destruct (decide (Grid._key x y = Grid._key x' y')) as [Hk|Hk].
  - rewrite <-Hk. rewrite store_lookup_eq.
    unfold Grid.getCell. rewrite Hv. simpl. apply or_null_idem.
  - by rewrite !store_lookup_ne.
Qed.

End PaintIsEdit.

(** C10. With an active contract, one paint attempt for a colour paints one
    cell: the first coordinate of the grid in row-major order (rows from
    [y = 0] upward, columns from [x = 0] upward inside a row) whose pattern
    entry is the colour while the grid cell holds something else. It does so
    through [grid.setCell], as a manual edit does. That call changes the
    store at this one key (every other cell reads as before) and records
    the edit: [{ x, y, oldColor, newColor }] becomes the newest entry of the
    history, behind the entries that were there (the oldest one leaves when
    the history was full), so that an [undo()] gives every cell its colour
    back. Its ['cellChanged'] listener counts the cell, forwards the event
    and runs the completion check: when the painted grid shows the pattern,
    the attempt itself completes the contract (the reward, taken positive,
    is paid, the contract is counted and dropped, the store is emptied);
    when it does not, the contract stays active and the game's grid is the
    painted one. The attempt then returns [true]. When no coordinate of the
    grid needs the colour, the attempt returns [false] and the state is the
    one before the call; the attempt returns [true] exactly when some
    coordinate needs the colour. *)
Theorem paintNextCell_paints_first_needed (s : GameState.t)
    (c : GameState.Contract) (colorId : color) :
  GameState.activeContract s = Some c →
  let g := GameState.grid s in
  let p := GameState.pattern c in
  (∀ x y,
     0 ≤ x < Grid.width g → 0 ≤ y < Grid.height g →
     needs_paint g p colorId x y →
     (∀ x' y', 0 ≤ x' < Grid.width g → 0 ≤ y' < Grid.height g →
               row_major_before x' y' x y → ¬ needs_paint g p colorId x' y') →
     let old := Grid.getCell g x y in
     let edit := Grid.mkEdit x y old colorId in
     let g' := Grid.mk (Grid.width g) (Grid.height g)
                 (Grid.store (Grid._key x y) colorId (Grid.cells g))
                 (Grid.push_history (Grid.history g) edit) in
     let change := Grid.mkChange x y colorId (Some old) in
     let ev := Grid.cellChanged change in
     let s' := (AutoPainterSystem.paintNextCell s colorId).1 in
     Grid.setCell g x y colorId true = (g', true, [ev]) ∧
     Grid.getCell g' x y = or_null colorId ∧
     (∀ x' y', (x', y') ≠ (x, y) → Grid.getCell g' x' y' = Grid.getCell g x' y') ∧
     AutoPainterSystem.paintNextCell s colorId
     = ((GameState.grid_setCell s x y colorId true).1, true) ∧
     (GameState.grid_setCell s x y colorId true).1
     = GameState.on_grid_event (after_edit s g') ev ∧
     last (Grid.history g') = Some edit ∧
     ((length (Grid.history g) < Grid.maxHistory)%nat →
      Grid.history g' = Grid.history g ++ [edit]) ∧
     ((Grid.maxHistory ≤ length (Grid.history g))%nat →
      Grid.history g' = tail (Grid.history g) ++ [edit]) ∧
     result_of (Grid.undo g') = true ∧
     (∀ x' y', Grid.getCell (grid_of (Grid.undo g')) x' y'
               = Grid.getCell g x' y') ∧
     GameState.totalCellsFilled (GameState.stats s')
     = GameState.totalCellsFilled (GameState.stats s) + 1 ∧
     (grid_matches g' p → 0 < GameState.reward c →
      GameState.money s' = GameState.money s + GameState.reward c ∧
      GameState.completedContracts s' = GameState.completedContracts s + 1 ∧
      GameState.activeContract s' = None ∧
      Grid.cells (GameState.grid s') = ∅ ∧
      last (GameState.emitted s') = Some (GameState.contractCompleted c)) ∧
     (¬ grid_matches g' p →
      GameState.activeContract s' = Some c ∧ GameState.grid s' = g' ∧
      GameState.money s' = GameState.money s ∧
      GameState.completedContracts s' = GameState.completedContracts s ∧
      last (GameState.emitted s') = Some (GameState.cellChanged change))) ∧
  ((∀ x y, 0 ≤ x < Grid.width g → 0 ≤ y < Grid.height g →
           ¬ needs_paint g p colorId x y) →
   AutoPainterSystem.paintNextCell s colorId = (s, false)) ∧
  ((AutoPainterSystem.paintNextCell s colorId).2 = true ↔
   ∃ x y, 0 ≤ x < Grid.width g ∧ 0 ≤ y < Grid.height g
          ∧ needs_paint g p colorId x y).
Proof.
  intros Hc g p.
  pose proof (scan_rows_grid g p colorId) as Hscan.
  unfold AutoPainterSystem.paintNextCell. rewrite Hc. fold g p.
  destruct (AutoPainterSystem.scan_rows g p colorId (seqZ 0 (Grid.height g)))
    as [[x0 y0]|].
  - destruct Hscan as (Hx0 & Hy0 & Hn0 & Hfirst0).
    split; [|split].
    + intros x y Hx Hy Hn Hfirst. cbv zeta.
      destruct (first_needed_unique g p colorId x y x0 y0) as [-> ->]; try done.
      assert (Grid.isValid g x y = true) as Hv by (by apply isValid_true).
      assert (colorId ≠ Grid.getCell g x y) as Hne
        by (destruct Hn as [_ Hn]; congruence).
      pose proof (setCell_changed g x y colorId Hv Hne) as Hset.
      rewrite Hset.
      split; [done|]. split; [|split].
      { unfold Grid.getCell at 1. unfold Grid.isValid. simpl.
        fold (Grid.isValid g x y). rewrite Hv. simpl.
        apply store_lookup_eq. }
      { intros x' y' Hne'. apply getCell_ext; [done..|]. simpl. intros _.
        rewrite store_lookup_ne; [done|].
        intros [-> ->]%key_inj. done. }
      split; [done|].
      split; [unfold GameState.grid_setCell; fold g; by rewrite Hset|].
      split; [apply last_push_history|].
      split; [by apply push_history_short|].
      split; [by apply push_history_full|].
      destruct (edit_then_undo g x y colorId Hv) as [Hundo Hback].
      split; [exact Hundo|]. split; [exact Hback|].
      cbn [fst].
      assert (result_of (Grid.setCell g x y colorId true) = true) as Hres
        by (by rewrite Hset).
      rewrite (grid_setCell_changed s x y colorId true Hres). fold g.
      rewrite Hset. unfold grid_of. cbn [fst].
      set (g' := Grid.mk _ _ _ _).
      set (s0 := GameState.emit _ _).
      assert (GameState.activeContract s0 = Some c) as Hc0 by done.
      unfold GameState.checkContractCompletion. rewrite Hc0.
      change (GameState.grid s0) with g'. fold p.
      destruct (GameState.check_rows g' p (seqZ 0 (Grid.height g'))
                  (true, false)).1 eqn:E.
      * apply check_rows_matches in E.
        split; [by rewrite completeActiveContract_cellsFilled|].
        split; [|intros Hno; by destruct Hno].
        intros _ Hr.
        destruct (completeActiveContract_spec s0 c Hc0 Hr)
          as (_ & Hm & Hcomp & Ha & Hcells & _ & Hev).
        done.
      * split; [done|]. split.
        -- intros Hm%check_rows_matches. congruence.
        -- intros _. split; [done|]. split; [done|]. split; [done|].
           split; [done|]. subst s0. simpl. apply last_snoc.
    + intros Hnone. destruct (Hnone x0 y0 Hx0 Hy0 Hn0).
    + simpl. split; [|done]. intros _. by exists x0, y0.
  - split; [|split].
    + intros x y Hx Hy Hn. destruct (Hscan x y Hx Hy Hn).
    + done.
    + simpl. split; [done|]. intros (x & y & Hx & Hy & Hn).
      destruct (Hscan x y Hx Hy Hn).
Qed.

Lemma paintNextCell_paints_first_needed_witness :
  let c := GameState.mkContract "contract_1" 1 "Novice"
             [ [Some "black"; Some "white"; None; None];
               [Some "black"; None; None; None];
               [None; None; None; None]; [None; None; None; None] ] 5 3 0 in
  let g1 := grid_of (Grid.setCell (Grid.new 4 4) 0 0 (Some "black") true) in
  let s := after_edit (GameState.setActiveContract GameState.new c) g1 in
  AutoPainterSystem.paintNextCell s (Some "black")
  = ((GameState.grid_setCell s 0 1 (Some "black") true).1, true) ∧
  AutoPainterSystem.paintNextCell s (Some "red") = (s, false).
Proof.
  intros c g1 s. split.
  - destruct (paintNextCell_paints_first_needed s c (Some "black") eq_refl)
      as (H & _).
    destruct (H 0 1) as (_ & _ & _ & Hp & _).
    + vm_compute. split; [discriminate | reflexivity].
    + vm_compute. split; [discriminate | reflexivity].
    + vm_compute. split; [reflexivity | discriminate].
    + intros x' y' Hx' Hy' [Hlt | [-> Hlt]].
      * assert (y' = 0) as -> by (change (0 ≤ y' < 4) in Hy'; lia).
        assert (x' = 0 ∨ x' = 1 ∨ x' = 2 ∨ x' = 3) as [-> | [-> | [-> | ->]]]
          by (change (0 ≤ x' < 4) in Hx'; lia);
          vm_compute; intros [H1 H2]; try discriminate H1; apply H2; reflexivity.
      * lia.
    + exact Hp.
  - destruct (paintNextCell_paints_first_needed s c (Some "red") eq_refl)
      as (_ & H & _).
    apply H. intros x y Hx Hy [Hp _].
    assert (x = 0 ∨ x = 1 ∨ x = 2 ∨ x = 3) as Hxs by (change (0 ≤ x < 4) in Hx; lia).
    assert (y = 0 ∨ y = 1 ∨ y = 2 ∨ y = 3) as Hys by (change (0 ≤ y < 4) in Hy; lia).
    destruct Hxs as [-> | [-> | [-> | ->]]];
      destruct Hys as [-> | [-> | [-> | ->]]]; vm_compute in Hp; discriminate Hp.
Defined.

(** ** ContractSystem: accepting and abandoning *)

Section Lifecycle.

Variable generatePattern :
  GameState.t → Ranks.Rank → Z → list (list color).
Variable now : Z.

(** X15. The life of a contract. [acceptContract] fails, changing nothing,
    when a contract is active or when the target rank is not accessible;
    otherwise it generates a contract of the target rank with a reward of at
    least 1 and a [cellCount] that is the number of non-empty cells of its
    pattern, installs it as the active contract, and leaves an empty store
    and the money as it was. [abandonContract] fails when no contract is
    active; otherwise it drops the contract and leaves an empty store, with
    the money and the count of completed contracts untouched. *)
Theorem contract_lifecycle (cs : ContractSystem.t) (s : GameState.t)
    (rankLevel : option Z) :
  let target := match rankLevel, ContractSystem.selectedRankLevel cs with
                | Some l, _ => l
                | None, Some l => l
                | None, None => ContractSystem.getHighestAccessibleRank s
                end in
  let r := ContractSystem.acceptContract generatePattern now cs s rankLevel in
  (is_Some (GameState.activeContract s) →
   r = (cs, s, ContractSystem.Failure "Already have an active contract")) ∧
  (GameState.activeContract s = None →
   ContractSystem.accessible s (Ranks.getRank target) = false →
   r = (cs, s, ContractSystem.Failure "Cannot access this rank")) ∧
  (GameState.activeContract s = None →
   ContractSystem.accessible s (Ranks.getRank target) = true →
   ∃ c, r.2 = ContractSystem.Success (Some c) ∧
        GameState.activeContract r.1.2 = Some c ∧
        GameState.rankLevel c = Ranks.level (Ranks.getRank target) ∧
        1 ≤ GameState.reward c ∧
        GameState.cellCount c
        = ContractSystem.countPatternCells (GameState.pattern c) ∧
        Grid.cells (GameState.grid r.1.2) = ∅ ∧
        GameState.money r.1.2 = GameState.money s ∧
        ContractSystem.contractIdCounter r.1.1
        = ContractSystem.contractIdCounter cs + 1) ∧
  (GameState.activeContract s = None →
   ContractSystem.abandonContract s
   = (s, ContractSystem.Failure "No active contract")) ∧
  (is_Some (GameState.activeContract s) →
   let s' := (ContractSystem.abandonContract s).1 in
   GameState.activeContract s' = None ∧ Grid.cells (GameState.grid s') = ∅ ∧
   GameState.money s' = GameState.money s ∧
   GameState.completedContracts s' = GameState.completedContracts s).
Proof.
  intros target r. subst r.
  unfold ContractSystem.acceptContract, ContractSystem.abandonContract.
  destruct (GameState.activeContract s) as [c0|] eqn:Hc.
  - split; [done|]. split; [done|]. split; [done|]. split; [done|].
    intros _. unfold GameState.clearContract. simpl.
    pose proof (grid_clear_cells (GameState.set_activeContract s None)) as Hcl.
    pose proof (grid_clear_fields (GameState.set_activeContract s None))
      as (Hm & Ha & Hn & _).
    repeat split; done.
  - split; [by intros [? ?]|].
    assert (match rankLevel with
            | Some l => l
            | None => match ContractSystem.selectedRankLevel cs with
                      | Some l => l
                      | None => ContractSystem.getHighestAccessibleRank s
                      end
            end = target) as ->.
    { subst target. by destruct rankLevel, (ContractSystem.selectedRankLevel cs). }
    unfold ContractSystem.generateContract.
    destruct (ContractSystem.accessible s (Ranks.getRank target)); simpl.
    + split; [done|]. split; [|split; [done|by intros [? ?]]].
      intros _ _. eexists. split; [done|]. simpl.
      unfold GameState.setActiveContract.
      match goal with
      | |- context [GameState.grid_clear ?s0] =>
          pose proof (grid_clear_cells s0) as Hcl;
          pose proof (grid_clear_fields s0) as (Hm & Ha & _ & _)
      end.
      simpl in *. repeat split; try done. lia.
    + split; [done|]. split; [done|]. split; [done|by intros [? ?]].
Qed.

End Lifecycle.

Lemma contract_lifecycle_witness :
  let pat := [ [Some "black"; None; None; None]; [None; None; None; None];
               [None; None; None; None]; [None; None; None; None] ] in
  let r := ContractSystem.acceptContract (λ _ _ _, pat) 0
             ContractSystem.new GameState.new None in
  (∃ c, r.2 = ContractSystem.Success (Some c) ∧
        GameState.activeContract r.1.2 = Some c) ∧
  ContractSystem.acceptContract (λ _ _ _, pat) 0 ContractSystem.new
    GameState.new (Some 5)
  = (ContractSystem.new, GameState.new,
     ContractSystem.Failure "Cannot access this rank").
Proof.
  intros pat r. split.
  - destruct (contract_lifecycle (λ _ _ _, pat) 0 ContractSystem.new
                GameState.new None) as (_ & _ & H & _).
    destruct H as (c & Hc & Ha & _);
      [reflexivity | vm_compute; reflexivity |].
    exists c. split; [exact Hc | exact Ha].
  - destruct (contract_lifecycle (λ _ _ _, pat) 0 ContractSystem.new
                GameState.new (Some 5)) as (_ & H & _).
    apply H; [reflexivity | vm_compute; reflexivity].
Defined.

(** ** GameState: the grid of a game in play *)

Section GameGrid.

Implicit Types (s : GameState.t) (g : Grid.t).

Lemma grid_steps_refl g : grid_steps g g.
Proof. by exists []. Qed.

Lemma grid_steps_trans g1 g2 g3 :
  grid_steps g1 g2 → grid_steps g2 g3 → grid_steps g1 g3.
Proof.
  intros [ops1 ->] [ops2 ->]. exists (ops1 ++ ops2). by rewrite foldl_app.
Qed.

Lemma grid_steps_op g (op : GridOp) : grid_steps g (run_op g op).
Proof. by exists [op]. Qed.

Lemma grid_grid_clear s :
  GameState.grid (GameState.grid_clear s) = run_op (GameState.grid s) OpClear.
Proof.
  unfold GameState.grid_clear. simpl. unfold Grid.clear. by case_decide.
Qed.

Lemma grid_addMoney s (a : Z) :
  GameState.grid (GameState.addMoney s a).1 = GameState.grid s.
Proof. unfold GameState.addMoney. by destruct (a <=? 0). Qed.

Lemma grid_spendMoney s (a : Z) :
  GameState.grid (GameState.spendMoney s a).1 = GameState.grid s.
Proof. unfold GameState.spendMoney. by destruct (_ || _). Qed.

Lemma grid_unlockColor s (c : string) :
  GameState.grid (GameState.unlockColor s c).1 = GameState.grid s.
Proof. unfold GameState.unlockColor. by case_bool_decide. Qed.

Lemma grid_purchaseUpgrade s (id : string) :
  GameState.grid (GameState.purchaseUpgrade s id).1 = GameState.grid s.
Proof. unfold GameState.purchaseUpgrade. simpl. by case_decide. Qed.

Lemma grid_steps_complete s :
  grid_steps (GameState.grid s)
    (GameState.grid (GameState.completeActiveContract s).1).
Proof.
  unfold GameState.completeActiveContract.
  destruct (GameState.activeContract s) as [c|]; [|apply grid_steps_refl].
  cbv zeta. cbn [fst].
  change (GameState.grid (GameState.emit ?s0 ?e)) with (GameState.grid s0).
  rewrite grid_grid_clear.
  cbn [GameState.grid GameState.set_stats GameState.set_completedContracts
       GameState.set_activeContract].
  rewrite grid_addMoney. apply grid_steps_op.
Qed.

Lemma grid_steps_check s :
  grid_steps (GameState.grid s)
    (GameState.grid (GameState.checkContractCompletion s)).
Proof.
  unfold GameState.checkContractCompletion.
  destruct (GameState.activeContract s); [|apply grid_steps_refl].
  destruct (GameState.check_rows _ _ _ _).1; [|apply grid_steps_refl].
  apply grid_steps_complete.
Qed.

Lemma grid_steps_on_grid_event s (e : Grid.Event) :
  grid_steps (GameState.grid s) (GameState.grid (GameState.on_grid_event s e)).
Proof.
  destruct e; simpl; try apply grid_steps_refl;
    by apply (grid_steps_check (GameState.emit (GameState.set_stats s _) _)).
Qed.

Lemma grid_steps_on_grid {R : Type} s (r : Grid.t * R * list Grid.Event) :
  grid_steps (GameState.grid s) (grid_of r) →
  grid_steps (GameState.grid s) (GameState.grid (GameState.on_grid s r).1).
Proof.
  destruct r as [[g res] evs]. unfold grid_of. simpl. intros Hg.
  eapply grid_steps_trans; [exact Hg|].
  change g with (GameState.grid (GameState.set_grid s g)) at 1.
  generalize (GameState.set_grid s g). clear.
  induction evs as [|e evs IH]; intros s; simpl; [apply grid_steps_refl|].
  eapply grid_steps_trans; [apply grid_steps_on_grid_event|apply IH].
Qed.

Lemma grid_steps_expandGrid s (w h : Z) :
  grid_steps (GameState.grid s) (GameState.grid (GameState.expandGrid s w h).1).
Proof.
  unfold GameState.expandGrid.
  pose proof (grid_steps_on_grid s (Grid.expand (GameState.grid s) w h)
                (grid_steps_op _ (OpExpand w h))) as H.
  destruct (GameState.on_grid s (Grid.expand (GameState.grid s) w h))
    as [s1 success].
  by destruct success.
Qed.

(** Every call of the game edits the grid through the operations of the
    grid. *)
Lemma grid_steps_run_game s (call : GameCall) :
  grid_steps (GameState.grid s) (GameState.grid (run_game s call)).
Proof.
  destruct call; cbn [run_game].
  - rewrite grid_addMoney. apply grid_steps_refl.
  - rewrite grid_spendMoney. apply grid_steps_refl.
  - rewrite grid_unlockColor. apply grid_steps_refl.
  - unfold GameState.selectColor. destruct (negb _); apply grid_steps_refl.
  - rewrite grid_purchaseUpgrade. apply grid_steps_refl.
  - unfold GameState.setAutomationEnabled. case_decide; [apply grid_steps_refl|].
    destruct (negb _); apply grid_steps_refl.
  - apply grid_steps_on_grid, (grid_steps_op _ (OpSetCell x y c recordHistory)).
  - apply grid_steps_on_grid, (grid_steps_op _ OpUndo).
  - apply grid_steps_expandGrid.
  - unfold GameState.setActiveContract.
    change (GameState.grid (GameState.emit ?s0 ?e)) with (GameState.grid s0).
    rewrite grid_grid_clear. apply grid_steps_op.
  - unfold GameState.clearContract.
    change (GameState.grid (GameState.emit ?s0 ?e)) with (GameState.grid s0).
    rewrite grid_grid_clear. apply grid_steps_op.
  - apply grid_steps_complete.
  - unfold ShopSystem.buyGridExpansion.
    destruct (ShopSystem.getNextExpansion s) as [next|]; [|apply grid_steps_refl].
    destruct (negb _); cbn [fst]; [apply grid_steps_refl|].
    eapply grid_steps_trans; [|apply grid_steps_expandGrid].
    rewrite grid_spendMoney. apply grid_steps_refl.
  - unfold ShopSystem.buyColor. destruct (negb _); cbn [fst]; [apply grid_steps_refl|].
    rewrite grid_unlockColor, grid_spendMoney. apply grid_steps_refl.
  - unfold ShopSystem.buyUpgrade. destruct (negb _); cbn [fst]; [apply grid_steps_refl|].
    rewrite grid_purchaseUpgrade. unfold ShopSystem.spend.
    destruct (ShopSystem.getUpgradePrice s upgradeId);
      [rewrite grid_spendMoney|]; apply grid_steps_refl.
  - unfold AutoPainterSystem.paintNextCell.
    destruct (GameState.activeContract s); [|apply grid_steps_refl].
    destruct (AutoPainterSystem.scan_rows _ _ _ _) as [[x y]|];
      [|apply grid_steps_refl].
    cbn [fst].
    apply grid_steps_on_grid, (grid_steps_op _ (OpSetCell x y colorId true)).
  - apply grid_steps_on_grid, (grid_steps_op _ (OpSetCells changes recordHistory)).
  - rewrite grid_grid_clear. apply grid_steps_op.
  - apply grid_steps_check.
Qed.



(** The keys of the store of a session are keys of coordinates, so a
    session can always be saved: the load of a session is a load. *)
Lemma play_keys (p : Session) :
  keys_of_coordinates (Grid.cells (GameState.grid (play p))).
Proof.
  induction p as [|before IH call|before IH saved IHsaved]; cbn [play].
  - intros k c Hk. simpl in Hk. by rewrite lookup_empty in Hk.
  - destruct (grid_steps_run_game (play before) call) as [ops ->].
    revert IH. generalize (GameState.grid (play before)).
    induction ops as [|op ops IHops]; intros g Hg; simpl; [done|].
    apply IHops. by apply (run_call_keys g (CallEdit op)).
  - destruct (GameState.serialize (play saved)) as [d|]; [|done].
    unfold GameState.deserialize.
    destruct (_ && _); [done|].
    set (s1 := if _ || _ then _ else _).
    assert (keys_of_coordinates (Grid.cells (GameState.grid s1))) as H1.
    { subst s1. destruct (_ || _); [|done].
      destruct (grid_steps_on_grid (play before)
                  (Grid.expand (GameState.grid (play before))
                     (Grid.num_or (GameState.d_grid d ≫= Grid.d_width) 4)
                     (Grid.num_or (GameState.d_grid d ≫= Grid.d_height) 4))
                  (grid_steps_op _ (OpExpand _ _))) as [ops ->].
      revert IH. generalize (GameState.grid (play before)).
      induction ops as [|op ops IHops]; intros g Hg; simpl; [done|].
      apply IHops. by apply (run_call_keys g (CallEdit op)). }
    destruct (GameState.d_grid d) as [gd|]; [|done].
    pose proof (run_call_keys (GameState.grid s1) (CallDeserialize gd) H1) as H2.
    clearbody s1. unfold run_call, Grid.deserialize in *. simpl in *. exact H2.
Qed.

Lemma play_serialize (p : Session) : is_Some (GameState.serialize (play p)).
Proof.
  destruct (cell_entries_load _ (play_keys p)) as (l & Hl & _).
  unfold GameState.serialize, Grid.serialize. rewrite Hl. by eexists.
Qed.

End GameGrid.



(** ** Ranks: the ladder *)

Section RankLadder.

Implicit Types (s : GameState.t) (u : gset string).

Lemma rank_le_sound (r1 r2 : Ranks.Rank) (completed size : Z) u :
  rank_le r1 r2 = true →
  Ranks.canAccessRank r2 completed size u = true →
  Ranks.canAccessRank r1 completed size u = true.
Proof.
  unfold rank_le. intros [[Hc Hg]%andb_prop Hcol]%andb_prop.
  apply Z.leb_le in Hc, Hg. rewrite forallb_forall in Hcol.
  rewrite !canAccessRank_true. intros (? & ? & Hall).
  split; [lia|]. split; [lia|]. intros c Hin. apply Hall.
  apply list_elem_of_In in Hin. specialize (Hcol c Hin).
  by apply bool_decide_eq_true in Hcol.
Qed.

(** Each rank of the catalog asks for everything the rank below asks for. *)
Lemma rank_le_succ (lvl : Z) :
  1 ≤ lvl < 10 → rank_le (Ranks.getRank lvl) (Ranks.getRank (lvl + 1)) = true.
Proof.
  intros Hl.
  assert (lvl = 1 ∨ lvl = 2 ∨ lvl = 3 ∨ lvl = 4 ∨ lvl = 5 ∨ lvl = 6 ∨ lvl = 7
          ∨ lvl = 8 ∨ lvl = 9) as Hcases by lia.
  repeat (destruct Hcases as [->|Hcases]; [vm_compute; reflexivity|]).
  subst. vm_compute. reflexivity.
Qed.

Lemma canAccessRank_lower (lvl lvl' completed size : Z) u :
  1 ≤ lvl ≤ lvl' → lvl' ≤ 10 →
  Ranks.canAccessRank (Ranks.getRank lvl') completed size u = true →
  Ranks.canAccessRank (Ranks.getRank lvl) completed size u = true.
Proof.
  intros Hl Hl'.
  assert (lvl' = lvl + Z.of_nat (Z.to_nat (lvl' - lvl))) as Heq by lia.
  revert Heq Hl'. generalize (Z.to_nat (lvl' - lvl)). intros n -> Hn.
  assert (1 ≤ lvl) as Hl1 by lia. clear Hl. revert Hn.
  induction n as [|n IH]; intros Hn.
  - by rewrite Z.add_0_r.
  - intros Hacc. apply IH; [lia|].
    apply (rank_le_sound _ (Ranks.getRank (lvl + Z.of_nat n + 1))).
    + apply rank_le_succ. lia.
    + by replace (lvl + Z.of_nat n + 1) with (lvl + Z.of_nat (S n)) by lia.
Qed.

(** The loop of [getHighestAccessibleRank] on the levels [a, a + n). *)
Lemma highest_loop_spec s (n : nat) (a hi : Z) :
  let r := ContractSystem.highest_loop s (seqZ a (Z.of_nat n)) hi in
  (r = hi ∧ (n = 0%nat
             ∨ ContractSystem.accessible s (Ranks.getRank a) = false)) ∨
  (a ≤ r < a + Z.of_nat n ∧
   (∀ l, a ≤ l ≤ r → ContractSystem.accessible s (Ranks.getRank l) = true) ∧
   (r + 1 < a + Z.of_nat n →
    ContractSystem.accessible s (Ranks.getRank (r + 1)) = false)).
Proof.
  revert a hi. induction n as [|n IH]; intros a hi.
  - left. rewrite seqZ_nil by lia. simpl. auto.
  - rewrite seqZ_cons by lia. simpl.
    replace (Z.pred (Z.of_nat (S n))) with (Z.of_nat n) by lia.
    destruct (ContractSystem.accessible s (Ranks.getRank a)) eqn:Ha;
      [|left; auto].
    right. destruct (IH (Z.succ a) a) as [[-> Hstop]|(Hr & Hall & Hnext)].
    + split; [lia|]. split.
      * intros l Hl. by replace l with a by lia.
      * intros Hlt. destruct Hstop as [->|Hstop]; [lia|].
        by replace (a + 1) with (Z.succ a) by lia.
    + split; [lia|]. split.
      * intros l Hl. destruct (decide (l = a)) as [->|?]; [done|].
        apply Hall. lia.
      * intros Hlt. apply Hnext. lia.
Qed.

End RankLadder.

(** X17. The ranks of the catalog form a ladder: a snapshot that gives
    access to a rank gives access to every lower rank.
    [getHighestAccessibleRank] returns a level between 1 and 10; when rank 1
    is accessible, the ranks up to the returned level are exactly the
    accessible ones; when rank 1 is not accessible, it returns 1 all the
    same. *)
Theorem highest_rank_is_top_of_ladder (s : GameState.t) :
  let h := ContractSystem.getHighestAccessibleRank s in
  (∀ lvl lvl', 1 ≤ lvl ≤ lvl' → lvl' ≤ 10 →
     ContractSystem.accessible s (Ranks.getRank lvl') = true →
     ContractSystem.accessible s (Ranks.getRank lvl) = true) ∧
  1 ≤ h ≤ 10 ∧
  (ContractSystem.accessible s (Ranks.getRank 1) = true →
   ∀ l, 1 ≤ l ≤ 10 →
        (ContractSystem.accessible s (Ranks.getRank l) = true ↔ l ≤ h)) ∧
  (ContractSystem.accessible s (Ranks.getRank 1) = false → h = 1).
Proof.
  intros h.
  assert (∀ lvl lvl', 1 ≤ lvl ≤ lvl' → lvl' ≤ 10 →
            ContractSystem.accessible s (Ranks.getRank lvl') = true →
            ContractSystem.accessible s (Ranks.getRank lvl) = true) as Hdown.
  { intros lvl lvl' ? ?. by apply canAccessRank_lower. }
  split; [done|].
  pose proof (highest_loop_spec s 10 1 1) as Hloop.
  change (ContractSystem.highest_loop s (seqZ 1 (Z.of_nat 10)) 1) with h in Hloop.
  simpl in Hloop.
  destruct Hloop as [[Hh [?|Hno]]|(Hr & Hall & Hnext)]; [done|..].
  - split; [lia|]. split; [congruence|done].
  - split; [lia|]. split; [|intros Hno; rewrite Hall in Hno; [done|lia]].
    intros _ l Hl. split.
    + intros Hacc. destruct (decide (l ≤ h)) as [?|Hgt]; [done|].
      rewrite (Hdown (h + 1) l) in Hnext; [|lia|lia|done].
      assert (true = false) as Habs by (apply Hnext; lia). done.
    + intros Hle. apply Hall. lia.
Qed.

Lemma highest_rank_is_top_of_ladder_witness :
  ContractSystem.accessible GameState.new (Ranks.getRank 2) = false ∧
  ContractSystem.accessible GameState.new (Ranks.getRank 1) = true.
Proof.
  destruct (highest_rank_is_top_of_ladder GameState.new) as (Hdown & _ & H & _).
  assert (ContractSystem.accessible GameState.new (Ranks.getRank 1) = true)
    as H1 by (vm_compute; reflexivity).
  split; [|exact H1].
  destruct (ContractSystem.accessible GameState.new (Ranks.getRank 2)) eqn:E;
    [|reflexivity].
  apply (H H1 2) in E; [|lia]. vm_compute in E. destruct E. reflexivity.
Defined.

Section RankQueries.

Implicit Types (s : GameState.t).

(** The loop of [getAvailableRanks] keeps the accessible ranks, in order. *)
Lemma available_loop s (levels : list Z) (acc : list Ranks.Rank) :
  foldl (λ available level,
           let rank := Ranks.getRank level in
           if ContractSystem.accessible s rank
           then available ++ [rank] else available) acc levels
  = acc ++ filter (λ r, ContractSystem.accessible s r = true)
             (Ranks.getRank <$> levels).
Proof.
  revert acc. induction levels as [|l levels IH]; intros acc; simpl.
  - by rewrite app_nil_r.
  - rewrite IH. rewrite filter_cons.
    destruct (ContractSystem.accessible s (Ranks.getRank l)) eqn:Ha.
    + rewrite decide_True by done. by rewrite <-app_assoc.
    + rewrite decide_False by done. done.
Qed.

Lemma filter_accessible_all s (levels : list Z) :
  (∀ l, l ∈ levels → ContractSystem.accessible s (Ranks.getRank l) = true) →
  filter (λ r, ContractSystem.accessible s r = true) (Ranks.getRank <$> levels)
  = Ranks.getRank <$> levels.
Proof.
  induction levels as [|l levels IH]; intros Hall; [done|].
  rewrite fmap_cons, filter_cons, decide_True by (apply Hall; by left).
  rewrite IH; [done|]. intros l' Hl'. apply Hall. by right.
Qed.

Lemma filter_accessible_none s (levels : list Z) :
  (∀ l, l ∈ levels → ContractSystem.accessible s (Ranks.getRank l) = false) →
  filter (λ r, ContractSystem.accessible s r = true) (Ranks.getRank <$> levels)
  = [].
Proof.
  induction levels as [|l levels IH]; intros Hall; [done|].
  rewrite fmap_cons, filter_cons, decide_False.
  - apply IH. intros l' Hl'. apply Hall. by right.
  - rewrite Hall by (by left). done.
Qed.

End RankQueries.

(** X18. [getAvailableRanks] lists, in ascending order, the ranks of the
    levels 1 to [getHighestAccessibleRank()] when rank 1 is accessible, and
    nothing when it is not. *)
Theorem available_ranks_are_a_prefix (s : GameState.t) :
  (ContractSystem.accessible s (Ranks.getRank 1) = true →
   ContractSystem.getAvailableRanks s
   = Ranks.getRank <$> seqZ 1 (ContractSystem.getHighestAccessibleRank s)) ∧
  (ContractSystem.accessible s (Ranks.getRank 1) = false →
   ContractSystem.getAvailableRanks s = []).
Proof.
  destruct (highest_loop_spec s 10 1 1) as [[Hh [?|Hno]]|(Hr & Hall & Hnext)];
    [done|..];
    change (ContractSystem.highest_loop s (seqZ 1 (Z.of_nat 10)) 1)
      with (ContractSystem.getHighestAccessibleRank s) in *;
    unfold ContractSystem.getAvailableRanks; rewrite available_loop;
    change Ranks.getMaxRank with 10; rewrite app_nil_l.
  - split; [congruence|]. intros _. apply filter_accessible_none.
    intros l Hl%elem_of_seqZ.
    destruct (ContractSystem.accessible s (Ranks.getRank l)) eqn:E; [|done].
    assert (ContractSystem.accessible s (Ranks.getRank 1) = true) as H1
      by (apply (canAccessRank_lower 1 l); [lia|lia|exact E]).
    congruence.
  - set (h := ContractSystem.getHighestAccessibleRank s) in *.
    split; [|intros Hno; rewrite Hall in Hno; [done|lia]]. intros _.
    replace 10 with (h + (10 - h)) at 1 by lia.
    rewrite seqZ_app by lia. rewrite fmap_app, filter_app.
    rewrite filter_accessible_all, filter_accessible_none.
    + by rewrite app_nil_r.
    + intros l Hl%elem_of_seqZ.
      destruct (ContractSystem.accessible s (Ranks.getRank l)) eqn:E; [|done].
      assert (ContractSystem.accessible s (Ranks.getRank (h + 1)) = true) as H1
        by (apply (canAccessRank_lower (h + 1) l); [lia|lia|exact E]).
      rewrite Hnext in H1; [done|simpl in Hr; lia].
    + intros l Hl%elem_of_seqZ. apply Hall. lia.
Qed.

Lemma available_ranks_are_a_prefix_witness :
  ContractSystem.getAvailableRanks GameState.new = [Ranks.getRank 1].
Proof.
  destruct (available_ranks_are_a_prefix GameState.new) as [H _].
  etrans; [apply H; vm_compute; reflexivity|]. vm_compute. reflexivity.
Defined.

(** Nothing is reported missing exactly when the rank is accessible. *)
Lemma nothing_missing_iff (rank : Ranks.Rank) (completed size : Z)
    (unlocked : gset string) :
  let m := Ranks.getMissingRequirements rank completed size unlocked in
  Ranks.canAccessRank rank completed size unlocked = true ↔
  Ranks.m_contracts m = 0 ∧ Ranks.m_gridSize m = None ∧ Ranks.m_colors m = [].
Proof.
  unfold Ranks.getMissingRequirements. simpl.
  rewrite canAccessRank_true. split.
  - intros (Hc & Hg & Hcol). split; [lia|]. split.
    + destruct (Z.ltb_spec size (Ranks.minGridSize rank)); [lia|done].
    + induction (Ranks.requiredColors rank) as [|c cs IH]; [done|].
      rewrite filter_cons, decide_False.
      * apply IH. intros c' Hc'. apply Hcol. by right.
      * intros Hout. apply Hout, Hcol. by left.
  - intros (Hc & Hg & Hcol). split; [lia|]. split.
    + destruct (Z.ltb_spec size (Ranks.minGridSize rank)); [done|lia].
    + intros c Hin. destruct (decide (c ∈ unlocked)) as [|Hout]; [done|].
      assert (c ∈ filter (λ c, c ∉ unlocked) (Ranks.requiredColors rank))
        as Hf by (by apply list_elem_of_filter).
      rewrite Hcol in Hf. by apply elem_of_nil in Hf.
Qed.

(** X19. [getMissingRequirements] reports nothing missing — no contracts, no
    grid size, no colour — exactly when [canAccessRank] grants the rank on
    the same snapshot. The number of contracts it reports is the shortfall:
    what the completed contracts lack of the required ones, and 0 when they
    lack nothing. The grid size it reports is the required one when the
    grid is smaller, and [null] otherwise. The colours it lists are the
    required colours that are not unlocked, in the order of the rank's
    list. *)
Theorem missing_requirements_match_access (rank : Ranks.Rank)
    (completed size : Z) (unlocked : gset string) :
  let m := Ranks.getMissingRequirements rank completed size unlocked in
  (Ranks.canAccessRank rank completed size unlocked = true ↔
   Ranks.m_contracts m = 0 ∧ Ranks.m_gridSize m = None ∧ Ranks.m_colors m = []) ∧
  0 ≤ Ranks.m_contracts m ∧
  Ranks.contractsRequired rank ≤ completed + Ranks.m_contracts m ∧
  (completed < Ranks.contractsRequired rank →
   completed + Ranks.m_contracts m = Ranks.contractsRequired rank) ∧
  (Ranks.contractsRequired rank ≤ completed → Ranks.m_contracts m = 0) ∧
  (∀ c, c ∈ Ranks.m_colors m ↔ c ∈ Ranks.requiredColors rank ∧ c ∉ unlocked) ∧
  Ranks.m_colors m `sublist_of` Ranks.requiredColors rank ∧
  (∀ n, Ranks.m_gridSize m = Some n → n = Ranks.minGridSize rank ∧ size < n) ∧
  (size < Ranks.minGridSize rank →
   Ranks.m_gridSize m = Some (Ranks.minGridSize rank)) ∧
  (Ranks.minGridSize rank ≤ size → Ranks.m_gridSize m = None).
Proof.
  intros m. subst m. split; [apply nothing_missing_iff|].
  unfold Ranks.getMissingRequirements. simpl.
  split; [lia|]. split; [lia|]. split; [lia|]. split; [lia|].
  split; [|split; [apply sublist_filter|split; [|split]]].
  4:{ intros Hle. destruct (Z.ltb_spec size (Ranks.minGridSize rank)); [lia|done]. }
  3:{ intros Hlt. destruct (Z.ltb_spec size (Ranks.minGridSize rank)); [done|lia]. }
  - intros c. rewrite list_elem_of_filter. split; by intros [? ?].
  - intros n. destruct (Z.ltb_spec size (Ranks.minGridSize rank)); [|done].
    intros [= <-]. done.
Qed.

(** ** ContractSystem: generated contracts *)

Section Generated.

Variable generatePattern :
  GameState.t → Ranks.Rank → Z → list (list color).
Variable now : Z.



End Generated.


(** ** The shop *)

Section Shop.

Implicit Types (s : GameState.t).

Lemma getColorPrice_nonneg (colorId : string) :
  0 ≤ ShopSystem.getColorPrice colorId.
Proof.
  unfold ShopSystem.getColorPrice, Colors.cost, Grid.num_or.
  destruct (find _ Colors.COLORS) as [[c n]|] eqn:Hf; simpl; [|done].
  case_decide; [done|].
  apply find_some in Hf as [Hin _]. simpl in Hin.
  repeat (destruct Hin as [[= <- <-]|Hin]; [lia|]). destruct Hin.
Qed.

Lemma spendMoney_affordable s (amount : Z) :
  0 ≤ amount ≤ GameState.money s →
  GameState.money (GameState.spendMoney s amount).1 = GameState.money s - amount
  ∧ GameState.unlockedColors (GameState.spendMoney s amount).1
    = GameState.unlockedColors s
  ∧ GameState.upgrades (GameState.spendMoney s amount).1 = GameState.upgrades s
  ∧ GameState.gridLevel (GameState.spendMoney s amount).1 = GameState.gridLevel s
  ∧ GameState.grid (GameState.spendMoney s amount).1 = GameState.grid s.
Proof.
  intros Ha. unfold GameState.spendMoney.
  destruct (Z.leb_spec amount 0); simpl; [repeat split; lia|].
  destruct (Z.ltb_spec (GameState.money s) amount); simpl; [lia|done].
Qed.

(** The tiers of the catalog: each tier below the last has a next tier, one
    level up, larger, and with a positive cost. *)
Lemma next_expansion (e : Upgrades.Expansion) :
  e ∈ Upgrades.GRID_EXPANSIONS →
  (Upgrades.e_level e = 16 ∧
   Upgrades.getNextGridExpansion (Upgrades.e_level e) = None) ∨
  (∃ next, Upgrades.getNextGridExpansion (Upgrades.e_level e) = Some next ∧
           next ∈ Upgrades.GRID_EXPANSIONS ∧
           Upgrades.e_level next = Upgrades.e_level e + 1 ∧
           Upgrades.e_size e < Upgrades.e_size next ∧
           0 < Upgrades.e_cost next).
Proof.
  intros Hin. apply list_elem_of_In in Hin. simpl in Hin.
  repeat (destruct Hin as [<-|Hin];
          [first [left; split; reflexivity
                 | right; eexists; split; [reflexivity|];
                   split; [apply list_elem_of_In; simpl; tauto|];
                   split; [reflexivity|]; split; reflexivity]|]).
  destruct Hin.
Qed.

End Shop.

(** X21. [buyColor] fails, changing nothing, when the colour is already
    unlocked or costs more than the balance; otherwise it takes the price
    off the money and unlocks the colour. The price is the catalog cost,
    never negative, and 0 for an id that the catalog does not have: such a
    colour is unlocked for free. *)
Theorem buyColor_pays_and_unlocks (s : GameState.t) (colorId : string) :
  let price := ShopSystem.getColorPrice colorId in
  let r := ShopSystem.buyColor s colorId in
  0 ≤ price ∧
  (Colors.cost colorId = None → price = 0) ∧
  (colorId ∈ GameState.unlockedColors s ∨ GameState.money s < price →
   r = (s, ShopSystem.Failure "Cannot afford or already owned")) ∧
  (colorId ∉ GameState.unlockedColors s → price ≤ GameState.money s →
   r.2 = ShopSystem.BoughtColor colorId price ∧
   GameState.money r.1 = GameState.money s - price ∧
   GameState.unlockedColors r.1 = GameState.unlockedColors s ∪ {[ colorId ]}).
Proof.
  intros price r. subst r.
  pose proof (getColorPrice_nonneg colorId) as Hp. fold price in Hp.
  split; [done|]. split; [|split].
  - intros Hn. subst price. unfold ShopSystem.getColorPrice. by rewrite Hn.
  - intros Hfail. unfold ShopSystem.buyColor, ShopSystem.canBuyColor,
      GameState.hasColor. fold price.
    destruct Hfail as [Hin|Hlt].
    + by rewrite bool_decide_eq_true_2.
    + case_bool_decide; [done|].
      destruct (Z.leb_spec price (GameState.money s)); [lia|done].
  - intros Hout Hle. unfold ShopSystem.buyColor, ShopSystem.canBuyColor,
      GameState.hasColor. fold price.
    rewrite bool_decide_eq_false_2 by done.
    destruct (Z.leb_spec price (GameState.money s)); [|lia].
    cbn [negb fst snd].
    destruct (spendMoney_affordable s price) as (Hm & Hu & _); [lia|].
    unfold GameState.unlockColor. rewrite Hu.
    rewrite bool_decide_eq_false_2 by done.
    cbn [fst snd GameState.emit GameState.set_unlockedColors GameState.money
         GameState.unlockedColors].
    by rewrite Hm.
Qed.

Lemma buyColor_pays_and_unlocks_witness :
  let s := (GameState.addMoney GameState.new 100).1 in
  GameState.money (ShopSystem.buyColor s "red").1 = 50 ∧
  "red" ∈ GameState.unlockedColors (ShopSystem.buyColor s "red").1 ∧
  ShopSystem.buyColor s "black"
  = (s, ShopSystem.Failure "Cannot afford or already owned").
Proof.
  intros s. split; [|split].
  - destruct (buyColor_pays_and_unlocks s "red") as (_ & _ & _ & H).
    destruct H as (_ & Hm & _);
      [vm_compute; intros H; discriminate H
      | vm_compute; intros H; discriminate H |].
    etrans; [exact Hm|]. vm_compute. reflexivity.
  - destruct (buyColor_pays_and_unlocks s "red") as (_ & _ & _ & H).
    destruct H as (_ & _ & Hu);
      [vm_compute; intros H; discriminate H
      | vm_compute; intros H; discriminate H |].
    rewrite Hu. apply elem_of_union_r. apply elem_of_singleton. reflexivity.
  - destruct (buyColor_pays_and_unlocks s "black") as (_ & _ & H & _).
    apply H. left. vm_compute. reflexivity.
Defined.

(** X22. On a game whose grid is the square of its expansion tier,
    [buyGridExpansion] fails, changing nothing, at the last tier (16) and
    when the next tier costs more than the balance; otherwise it takes the
    cost off the money, raises the grid level by one and makes the grid the
    strictly larger square of the next tier, keeping the stored cells. The
    grid is again the square of its tier afterwards. *)
Theorem buyGridExpansion_advances_tier (s : GameState.t) :
  grid_in_step s →
  let r := ShopSystem.buyGridExpansion s in
  (GameState.gridLevel s = 16 →
   r = (s, ShopSystem.Failure "Max grid size reached")) ∧
  (∀ next, ShopSystem.getNextExpansion s = Some next →
     (GameState.money s < Upgrades.e_cost next →
      r = (s, ShopSystem.Failure "Cannot afford")) ∧
     (Upgrades.e_cost next ≤ GameState.money s →
      GameState.money r.1 = GameState.money s - Upgrades.e_cost next ∧
      GameState.gridLevel r.1 = GameState.gridLevel s + 1 ∧
      Grid.width (GameState.grid r.1) = Upgrades.e_size next ∧
      Grid.height (GameState.grid r.1) = Upgrades.e_size next ∧
      Grid.width (GameState.grid s) < Grid.width (GameState.grid r.1) ∧
      Grid.cells (GameState.grid r.1) = Grid.cells (GameState.grid s) ∧
      grid_in_step r.1)) ∧
  (GameState.gridLevel s ≠ 16 → is_Some (ShopSystem.getNextExpansion s)).
Proof.
  intros (e & Hin & Hlvl & Hw & Hh) r. subst r.
  unfold ShopSystem.buyGridExpansion, ShopSystem.canBuyGridExpansion,
    ShopSystem.getNextExpansion. rewrite <-Hlvl.
  destruct (next_expansion e Hin)
    as [[H16 Hnone]|(next & Hnext & Hnin & Hnl & Hsz & Hcost)].
  - rewrite Hnone. split; [done|]. split; [done|]. intros Hne. by destruct Hne.
  - rewrite Hnext. split; [|split; [|by eexists]].
    { intros H16.
      assert (Upgrades.e_level next = 17) as H17 by lia.
      apply list_elem_of_In in Hnin. simpl in Hnin.
      repeat (destruct Hnin as [<-|Hnin]; [discriminate H17|]). destruct Hnin. }
    intros ? [= <-]. split.
    + intros Hlt. destruct (Z.leb_spec (Upgrades.e_cost next) (GameState.money s));
        [lia|done].
    + intros Hle.
      destruct (Z.leb_spec (Upgrades.e_cost next) (GameState.money s)); [|lia].
      simpl.
      destruct (spendMoney_affordable s (Upgrades.e_cost next))
        as (Hm & _ & _ & Hgl & Hg); [lia|].
      set (s1 := (GameState.spendMoney s (Upgrades.e_cost next)).1) in *.
      unfold GameState.expandGrid, GameState.on_grid, Grid.expand.
      rewrite Hg, Hw, Hh.
      destruct (Z.ltb_spec (Upgrades.e_size next) (Upgrades.e_size e)); [lia|].
      simpl. rewrite Hm, Hgl, Hlvl.
      repeat split; try done; try lia.
      exists next. simpl. repeat split; try done. lia.
Qed.

Lemma buyGridExpansion_advances_tier_witness :
  let s := (GameState.addMoney GameState.new 60).1 in
  GameState.money (ShopSystem.buyGridExpansion s).1 = 10 ∧
  Grid.width (GameState.grid (ShopSystem.buyGridExpansion s).1) = 6.
Proof.
  intros s.
  assert (grid_in_step s) as Hstep.
  { exists (Upgrades.mkExpansion 1 4 0). split; [|repeat split].
    apply list_elem_of_In. simpl. tauto. }
  destruct (buyGridExpansion_advances_tier s Hstep) as (_ & H & _).
  destruct (H (Upgrades.mkExpansion 2 6 50) eq_refl) as [_ H2].
  destruct H2 as (Hm & _ & Hw & _); [vm_compute; discriminate|].
  split; [etrans; [exact Hm|]; vm_compute; reflexivity | exact Hw].
Defined.

Section ShopUpgrades.

Implicit Types (s : GameState.t).

(** What [canBuyUpgrade] checks, for an id that the shop prices. *)
Lemma canBuyUpgrade_true s (upgradeId : string) :
  ShopSystem.canBuyUpgrade s upgradeId = true →
  ∃ b m cap,
    pricing upgradeId = Some (b, m) ∧ level_cap upgradeId = Some cap ∧
    GameState.getUpgradeLevel s upgradeId < cap ∧
    ShopSystem.getUpgradePrice s upgradeId
    = Upgrades.Finite
        (Upgrades.cost_at b m (GameState.getUpgradeLevel s upgradeId)) ∧
    Upgrades.cost_at b m (GameState.getUpgradeLevel s upgradeId)
    ≤ GameState.money s.
Proof.
  unfold ShopSystem.canBuyUpgrade, pricing, level_cap,
    ShopSystem.getUpgradePrice, Upgrades.getUpgradeCost.
  destruct (Upgrades.isAutoPainterUpgrade upgradeId).
  - destruct (negb _); [done|].
    destruct (Z.leb_spec Upgrades.AUTO_PAINTER_maxLevel
                (GameState.getUpgradeLevel s upgradeId)); [done|].
    simpl. intros Hle%Z.leb_le. eexists _, _, _. by repeat split.
  - destruct (Upgrades.UPGRADES_get upgradeId) as [u|]; [|done].
    destruct (Z.leb_spec (Upgrades.maxLevel u)
                (GameState.getUpgradeLevel s upgradeId)); [done|].
    destruct (negb _); [done|].
    simpl. intros Hle%Z.leb_le. eexists _, _, _. by repeat split.
Qed.

Lemma canBuyUpgrade_capped s (upgradeId : string) :
  match level_cap upgradeId with
  | Some cap =>
      cap ≤ GameState.getUpgradeLevel s upgradeId →
      ShopSystem.canBuyUpgrade s upgradeId = false
  | None => ShopSystem.canBuyUpgrade s upgradeId = false
  end.
Proof.
  unfold ShopSystem.canBuyUpgrade, level_cap.
  destruct (Upgrades.isAutoPainterUpgrade upgradeId).
  - intros Hcap. destruct (negb _); [done|].
    destruct (Z.leb_spec Upgrades.AUTO_PAINTER_maxLevel
                (GameState.getUpgradeLevel s upgradeId)); [done|lia].
  - destruct (Upgrades.UPGRADES_get upgradeId) as [u|]; simpl; [|done].
    intros Hcap.
    destruct (Z.leb_spec (Upgrades.maxLevel u)
                (GameState.getUpgradeLevel s upgradeId)); [done|lia].
Qed.

End ShopUpgrades.

(** X23. [buyUpgrade] fails, changing nothing, when [canBuyUpgrade] says no,
    which it does for an id that is no upgrade and for an upgrade at or
    above its maximum level. When it succeeds on an upgrade whose level is
    not negative, the price is [getUpgradeCost] at the current level, it is
    positive and within the balance, the money drops by exactly the price,
    the level rises by one and stays within the maximum level. *)
Theorem buyUpgrade_stays_within_cap (s : GameState.t) (upgradeId : string) :
  0 ≤ GameState.getUpgradeLevel s upgradeId →
  let level := GameState.getUpgradeLevel s upgradeId in
  let r := ShopSystem.buyUpgrade s upgradeId in
  (ShopSystem.canBuyUpgrade s upgradeId = false →
   r = (s, ShopSystem.Failure
             "Cannot afford, max level reached, or requirements not met")) ∧
  (ShopSystem.canBuyUpgrade s upgradeId = true →
   ∃ price cap,
     Upgrades.getUpgradeCost upgradeId level = Upgrades.Finite price ∧
     level_cap upgradeId = Some cap ∧
     0 < price ≤ GameState.money s ∧
     r.2 = ShopSystem.BoughtUpgrade upgradeId (Upgrades.Finite price) ∧
     GameState.money r.1 = GameState.money s - price ∧
     GameState.getUpgradeLevel r.1 upgradeId = level + 1 ∧
     level + 1 ≤ cap) ∧
  (∀ cap, level_cap upgradeId = Some cap → cap ≤ level →
          ShopSystem.canBuyUpgrade s upgradeId = false) ∧
  (level_cap upgradeId = None → ShopSystem.canBuyUpgrade s upgradeId = false).
Proof.
  intros Hlvl level r. subst r.
  split; [|split; [|split]].
  - intros Hno. unfold ShopSystem.buyUpgrade. by rewrite Hno.
  - intros Hyes. unfold ShopSystem.buyUpgrade. rewrite Hyes.
    destruct (canBuyUpgrade_true s upgradeId Hyes)
      as (b & m & cap & Hp & Hcap & Hlt & Hprice & Hle).
    fold level in Hlt, Hprice, Hle.
    pose proof (pricing_positive upgradeId b m level Hp Hlvl) as Hpos.
    exists (Upgrades.cost_at b m level), cap.
    cbn [negb fst snd]. rewrite Hprice. cbn [ShopSystem.spend].
    destruct (spendMoney_affordable s (Upgrades.cost_at b m level))
      as (Hm & _ & Hup & _); [lia|].
    set (s1 := (GameState.spendMoney s (Upgrades.cost_at b m level)).1) in *.
    assert (GameState.getUpgradeLevel s1 upgradeId = level) as Hl1.
    { unfold GameState.getUpgradeLevel. by rewrite Hup. }
    split; [exact Hprice|]. split; [done|]. split; [lia|]. split; [done|].
    split; [|split; [|lia]].
    + unfold GameState.purchaseUpgrade. cbn [fst]. rewrite <-Hm.
      by destruct (decide _).
    + assert (GameState.upgrades (GameState.purchaseUpgrade s1 upgradeId).1
              = <[upgradeId := level + 1]> (GameState.upgrades s1)) as Hins.
      { unfold GameState.purchaseUpgrade. cbn [fst]. rewrite Hl1.
        by destruct (decide _). }
      unfold GameState.getUpgradeLevel at 1. rewrite Hins, lookup_insert_eq.
      unfold Grid.num_or. rewrite decide_False by lia. done.
  - intros cap Hcap Hle. pose proof (canBuyUpgrade_capped s upgradeId) as H.
    rewrite Hcap in H. by apply H.
  - intros Hcap. pose proof (canBuyUpgrade_capped s upgradeId) as H.
    by rewrite Hcap in H.
Qed.

Lemma buyUpgrade_stays_within_cap_witness :
  let s := (GameState.addMoney GameState.new 100).1 in
  let r := ShopSystem.buyUpgrade s "hold_to_paint" in
  GameState.money r.1 = 75 ∧
  ShopSystem.canBuyUpgrade r.1 "hold_to_paint" = false.
Proof.
  intros s r. split.
  - destruct (buyUpgrade_stays_within_cap s "hold_to_paint")
      as (_ & H & _); [vm_compute; discriminate|].
    destruct H as (price & cap & Hp & _ & _ & _ & Hm & _);
      [vm_compute; reflexivity|].
    etrans; [exact Hm|].
    assert (price = 25) as -> by (vm_compute in Hp; congruence).
    vm_compute. reflexivity.
  - destruct (buyUpgrade_stays_within_cap r.1 "hold_to_paint")
      as (_ & _ & H & _); [vm_compute; discriminate|].
    apply (H 1); [reflexivity | vm_compute; discriminate].
Defined.

(** ** AutoPainterSystem: the paint interval *)

Section Interval.

#[local] Open Scope Q_scope.

Lemma Qmax_cases (a b : Q) :
  (a <= b ∧ AutoPainterSystem.Qmax a b = b)
  ∨ (b < a ∧ AutoPainterSystem.Qmax a b = a).
Proof.
  unfold AutoPainterSystem.Qmax. destruct (Qle_bool a b) eqn:E.
  - left. split; [by apply Qle_bool_iff|done].
  - right. split; [|done]. apply Qnot_le_lt. intros H%Qle_bool_iff. congruence.
Qed.

(** The interval as a function of the two levels. *)
Lemma getInterval_levels (s : GameState.t) (painterId : string) :
  AutoPainterSystem.getInterval s painterId
  = AutoPainterSystem.Qmax 200
      (5000
       * AutoPainterSystem.Qmax (2 # 10)
           (1 - inject_Z (GameState.getUpgradeLevel s painterId) * (15 # 100))
       * AutoPainterSystem.Qmax (1 # 10)
           (1 - inject_Z (GameState.getUpgradeLevel s "speed_boost")
                * (25 # 100))).
Proof. reflexivity. Qed.

End Interval.

(** X24. The paint interval of an auto-painter, computed over the rationals:
    for levels that are not negative it lies between 200 and 5000
    milliseconds, it is 5000 at level 0 without speed boost, and raising the
    painter's level or the speed boost level never makes it longer. *)
Theorem getInterval_bounds (s s' : GameState.t) (painterId : string) :
  0 ≤ GameState.getUpgradeLevel s painterId →
  0 ≤ GameState.getUpgradeLevel s "speed_boost" →
  (200 <= AutoPainterSystem.getInterval s painterId)%Q ∧
  (AutoPainterSystem.getInterval s painterId <= 5000)%Q ∧
  (GameState.getUpgradeLevel s painterId = 0 →
   GameState.getUpgradeLevel s "speed_boost" = 0 →
   (AutoPainterSystem.getInterval s painterId == 5000)%Q) ∧
  (GameState.getUpgradeLevel s painterId
   ≤ GameState.getUpgradeLevel s' painterId →
   GameState.getUpgradeLevel s "speed_boost"
   ≤ GameState.getUpgradeLevel s' "speed_boost" →
   (AutoPainterSystem.getInterval s' painterId
    <= AutoPainterSystem.getInterval s painterId)%Q).
Proof.
  intros Hl Hb. rewrite !getInterval_levels.
  set (l := GameState.getUpgradeLevel s painterId) in *.
  set (b := GameState.getUpgradeLevel s "speed_boost") in *.
  set (l' := GameState.getUpgradeLevel s' painterId).
  set (b' := GameState.getUpgradeLevel s' "speed_boost").
  assert (0 <= inject_Z l)%Q as Hlq
    by (change 0%Q with (inject_Z 0); rewrite <-Zle_Qle; lia).
  assert (0 <= inject_Z b)%Q as Hbq
    by (change 0%Q with (inject_Z 0); rewrite <-Zle_Qle; lia).
  split; [|split; [|split]].
  - destruct (Qmax_cases 200 (5000
       * AutoPainterSystem.Qmax (2 # 10) (1 - inject_Z l * (15 # 100))
       * AutoPainterSystem.Qmax (1 # 10) (1 - inject_Z b * (25 # 100))))
      as [[? ->]|[? ->]]; [done|apply Qle_refl].
  - destruct (Qmax_cases (2 # 10) (1 - inject_Z l * (15 # 100)))
      as [[? ->]|[? ->]];
    destruct (Qmax_cases (1 # 10) (1 - inject_Z b * (25 # 100)))
      as [[? ->]|[? ->]];
    match goal with
    | |- (AutoPainterSystem.Qmax 200 ?q <= _)%Q =>
        destruct (Qmax_cases 200 q) as [[? ->]|[? ->]]
    end; try (set (L := inject_Z l) in *; set (B := inject_Z b) in *; nra);
    try discriminate.
  - intros -> ->. vm_compute. reflexivity.
  - intros Hll Hbb.
    assert (inject_Z l <= inject_Z l')%Q as Hlq' by (by rewrite <-Zle_Qle).
    assert (inject_Z b <= inject_Z b')%Q as Hbq' by (by rewrite <-Zle_Qle).
    set (L := inject_Z l) in *. set (B := inject_Z b) in *.
    set (L' := inject_Z l') in *. set (B' := inject_Z b') in *.
    destruct (Qmax_cases (2 # 10) (1 - L * (15 # 100))) as [[? ->]|[? ->]];
    destruct (Qmax_cases (1 # 10) (1 - B * (25 # 100))) as [[? ->]|[? ->]];
    destruct (Qmax_cases (2 # 10) (1 - L' * (15 # 100))) as [[? ->]|[? ->]];
    destruct (Qmax_cases (1 # 10) (1 - B' * (25 # 100))) as [[? ->]|[? ->]];
    repeat match goal with
      | |- context [AutoPainterSystem.Qmax 200 ?q] =>
          destruct (Qmax_cases 200 q) as [[? ->]|[? ->]]
      end; nra.
Qed.

Lemma getInterval_bounds_witness :
  let s := (GameState.purchaseUpgrade GameState.new "auto_painter_red").1 in
  (AutoPainterSystem.getInterval s "auto_painter_red"
   <= AutoPainterSystem.getInterval GameState.new "auto_painter_red")%Q.
Proof.
  intros s.
  destruct (getInterval_bounds GameState.new s "auto_painter_red")
    as (_ & _ & _ & H); [vm_compute; discriminate..|].
  apply H; vm_compute; discriminate.
Defined.

(** ** ContractSystem: the next rank *)

(** X25. [getNextRankRequirements] never returns [null]. Below the top of
    the catalog it reports the rank one above [getHighestAccessibleRank],
    which the player cannot access, so something is listed as missing. At
    the top (10) the lookup of level 11 falls back to the first rank of the
    catalog: the rank reported as next is rank 1. *)
Theorem next_rank_requirements (s : GameState.t) :
  let h := ContractSystem.getHighestAccessibleRank s in
  ∃ rank missing,
    ContractSystem.getNextRankRequirements s = Some (rank, missing) ∧
    missing = Ranks.getMissingRequirements rank (GameState.completedContracts s)
                (ContractSystem.gridSize s) (GameState.unlockedColors s) ∧
    (h < 10 →
     Ranks.level rank = h + 1 ∧
     ContractSystem.accessible s rank = false ∧
     ¬ (Ranks.m_contracts missing = 0 ∧ Ranks.m_gridSize missing = None
        ∧ Ranks.m_colors missing = [])) ∧
    (h = 10 → rank = Ranks.RANKS_0 ∧ Ranks.level rank = 1).
Proof.
  intros h. eexists _, _. split; [reflexivity|]. split; [reflexivity|].
  fold h.
  pose proof (highest_loop_spec s 10 1 1) as Hloop.
  change (ContractSystem.highest_loop s (seqZ 1 (Z.of_nat 10)) 1) with h in Hloop.
  split.
  - intros Hlt.
    assert (ContractSystem.accessible s (Ranks.getRank (h + 1)) = false) as Hno.
    { destruct Hloop as [[Hh [?|Hno]]|(Hr & Hall & Hnext)]; [done|..].
      - rewrite Hh.
        destruct (ContractSystem.accessible s (Ranks.getRank (1 + 1))) eqn:E;
          [|done].
        rewrite <-Hno. symmetry.
        apply (canAccessRank_lower 1 (1 + 1)); [lia|lia|exact E].
      - apply Hnext. lia. }
    split; [|split; [exact Hno|]].
    + assert (1 ≤ h) as H1.
      { destruct Hloop as [[Hh _]|(Hr & _)]; lia. }
      apply getRank_catalog. lia.
    + intros Hnone. apply nothing_missing_iff in Hnone.
      unfold ContractSystem.accessible in Hno. congruence.
  - intros ->. split; reflexivity.
Qed.

(** ** ContractSystem: progress on the active contract *)

Section ProgressFacts.

Implicit Types (g : Grid.t) (p : list (list color)) (row : list color).

Lemma countPatternCells_rows p :
  ContractSystem.countPatternCells p = foldl count_row 0 p.
Proof. reflexivity. Qed.

Lemma count_row_shift (a : Z) row : count_row a row = a + count_row 0 row.
Proof.
  unfold count_row. revert a. induction row as [|c row IH]; intros a; simpl.
  - lia.
  - rewrite IH, (IH (if decide (c ≠ None) then 0 + 1 else 0)).
    case_decide; lia.
Qed.

Lemma count_row_nonneg row : 0 ≤ count_row 0 row.
Proof.
  induction row as [|c row IH]; [done|].
  change (count_row 0 (c :: row))
    with (count_row (if decide (c ≠ None) then 0 + 1 else 0) row).
  rewrite count_row_shift. case_decide; lia.
Qed.

Lemma count_row_take (n : nat) row : count_row 0 (take n row) ≤ count_row 0 row.
Proof.
  revert n. induction row as [|c row IH]; intros [|n]; simpl; try done.
  - apply (count_row_nonneg (c :: row)).
  - change (count_row (if decide (c ≠ None) then 0 + 1 else 0) (take n row)
            ≤ count_row (if decide (c ≠ None) then 0 + 1 else 0) row).
    rewrite count_row_shift, (count_row_shift _ row). specialize (IH n). lia.
Qed.

Lemma count_rows_shift (a : Z) p :
  foldl count_row a p = a + foldl count_row 0 p.
Proof.
  revert a. induction p as [|row p IH]; intros a; simpl; [lia|].
  rewrite IH, (IH (count_row 0 row)), count_row_shift. lia.
Qed.

Lemma count_rows_nonneg p : 0 ≤ foldl count_row 0 p.
Proof.
  induction p as [|row p IH]; simpl; [done|].
  rewrite count_rows_shift. pose proof (count_row_nonneg row). lia.
Qed.

Lemma count_rows_take (n : nat) p :
  foldl count_row 0 (take n p) ≤ foldl count_row 0 p.
Proof.
  revert n. induction p as [|row p IH]; intros [|n]; simpl; try done.
  - apply (count_rows_nonneg (row :: p)).
  - rewrite count_rows_shift, (count_rows_shift _ p). specialize (IH n). lia.
Qed.

(** [pattern[y]?.[x]] at a coordinate that is not negative reads the row,
    an absent row being as good as an empty one. *)
Lemma pattern_at_row p (x y : Z) :
  0 ≤ x → 0 ≤ y →
  GameState.pattern_at p x y = default [] (p !! Z.to_nat y) !! Z.to_nat x.
Proof.
  intros Hx Hy. unfold GameState.pattern_at.
  destruct (Z.ltb_spec y 0); [lia|]. destruct (Z.ltb_spec x 0); [lia|].
  simpl. by destruct (p !! Z.to_nat y).
Qed.

Lemma seqZ_to_nat (m n : Z) : seqZ m n = seqZ m (Z.of_nat (Z.to_nat n)).
Proof. unfold seqZ. by rewrite Nat2Z.id. Qed.

(** Neither counter goes down in the inner loop, and a coordinate raises at
    most one of them. *)
Lemma progress_row_bounds g p (y : Z) (xs : list Z) (acc : Z * Z) :
  let r := ContractSystem.progress_row g p y xs acc in
  acc.1 ≤ r.1 ∧ acc.2 ≤ r.2 ∧ r.1 + r.2 ≤ acc.1 + acc.2 + Z.of_nat (length xs).
Proof.
  revert acc. induction xs as [|x xs IH]; intros acc; simpl; [lia|].
  match goal with
  | |- context [ContractSystem.progress_row g p y xs ?a] =>
      specialize (IH a); revert IH; generalize (ContractSystem.progress_row g p y xs a)
  end.
  intros r. repeat case_decide; simpl; lia.
Qed.

Lemma progress_rows_bounds g p (ys : list Z) (acc : Z * Z) :
  let r := ContractSystem.progress_rows g p ys acc in
  acc.1 ≤ r.1 ∧ acc.2 ≤ r.2 ∧
  r.1 + r.2 ≤ acc.1 + acc.2
              + Z.of_nat (length ys) * Z.of_nat (Z.to_nat (Grid.width g)).
Proof.
  revert acc. induction ys as [|y ys IH]; intros acc; simpl; [lia|].
  pose proof (progress_row_bounds g p y (seqZ 0 (Grid.width g)) acc) as Hrow.
  rewrite length_seqZ in Hrow. simpl in Hrow.
  specialize (IH (ContractSystem.progress_row g p y (seqZ 0 (Grid.width g)) acc)).
  simpl in IH. nia.
Qed.

(** The inner loop on the columns [i, i + n) against the cells of the
    pattern's row: it counts no more than the non-empty ones. *)
Lemma progress_row_le g p (y : Z) (n i : nat) (acc : Z * Z) :
  0 ≤ y →
  (ContractSystem.progress_row g p y (seqZ (Z.of_nat i) (Z.of_nat n)) acc).1
  ≤ count_row acc.1 (take n (drop i (default [] (p !! Z.to_nat y)))).
Proof.
  intros Hy. set (row := default [] (p !! Z.to_nat y)).
  revert i acc. induction n as [|n IH]; intros i acc; [done|].
  rewrite seqZ_cons by lia.
  replace (Z.pred (Z.of_nat (S n))) with (Z.of_nat n) by lia.
  replace (Z.succ (Z.of_nat i)) with (Z.of_nat (S i)) by lia.
  cbn [ContractSystem.progress_row].
  rewrite (pattern_at_row p (Z.of_nat i) y) by lia. fold row. rewrite Nat2Z.id.
  etrans; [apply IH|].
  destruct (row !! i) as [c|] eqn:Hc.
  - rewrite (drop_S _ _ _ Hc). cbn [take]. unfold count_row at 2. cbn [foldl].
    fold (count_row (if decide (c ≠ None) then acc.1 + 1 else acc.1)
            (take n (drop (S i) row))).
    rewrite count_row_shift, (count_row_shift (if decide _ then _ else _)).
    repeat case_decide; simpl; try lia. by subst.
  - rewrite (drop_ge row i) by (by apply lookup_ge_None).
    rewrite (drop_ge row (S i)) by (apply lookup_ge_None in Hc; lia).
    rewrite !take_nil. repeat case_decide; simpl; try done.
Qed.

(** On columns where the grid shows the pattern the inner loop counts
    exactly the non-empty cells of the row, and nothing as wrong. *)
Lemma progress_row_matching g p (y : Z) (n i : nat) (acc : Z * Z) :
  0 ≤ y →
  (∀ x, Z.of_nat i ≤ x < Z.of_nat i + Z.of_nat n →
        Grid.getCell g x y = GameState.nullish (GameState.pattern_at p x y)) →
  ContractSystem.progress_row g p y (seqZ (Z.of_nat i) (Z.of_nat n)) acc
  = (count_row acc.1 (take n (drop i (default [] (p !! Z.to_nat y)))), acc.2).
Proof.
  intros Hy. set (row := default [] (p !! Z.to_nat y)).
  revert i acc. induction n as [|n IH]; intros i acc Hm; [by destruct acc|].
  rewrite seqZ_cons by lia.
  replace (Z.pred (Z.of_nat (S n))) with (Z.of_nat n) by lia.
  replace (Z.succ (Z.of_nat i)) with (Z.of_nat (S i)) by lia.
  cbn [ContractSystem.progress_row].
  rewrite (Hm (Z.of_nat i)) by lia.
  rewrite (pattern_at_row p (Z.of_nat i) y) by lia. fold row. rewrite Nat2Z.id.
  rewrite IH by (intros x Hx; apply Hm; lia).
  destruct (row !! i) as [c|] eqn:Hc.
  - rewrite (drop_S _ _ _ Hc). cbn [take]. unfold count_row at 2. cbn [foldl].
    fold (count_row (if decide (c ≠ None) then acc.1 + 1 else acc.1)
            (take n (drop (S i) row))).
    simpl. destruct c as [c|]; repeat case_decide; simpl; try done.
  - rewrite (drop_ge row i) by (by apply lookup_ge_None).
    rewrite (drop_ge row (S i)) by (apply lookup_ge_None in Hc; lia).
    rewrite !take_nil. simpl. repeat case_decide; simpl; try done.
Qed.

Lemma progress_rows_le g p (n j : nat) (acc : Z * Z) :
  (ContractSystem.progress_rows g p (seqZ (Z.of_nat j) (Z.of_nat n)) acc).1
  ≤ foldl count_row acc.1 (take n (drop j p)).
Proof.
  revert j acc. induction n as [|n IH]; intros j acc; [done|].
  rewrite seqZ_cons by lia.
  replace (Z.pred (Z.of_nat (S n))) with (Z.of_nat n) by lia.
  replace (Z.succ (Z.of_nat j)) with (Z.of_nat (S j)) by lia.
  cbn [ContractSystem.progress_rows].
  etrans; [apply IH|].
  pose proof (progress_row_le g p (Z.of_nat j) (Z.to_nat (Grid.width g)) 0 acc)
    as Hrow.
  rewrite <-seqZ_to_nat, drop_0, Nat2Z.id in Hrow.
  change (Z.of_nat 0) with 0 in Hrow. specialize (Hrow ltac:(lia)).
  set (r := ContractSystem.progress_row g p (Z.of_nat j)
              (seqZ 0 (Grid.width g)) acc) in *.
  destruct (p !! j) as [row|] eqn:Hj.
  - rewrite (drop_S _ _ _ Hj). cbn [take foldl]. simpl in Hrow.
    rewrite count_rows_shift, (count_rows_shift (count_row _ _)).
    pose proof (count_row_take (Z.to_nat (Grid.width g)) row) as Ht.
    rewrite count_row_shift in Hrow. rewrite (count_row_shift acc.1). lia.
  - rewrite (drop_ge p j) by (by apply lookup_ge_None).
    rewrite (drop_ge p (S j)) by (apply lookup_ge_None in Hj; lia).
    rewrite !take_nil. simpl in *. rewrite take_nil in Hrow. exact Hrow.
Qed.

Lemma progress_rows_matching g p (n j : nat) (acc : Z * Z) :
  (∀ x y, 0 ≤ x < Grid.width g → Z.of_nat j ≤ y < Z.of_nat j + Z.of_nat n →
          Grid.getCell g x y = GameState.nullish (GameState.pattern_at p x y)) →
  Forall (λ row : list color, Z.of_nat (length row) ≤ Grid.width g) p →
  ContractSystem.progress_rows g p (seqZ (Z.of_nat j) (Z.of_nat n)) acc
  = (foldl count_row acc.1 (take n (drop j p)), acc.2).
Proof.
  intros Hm Hfit. revert j acc Hm. induction n as [|n IH]; intros j acc Hm;
    [by destruct acc|].
  rewrite seqZ_cons by lia.
  replace (Z.pred (Z.of_nat (S n))) with (Z.of_nat n) by lia.
  replace (Z.succ (Z.of_nat j)) with (Z.of_nat (S j)) by lia.
  cbn [ContractSystem.progress_rows].
  pose proof (progress_row_matching g p (Z.of_nat j)
                (Z.to_nat (Grid.width g)) 0 acc) as Hrow.
  rewrite <-seqZ_to_nat, drop_0, Nat2Z.id in Hrow.
  change (Z.of_nat 0) with 0 in Hrow. rewrite Hrow; [|lia|].
  2:{ intros x Hx. apply Hm; lia. }
  rewrite IH by (intros x y Hx Hy; apply Hm; lia). cbn [fst snd].
  destruct (p !! j) as [row|] eqn:Hj.
  - rewrite (drop_S _ _ _ Hj). cbn [take foldl]. simpl.
    rewrite take_ge; [done|].
    rewrite Forall_forall in Hfit.
    specialize (Hfit row (list_elem_of_lookup_2 _ _ _ Hj)). lia.
  - rewrite (drop_ge p j) by (by apply lookup_ge_None).
    rewrite (drop_ge p (S j)) by (apply lookup_ge_None in Hj; lia).
    simpl. by rewrite !take_nil.
Qed.

(** [Math.round] of a percentage. *)
Lemma round_percent (a b : Z) :
  0 ≤ a ≤ b → 0 < b →
  0 ≤ ContractSystem.round (inject_Z a / inject_Z b * 100)%Q ≤ 100 ∧
  (a = b → ContractSystem.round (inject_Z a / inject_Z b * 100)%Q = 100).
Proof.
  intros Ha Hb. unfold ContractSystem.round.
  assert (0 < inject_Z b)%Q as Hbq
    by (change 0%Q with (inject_Z 0); rewrite <-Zlt_Qlt; lia).
  assert (0 <= inject_Z a)%Q as Haq
    by (change 0%Q with (inject_Z 0); rewrite <-Zle_Qle; lia).
  assert (inject_Z a <= inject_Z b)%Q as Hab by (rewrite <-Zle_Qle; lia).
  assert (0 <= inject_Z a / inject_Z b)%Q as H0.
  { apply Qle_shift_div_l; [done|]. by rewrite Qmult_0_l. }
  assert (inject_Z a / inject_Z b <= 1)%Q as H1.
  { apply Qle_shift_div_r; [done|]. by rewrite Qmult_1_l. }
  set (q := (inject_Z a / inject_Z b)%Q) in *.
  split; [split|].
  - change 0 with (Qfloor 0). apply Qfloor_resp_le. lra.
  - assert (Qfloor (q * 100 + (1 # 2)) ≤ Qfloor (100 + (1 # 2)))
      by (apply Qfloor_resp_le; lra).
    done.
  - intros ->.
    assert (q == 1)%Q as -> by (subst q; field; lra).
    reflexivity.
Qed.

End ProgressFacts.

(** X26. [getProgress] returns [null] exactly when [canAcceptContract]
    holds, that is without an active contract. With a contract it reports
    the contract's [cellCount] as total; both counters are non-negative, a
    coordinate counts in at most one of them, and [correct] never exceeds
    the number of non-empty cells of the pattern. When the grid shows the
    pattern nothing is wrong, and when the pattern also lies inside the grid
    every non-empty cell is correct. For a contract whose [cellCount] is the
    count of its pattern (as [generateContract] builds it) the percentage
    lies between 0 and 100, and is 100 on a match of a pattern with at least
    one cell that lies inside the grid. *)
Theorem getProgress_counts (s : GameState.t) :
  let g := GameState.grid s in
  match GameState.activeContract s with
  | None =>
      ContractSystem.getProgress s = None ∧
      ContractSystem.canAcceptContract s = true
  | Some c =>
      let p := GameState.pattern c in
      ContractSystem.canAcceptContract s = false ∧
      ∃ pr,
        ContractSystem.getProgress s = Some pr ∧
        ContractSystem.total pr = GameState.cellCount c ∧
        0 ≤ ContractSystem.correct pr ≤ ContractSystem.countPatternCells p ∧
        0 ≤ ContractSystem.wrong pr ∧
        ContractSystem.correct pr + ContractSystem.wrong pr
        ≤ Z.max 0 (Grid.width g) * Z.max 0 (Grid.height g) ∧
        (grid_matches g p → ContractSystem.wrong pr = 0) ∧
        (grid_matches g p → pattern_fits g p →
         ContractSystem.correct pr = ContractSystem.countPatternCells p) ∧
        (GameState.cellCount c = ContractSystem.countPatternCells p →
         0 ≤ ContractSystem.percent pr ≤ 100 ∧
         (grid_matches g p → pattern_fits g p → 0 < GameState.cellCount c →
          ContractSystem.percent pr = 100))
  end.
Proof.
  intros g.
  destruct (GameState.activeContract s) as [c|] eqn:Hc;
    [|unfold ContractSystem.getProgress, ContractSystem.canAcceptContract;
      by rewrite Hc].
  intros p. unfold ContractSystem.getProgress, ContractSystem.canAcceptContract.
  rewrite Hc. split; [done|]. eexists. split; [reflexivity|]. fold g p.
  cbn [ContractSystem.total ContractSystem.correct ContractSystem.wrong
       ContractSystem.percent].
  pose proof (progress_rows_bounds g p (seqZ 0 (Grid.height g)) (0, 0)) as Hb.
  pose proof (progress_rows_le g p (Z.to_nat (Grid.height g)) 0 (0, 0)) as Hle.
  rewrite <-seqZ_to_nat, drop_0 in Hle. change (Z.of_nat 0) with 0 in Hle.
  pose proof (count_rows_take (Z.to_nat (Grid.height g)) p) as Htake.
  rewrite length_seqZ in Hb. cbn [fst snd] in Hb, Hle.
  assert (grid_matches g p →
          (ContractSystem.progress_rows g p (seqZ 0 (Grid.height g)) (0, 0)).2
          = 0) as Hwrong.
  { intros Hm.
    assert (∀ ys acc,
              (∀ y, y ∈ ys → 0 ≤ y < Grid.height g) →
              (ContractSystem.progress_rows g p ys acc).2 = acc.2) as Hrows.
    { induction ys as [|y ys IH]; intros acc Hys; [done|].
      cbn [ContractSystem.progress_rows]. rewrite IH.
      - assert (∀ xs acc,
                  (∀ x, x ∈ xs → 0 ≤ x < Grid.width g) →
                  (ContractSystem.progress_row g p y xs acc).2 = acc.2) as Hrow.
        { induction xs as [|x xs IHx]; intros acc' Hxs; [done|].
          cbn [ContractSystem.progress_row]. rewrite IHx.
          - rewrite (Hm x y); [|apply Hxs; by left|apply Hys; by left].
            destruct (GameState.pattern_at p x y) as [[c'|]|];
              repeat case_decide; simpl; done.
          - intros x' Hx'. apply Hxs. by right. }
        apply Hrow. intros x Hx%elem_of_seqZ. lia.
      - intros y' Hy'. apply Hys. by right. }
    rewrite Hrows; [done|]. intros y Hy%elem_of_seqZ. lia. }
  assert (grid_matches g p → pattern_fits g p →
          (ContractSystem.progress_rows g p (seqZ 0 (Grid.height g)) (0, 0)).1
          = ContractSystem.countPatternCells p) as Hcorrect.
  { intros Hm [Hlen Hfit].
    pose proof (progress_rows_matching g p (Z.to_nat (Grid.height g)) 0 (0, 0))
      as Heq.
    rewrite <-seqZ_to_nat, drop_0 in Heq. change (Z.of_nat 0) with 0 in Heq.
    rewrite Heq; [|intros x y Hx Hy; apply Hm; lia|done].
    cbn [fst]. rewrite take_ge by lia. done. }
  set (r := ContractSystem.progress_rows g p (seqZ 0 (Grid.height g)) (0, 0)) in *.
  rewrite countPatternCells_rows in *.
  split; [done|]. split; [lia|]. split; [lia|]. split; [nia|].
  split; [done|]. split; [done|].
  intros Hcc. rewrite Hcc.
  destruct (Z.ltb_spec 0 (foldl count_row 0 p)) as [Hpos|Hzero].
  - destruct (round_percent r.1 (foldl count_row 0 p)) as [Hr H100];
      [lia|lia|].
    split; [done|]. intros Hm Hf _. apply H100. by apply Hcorrect.
  - split; [lia|]. intros _ _ ?. lia.
Qed.

(** ** Auto-painter ids *)

Section PainterIds.





End PainterIds.


(** ** Grid: listing the stored cells *)

Section Listing.

Implicit Types (g : Grid.t) (m : gmap string string).

(** The entries that the walk over the store produces for the key/value
    pairs [kvs], and the count of those of one colour. *)
Lemma entries_of_pairs (kvs : list (string * string)) :
  (∀ kv, kv ∈ kvs → ∃ x y, kv.1 = Grid._key x y) →
  ∃ l, mapM (λ kv : string * string,
               (λ xy : Z * Z, (xy.1, xy.2, Some kv.2)) <$> Grid.parse_key kv.1)
            kvs = Some l
       ∧ (λ e : Z * Z * color, (Grid._key e.1.1 e.1.2, e.2)) <$> l
         = (λ kv : string * string, (kv.1, Some kv.2)) <$> kvs
       ∧ ∀ c : color,
           length (filter (λ e : Z * Z * color, e.2 = c) l)
           = foldr (uncurry (λ (_ v : string) (count : nat),
                               if decide (Some v = c) then S count else count))
                   0%nat kvs.
Proof.
  induction kvs as [|[k v] kvs IH]; intros Hkeys.
  - exists []. by split.
  - destruct IH as (l & Hl & Hmap & Hcount).
    { intros kv Hin. apply Hkeys. by right. }
    destruct (Hkeys (k, v)) as (x & y & Hk); [by left|]. simpl in Hk. subst k.
    exists ((x, y, Some v) :: l). split; [|split].
    + cbn [mapM]. cbn [fst snd]. rewrite parse_key_key. cbn [fmap option_fmap option_map].
      simpl. by rewrite Hl.
    + cbn [fmap list_fmap]. cbn [fst snd]. f_equal. exact Hmap.
    + intros c. rewrite filter_cons. cbn [foldr uncurry fst snd].
      rewrite <-(Hcount c). repeat case_decide; simpl in *; congruence.
Qed.

(** The walk over a store whose keys are keys of coordinates. *)
Lemma cell_entries_spec m :
  keys_of_coordinates m →
  ∃ l, Grid.cell_entries m = Some l ∧ NoDup l ∧ length l = size m ∧
       (∀ x y col, (x, y, col) ∈ l ↔ ∃ c, col = Some c ∧ m !! Grid._key x y = Some c) ∧
       (∀ c : color,
          length (filter (λ e : Z * Z * color, e.2 = c) l)
          = map_fold (λ (_ v : string) (count : nat),
                        if decide (Some v = c) then S count else count)
                     0%nat m).
Proof.
  intros Hkeys.
  destruct (entries_of_pairs (map_to_list m)) as (l & Hl & Hmap & Hcount).
  { intros [k v] Hin%elem_of_map_to_list. by apply (Hkeys k v). }
  exists l. split; [exact Hl|].
  assert (NoDup ((λ kv : string * string, (kv.1, Some kv.2)) <$> map_to_list m))
    as Hnd.
  { apply (NoDup_fmap_2_strong _); [|apply NoDup_map_to_list].
    intros [k1 v1] [k2 v2] _ _ [=]. by subst. }
  split; [|split; [|split]].
  - rewrite <-Hmap in Hnd. by apply NoDup_fmap_1 in Hnd.
  - rewrite <-length_map_to_list.
    rewrite <-(length_fmap (λ e : Z * Z * color, (Grid._key e.1.1 e.1.2, e.2)) l).
    by rewrite Hmap, length_fmap.
  - intros x y col. split.
    + intros Hin.
      assert ((Grid._key x y, col)
              ∈ (λ kv : string * string, (kv.1, Some kv.2)) <$> map_to_list m)
        as Hin'.
      { rewrite <-Hmap. apply list_elem_of_fmap. by exists (x, y, col). }
      apply list_elem_of_fmap in Hin' as ([k v] & [= -> ->] & Hkv).
      exists v. split; [done|]. by apply elem_of_map_to_list.
    + intros (c & -> & Hc).
      assert ((Grid._key x y, Some c)
              ∈ (λ e : Z * Z * color, (Grid._key e.1.1 e.1.2, e.2)) <$> l)
        as Hin.
      { rewrite Hmap. apply list_elem_of_fmap. exists (Grid._key x y, c).
        split; [done|]. by apply elem_of_map_to_list. }
      apply list_elem_of_fmap in Hin as ([[x' y'] col'] & Heq & Hin).
      simpl in Heq. injection Heq as Hk <-.
      apply key_inj in Hk as [-> ->]. done.
  - intros c. by rewrite Hcount, map_fold_foldr.
Qed.

End Listing.

(** X28. On every grid that the constructor and any sequence of calls lead
    to, [getFilledCells] lists the stored cells: each stored coordinate once
    with its colour, and nothing else, so that the list is as long as
    [getFilledCount]. [countColor] of a colour is the number of listed cells
    of that colour; it never exceeds [getFilledCount], and
    [countColor(null)] is 0. *)
Theorem getFilledCells_lists_store (w h : Z) (calls : list GridCall) :
  let g := foldl run_call (Grid.new w h) calls in
  (∃ l, Grid.getFilledCells g = Some l ∧ NoDup l ∧
        length l = Grid.getFilledCount g ∧
        (∀ x y col, (x, y, col) ∈ l ↔
                    ∃ c, col = Some c ∧ Grid.cells g !! Grid._key x y = Some c) ∧
        (∀ c, Grid.countColor g c
              = length (filter (λ e : Z * Z * color, e.2 = c) l)) ∧
        (∀ c, (Grid.countColor g c ≤ Grid.getFilledCount g)%nat)) ∧
  Grid.countColor g None = 0%nat.
Proof.
  intros g.
  assert (keys_of_coordinates (Grid.cells g)) as Hkeys.
  { apply run_calls_keys. by intros k v. }
  destruct (cell_entries_spec (Grid.cells g) Hkeys)
    as (l & Hl & Hnd & Hlen & Hin & Hcount).
  split.
  - exists l. split; [exact Hl|]. split; [exact Hnd|]. split; [exact Hlen|].
    split; [exact Hin|]. split.
    + intros c. by rewrite Hcount.
    + intros c. unfold Grid.countColor, Grid.getFilledCount.
      rewrite <-Hcount, <-Hlen. apply length_filter.
  - unfold Grid.countColor. rewrite map_fold_foldr.
    induction (map_to_list (Grid.cells g)) as [|[k v] kvs IH]; [done|].
    cbn [foldr uncurry fst snd]. rewrite IH. by case_decide.
Qed.

Section Region.

Implicit Types (g : Grid.t) (m : gmap string string).

Lemma dense_cell_elem m (x y x' y' : Z) (col : color) :
  (x', y', col) ∈ Grid.dense_cell m x y ↔
  x' = x ∧ y' = y ∧ ∃ c, col = Some c ∧ c ≠ "" ∧ m !! Grid._key x y = Some c.
Proof.
  unfold Grid.dense_cell.
  destruct (or_null (m !! Grid._key x y)) as [c|] eqn:Hc.
  - apply or_null_Some in Hc as [Hc Hne]. rewrite list_elem_of_singleton. split.
    + intros [= -> -> ->]. split; [done|]. split; [done|]. by exists c.
    + intros (-> & -> & c' & -> & _ & Hc'). rewrite Hc in Hc'.
      by injection Hc' as ->.
  - split; [by intros ?%elem_of_nil|].
    intros (_ & _ & c & _ & Hne & Hc'). rewrite Hc' in Hc. simpl in Hc.
    by rewrite decide_False in Hc.
Qed.

Lemma dense_cell_NoDup m (x y : Z) : NoDup (Grid.dense_cell m x y).
Proof.
  unfold Grid.dense_cell. destruct (or_null _); [apply NoDup_singleton|constructor].
Qed.

End Region.

(** X29. [getCellsInRegion] clamps the region to the grid and lists stored
    cells of the clamped region, whichever of its two strategies it takes:
    on every grid that the constructor and any sequence of calls lead to,
    each listed cell lies in the clamped region and is stored with the
    listed colour, no cell is listed twice, and every coordinate of the
    clamped region at which [getCell] reports a colour is listed with that
    colour. *)
Theorem getCellsInRegion_lists_region (w h : Z) (calls : list GridCall)
    (startX startY endX endY : Q) :
  let g := foldl run_call (Grid.new w h) calls in
  let x0 := Z.max 0 (Qfloor startX) in
  let y0 := Z.max 0 (Qfloor startY) in
  let x1 := Z.min (Grid.width g) (Qceiling endX) in
  let y1 := Z.min (Grid.height g) (Qceiling endY) in
  ∃ l, Grid.getCellsInRegion g startX startY endX endY = Some l ∧
       NoDup l ∧
       (∀ x y col, (x, y, col) ∈ l →
          x0 ≤ x < x1 ∧ y0 ≤ y < y1 ∧
          ∃ c, col = Some c ∧ Grid.cells g !! Grid._key x y = Some c) ∧
       (∀ x y c, x0 ≤ x < x1 → y0 ≤ y < y1 →
          Grid.getCell g x y = Some c → (x, y, Some c) ∈ l).
Proof.
  intros g x0 y0 x1 y1.
  assert (keys_of_coordinates (Grid.cells g)) as Hkeys.
  { apply run_calls_keys. by intros k v. }
  assert (∀ x y c, x0 ≤ x < x1 → y0 ≤ y < y1 →
            Grid.getCell g x y = Some c →
            c ≠ "" ∧ Grid.cells g !! Grid._key x y = Some c) as Hget.
  { intros x y c Hx Hy. unfold Grid.getCell.
    destruct (Grid.isValid g x y); simpl; [|done].
    intros [? ?]%or_null_Some. done. }
  unfold Grid.getCellsInRegion. fold x0 y0 x1 y1.
  destruct (Qlt_le_dec _ _) as [_|_].
  - destruct (cell_entries_spec (Grid.cells g) Hkeys)
      as (l & Hl & Hnd & _ & Hin & _).
    rewrite Hl. cbn [fmap option_fmap option_map]. eexists. split; [reflexivity|].
    split; [by apply NoDup_filter|]. split.
    + intros x y col [Hreg Hl']%list_elem_of_filter. simpl in Hreg.
      apply Hin in Hl'. split; [lia|]. split; [lia|done].
    + intros x y c Hx Hy Hc. apply Hget in Hc as [_ Hc]; [|done..].
      apply list_elem_of_filter. split; [simpl; lia|].
      apply Hin. by exists c.
  - eexists. split; [reflexivity|]. split; [|split].
    + apply NoDup_bind; [| |apply NoDup_seqZ].
      * intros ya yb [[x y] col] _ _
          (xa & Ha & _)%list_elem_of_bind (xb & Hb & _)%list_elem_of_bind.
        apply dense_cell_elem in Ha as (_ & -> & _).
        by apply dense_cell_elem in Hb as (_ & -> & _).
      * intros y _. apply NoDup_bind; [| |apply NoDup_seqZ].
        -- intros xa xb [[x y'] col] _ _ Ha Hb.
           apply dense_cell_elem in Ha as (-> & _).
           by apply dense_cell_elem in Hb as (-> & _).
        -- intros x _. apply dense_cell_NoDup.
    + intros x y col (y' & (x' & Hd & Hx%elem_of_seqZ)%list_elem_of_bind
                       & Hy%elem_of_seqZ)%list_elem_of_bind.
      apply dense_cell_elem in Hd as (-> & -> & c & -> & _ & Hc).
      split; [lia|]. split; [lia|]. by exists c.
    + intros x y c Hx Hy Hc. apply Hget in Hc as [Hne Hc]; [|done..].
      apply list_elem_of_bind. exists y. split; [|apply elem_of_seqZ; lia].
      apply list_elem_of_bind. exists x. split; [|apply elem_of_seqZ; lia].
      apply dense_cell_elem. split; [done|]. split; [done|]. by exists c.
Qed.

(** ** AutoPainterSystem: the tick *)

Section Tick.

Implicit Types (st : GameState.t * gmap string Z) (lastPaintTime : gmap string Z).

Lemma getInterval_at_least_200 (s : GameState.t) (painterId : string) :
  (200 <= AutoPainterSystem.getInterval s painterId)%Q.
Proof.
  rewrite getInterval_levels.
  match goal with
  | |- (_ <= AutoPainterSystem.Qmax 200 ?q)%Q =>
      destruct (Qmax_cases 200 q) as [[? ->]|[? ->]]
  end; [done|apply Qle_refl].
Qed.

(** A painter whose colour was painted less than 200 ms ago is skipped. *)
Lemma tick_step_recent (now : Z) st (painterId : string) :
  (∀ colorId, Upgrades.getAutoPainterColor painterId = Some colorId →
              now - Grid.num_or (st.2 !! colorId) 0 < 200) →
  AutoPainterSystem.tick_step now st painterId = st.
Proof.
  intros Hrecent. unfold AutoPainterSystem.tick_step.
  destruct (or_null (Upgrades.getAutoPainterColor painterId)) as [c|] eqn:Hc;
    [|done].
  apply or_null_Some in Hc as [Hc _]. specialize (Hrecent c Hc).
  destruct (Qle_bool _ _) eqn:Hle; [|done].
  apply Qle_bool_iff in Hle.
  pose proof (getInterval_at_least_200 st.1 painterId) as H200.
  assert (200 <= inject_Z (now - Grid.num_or (st.2 !! c) 0))%Q as Hd
    by (eapply Qle_trans; [exact H200|exact Hle]).
  change 200%Q with (inject_Z 200) in Hd. rewrite <-Zle_Qle in Hd. lia.
Qed.

(** One painter's turn leaves each entry of [lastPaintTime] alone or sets it
    to [now]. *)
Lemma tick_step_times (now : Z) st (painterId colorId : string) :
  (AutoPainterSystem.tick_step now st painterId).2 !! colorId = st.2 !! colorId
  ∨ (AutoPainterSystem.tick_step now st painterId).2 !! colorId = Some now.
Proof.
  unfold AutoPainterSystem.tick_step.
  destruct (or_null _) as [c|]; [|by left].
  destruct (Qle_bool _ _); [|by left].
  destruct (AutoPainterSystem.paintNextCell st.1 (Some c)).2; [|by left].
  cbn [snd]. destruct (decide (c = colorId)) as [->|Hne].
  - right. by rewrite lookup_insert_eq.
  - left. by rewrite lookup_insert_ne.
Qed.

End Tick.

(** X30. [tick] does nothing without an active contract, nothing while the
    auto-painters are switched off, and nothing when the colour of every
    owned painter was last painted less than 200 ms before: no interval is
    shorter than that. Whatever it does, each entry of [lastPaintTime] is
    afterwards what it was or the time of the tick. *)
Theorem tick_is_rate_limited (now : Z) (s : GameState.t)
    (lastPaintTime : gmap string Z) :
  let r := AutoPainterSystem.tick now (s, lastPaintTime) in
  (GameState.activeContract s = None → r = (s, lastPaintTime)) ∧
  (GameState.isAutomationEnabled s "auto_painters" = false →
   r = (s, lastPaintTime)) ∧
  ((∀ painterId colorId,
      painterId ∈ GameState.getOwnedAutoPainters s →
      Upgrades.getAutoPainterColor painterId = Some colorId →
      now - Grid.num_or (lastPaintTime !! colorId) 0 < 200) →
   r = (s, lastPaintTime)) ∧
  (∀ colorId, r.2 !! colorId = lastPaintTime !! colorId
              ∨ r.2 !! colorId = Some now).
Proof.
  intros r. subst r. unfold AutoPainterSystem.tick. cbn [fst].
  split; [by intros ->|]. split; [|split].
  - intros ->. by destruct (GameState.activeContract s).
  - intros Hrecent. destruct (GameState.activeContract s) as [c0|]; [|done].
    destruct (negb _); [done|].
    induction (GameState.getOwnedAutoPainters s) as [|id ids IH]; [done|].
    cbn [foldl]. rewrite tick_step_recent.
    + apply IH. intros id' c Hin. apply Hrecent. by right.
    + intros c Hc. apply (Hrecent id c); [by left|done].
  - intros c. destruct (GameState.activeContract s) as [c0|]; [|by left].
    destruct (negb _); [by left|].
    generalize (GameState.getOwnedAutoPainters s). intros ids.
    revert lastPaintTime. generalize s.
    induction ids as [|id ids IH]; intros s0 lpt; [by left|].
    cbn [foldl].
    destruct (AutoPainterSystem.tick_step now (s0, lpt) id) as [s1 lpt1] eqn:Hstep.
    pose proof (tick_step_times now (s0, lpt) id c) as Hone.
    rewrite Hstep in Hone. cbn [snd] in Hone.
    destruct (IH s1 lpt1) as [Hrest|Hrest]; [|by right].
    rewrite Hrest. exact Hone.
Qed.
